(** * AI Toy Companion: the command-response pipeline

    A shallow embedding of the request pipeline of the Preact application:
    the hardened application file (the one with retry, debounce and abort
    controller; [src/unnamed/part_000]) is embedded at top level, with the
    JavaScript values in module [Js] and the responses of the generation
    service in module [Sdk]; the earlier application file ([src/index.tsx])
    is embedded in module [Legacy].

    Conventions of the embedding.
    - A JavaScript string is a [string]: a sequence of code units below 256,
      read as Latin-1 code points.  [toLowerCase] and [trim] are the
      restrictions of the JavaScript functions to that fragment.
    - A JavaScript number that the pipeline computes with (timestamps,
      delays, the attempt counter) is a [Z]; all of them stay far below
      2^53, where double arithmetic is exact.
    - Preact state ([useState]) is the record [State]; refs ([useRef]) and
      the pending [setTimeout] callbacks sit next to it in [World], with
      the log of the effects on the outside world.
    - An [async] function is cut at its [await]s: one definition per
      segment, and a task value that names the suspension point. *)

From Stdlib Require Import ZArith String Ascii List Bool Lia DecimalString.
Import ListNotations.
Local Open Scope string_scope.
Local Open Scope Z_scope.

(** ** JavaScript strings and values *)

Module Js.

(** Code unit of a character. *)
Definition code (c : ascii) : Z := Z.of_N (N_of_ascii c).

(** [String.prototype.toLowerCase] on one Latin-1 code unit:
    A-Z and the accented capitals U+00C0..U+00DE (U+00D7, the
    multiplication sign, excepted) move up by 32. *)
Definition lowerChar (c : ascii) : ascii :=
  let n := code c in
  if ((65 <=? n) && (n <=? 90))
     || ((192 <=? n) && (n <=? 222) && negb (n =? 215))
  then ascii_of_N (Z.to_N (n + 32))
  else c.

Fixpoint toLowerCase (s : string) : string :=
  match s with
  | EmptyString => EmptyString
  | String c r => String (lowerChar c) (toLowerCase r)
  end.

(** WhiteSpace and LineTerminator code points below 256:
    TAB, LF, VT, FF, CR, SPACE and NO-BREAK SPACE. *)
Definition isWhiteSpace (c : ascii) : bool :=
  let n := code c in
  ((9 <=? n) && (n <=? 13)) || (n =? 32) || (n =? 160).

Fixpoint trimStart (s : string) : string :=
  match s with
  | EmptyString => EmptyString
  | String c r => if isWhiteSpace c then trimStart r else s
  end.

Fixpoint trimEnd (s : string) : string :=
  match s with
  | EmptyString => EmptyString
  | String c r =>
      match trimEnd r with
      | EmptyString => if isWhiteSpace c then EmptyString else String c EmptyString
      | r' => String c r'
      end
  end.

(** [String.prototype.trim]. *)
Definition trim (s : string) : string := trimEnd (trimStart s).

(** [String.prototype.startsWith]. *)
Fixpoint startsWith (p s : string) : bool :=
  match p, s with
  | EmptyString, _ => true
  | String a p', String b s' => Ascii.eqb a b && startsWith p' s'
  | String _ _, EmptyString => false
  end.

(** [String.prototype.includes]: [includes sub s] is [s.includes(sub)]. *)
Fixpoint includes (sub s : string) : bool :=
  startsWith sub s
  || match s with
     | EmptyString => false
     | String _ r => includes sub r
     end.

(** Truthiness of a string: the empty string is falsy. *)
Definition nonEmpty (s : string) : bool :=
  match s with EmptyString => false | String _ _ => true end.

(** Numbers, as far as an error value can be one: an integer (a bigint
    behaves alike), NaN, or any other value (a fraction, an infinity) given
    by its rendering; the latter are never zero, hence truthy. *)
Inductive JsNumber :=
| NumInt (z : Z)
| NumNaN
| NumOther (rendering : string).

(** The values a [catch] clause can receive.  An object (an [Error], a
    plain object, a function) is given by its [message] property and by
    what [String(...)] makes of it. *)
Inductive JsValue :=
| JUndefined
| JNull
| JBool (b : bool)
| JNumber (n : JsNumber)
| JString (s : string)
| JObject (message : JsValue) (rendering : string).

(** ToBoolean. *)
Definition truthy (v : JsValue) : bool :=
  match v with
  | JUndefined | JNull => false
  | JBool b => b
  | JNumber (NumInt z) => negb (z =? 0)
  | JNumber NumNaN => false
  | JNumber (NumOther _) => true
  | JString s => nonEmpty s
  | JObject _ _ => true
  end.

(** [String(v)]. *)
Definition toStr (v : JsValue) : string :=
  match v with
  | JUndefined => "undefined"
  | JNull => "null"
  | JBool true => "true"
  | JBool false => "false"
  | JNumber (NumInt z) => NilZero.string_of_int (Z.to_int z)
  | JNumber NumNaN => "NaN"
  | JNumber (NumOther r) => r
  | JString s => s
  | JObject _ r => r
  end.

(** [v.message] for a value that is neither [null] nor [undefined]; a
    primitive has no such property. *)
Definition messageOf (v : JsValue) : JsValue :=
  match v with
  | JObject m _ => m
  | _ => JUndefined
  end.

(** [a || b]. *)
Definition jsOr (a b : JsValue) : JsValue := if truthy a then a else b.

(** [new Error(msg)]: its rendering is ["Error: " + msg], or ["Error"] for
    the empty message. *)
Definition mkError (msg : string) : JsValue :=
  JObject (JString msg)
          (if nonEmpty msg then "Error: " ++ msg else "Error").

End Js.

Import Js.

(** ** Helpers of the application (part_000, lines 24-61) *)

Definition SAFE_RETRY_COUNT : Z := 2.
Definition RETRY_BASE_DELAY_MS : Z := 800.

(** [isQuotaError] (lines 53-57). *)
Definition isQuotaError (err : JsValue) : bool :=
  if negb (truthy err) then false
  else
    let msg := toLowerCase (toStr (jsOr (messageOf err) err)) in
    includes "quota" msg || includes "limit" msg || includes "exceeded" msg
    || includes "rate limit" msg || includes "429" msg.

(** The spec's reading of the classifier's boolean. *)
Inductive Classification := Fatal | Transient.

Definition classify (err : JsValue) : Classification :=
  if isQuotaError err then Fatal else Transient.

(** The keyword set of the spec, and the text the classifier looks at:
    [String(err.message || err)], which for [null] and [undefined] (where
    the property access is not made) is the rendering of the value. *)
Definition keywords : list string :=
  ["quota"; "limit"; "exceeded"; "rate limit"; "429"].

Definition stringified (err : JsValue) : string :=
  toStr (jsOr (messageOf err) err).

(** [Contains sub s]: [sub] occurs in [s]. *)
Definition Contains (sub s : string) : Prop :=
  exists pre post, s = pre ++ sub ++ post.


(** ** The generation service, as the application sees it *)

Module Sdk.

(** [inlineData] of a part. *)
Record Blob := { data : option string; mimeType : option string }.

(** A part of a candidate's content: [part.text], [part.inlineData]. *)
Record Part := { partText : option string; inlineData : option Blob }.

Record Content := { parts : option (list Part) }.

Record Candidate := { content : option Content }.

(** [GenerateContentResponse]: [responseText] is the [.text] accessor, the
    text the SDK aggregates ([undefined] when there is none). *)
Record GenerateContentResponse := {
  responseText : option string;
  candidates : option (list Candidate)
}.

(** How [await ai.models.generateContent(...)] ends: with a value (which
    the code does not assume to be an object) or with a thrown value. *)
Inductive Outcome :=
| Resolved (response : option GenerateContentResponse)
| Rejected (err : JsValue).

End Sdk.

Import Sdk.

(** ** State of the component *)

(** The part sent with every request: [{ inlineData: { data, mimeType } }]. *)
Record ImagePart := { imageData : string; imageMime : string }.

(** A [File] of a file input: its name, its MIME type and what
    [readAsDataURL] will make of it, a data URL or a read error. *)
Record File := { fileName : string; fileType : string; fileDataURL : option string }.

(** Object URLs and abort controllers are opaque handles. *)
Definition Handle := nat.

(** The [useState] cells of [App] (lines 66-78; [voices] belongs to the
    speech layer and is left out). *)
Record State := {
  toyImage : option Handle;
  toyImagePart : option ImagePart;
  toyModel : option File;
  toyDescription : string;
  userCommand : string;
  toyReply : string;
  actionImage : option string;
  isLoadingDescription : bool;
  isLoadingResponse : bool;
  isListening : bool;
  error : string;
  lastSendAt : Z
}.

Definition initialState : State :=
  {| toyImage := None; toyImagePart := None; toyModel := None;
     toyDescription := ""; userCommand := ""; toyReply := "";
     actionImage := None; isLoadingDescription := false;
     isLoadingResponse := false; isListening := false; error := "";
     lastSendAt := 0 |}.

Inductive Sound := click | reply | image | success | errorSound | micOn | micOff.

(** What the handlers do to the world outside the component. *)
Inductive Effect :=
| InitializeAudio
| PlaySound (type : Sound)
| SpeechCancel
| CreateObjectURL (url : Handle)
| RevokeObjectURL (url : Handle)
| NewAbortController (id : Handle)
| Abort (id : Handle)
| GenerateContent (model : string) (img : ImagePart) (prompt : string)
    (signal : option Handle)
| ReadAsDataURL (file : File)
| Sleep (ms : Z)
| ConsoleError (what : string)
| StopBackgroundMusic
| PlayBackgroundMusic.

(** The component with its refs (lines 81-86), the clock, the pending
    [() => setError('')] timeouts (by firing time, oldest first), a supply
    of fresh handles and the effects so far (oldest first). *)
Record World := {
  st : State;
  toyImageObjectUrlRef : option Handle;
  abortControllerRef : option Handle;
  clock : Z;
  timers : list Z;
  fresh : Handle;
  log : list Effect
}.

Definition initialWorld (now : Z) : World :=
  {| st := initialState; toyImageObjectUrlRef := None;
     abortControllerRef := None; clock := now; timers := [];
     fresh := 0%nat; log := [] |}.

(** *** Setters *)

Definition withState (f : State -> State) (w : World) : World :=
  {| st := f (st w); toyImageObjectUrlRef := toyImageObjectUrlRef w;
     abortControllerRef := abortControllerRef w; clock := clock w;
     timers := timers w; fresh := fresh w; log := log w |}.

Definition emit (e : Effect) (w : World) : World :=
  {| st := st w; toyImageObjectUrlRef := toyImageObjectUrlRef w;
     abortControllerRef := abortControllerRef w; clock := clock w;
     timers := timers w; fresh := fresh w; log := log w ++ [e] |}.

Definition setUrlRef (r : option Handle) (w : World) : World :=
  {| st := st w; toyImageObjectUrlRef := r;
     abortControllerRef := abortControllerRef w; clock := clock w;
     timers := timers w; fresh := fresh w; log := log w |}.

Definition setAbortRef (r : option Handle) (w : World) : World :=
  {| st := st w; toyImageObjectUrlRef := toyImageObjectUrlRef w;
     abortControllerRef := r; clock := clock w;
     timers := timers w; fresh := fresh w; log := log w |}.

Definition setTimers (ts : list Z) (w : World) : World :=
  {| st := st w; toyImageObjectUrlRef := toyImageObjectUrlRef w;
     abortControllerRef := abortControllerRef w; clock := clock w;
     timers := ts; fresh := fresh w; log := log w |}.

Definition setClock (t : Z) (w : World) : World :=
  {| st := st w; toyImageObjectUrlRef := toyImageObjectUrlRef w;
     abortControllerRef := abortControllerRef w; clock := t;
     timers := timers w; fresh := fresh w; log := log w |}.

(** A fresh handle. *)
Definition newHandle (w : World) : Handle * World :=
  (fresh w,
   {| st := st w; toyImageObjectUrlRef := toyImageObjectUrlRef w;
      abortControllerRef := abortControllerRef w; clock := clock w;
      timers := timers w; fresh := S (fresh w); log := log w |}).

Definition setToyImage (v : option Handle) (s : State) : State :=
  {| toyImage := v; toyImagePart := toyImagePart s; toyModel := toyModel s;
     toyDescription := toyDescription s; userCommand := userCommand s;
     toyReply := toyReply s; actionImage := actionImage s;
     isLoadingDescription := isLoadingDescription s;
     isLoadingResponse := isLoadingResponse s; isListening := isListening s;
     error := error s; lastSendAt := lastSendAt s |}.

Definition setToyImagePart (v : option ImagePart) (s : State) : State :=
  {| toyImage := toyImage s; toyImagePart := v; toyModel := toyModel s;
     toyDescription := toyDescription s; userCommand := userCommand s;
     toyReply := toyReply s; actionImage := actionImage s;
     isLoadingDescription := isLoadingDescription s;
     isLoadingResponse := isLoadingResponse s; isListening := isListening s;
     error := error s; lastSendAt := lastSendAt s |}.

Definition setToyModel (v : option File) (s : State) : State :=
  {| toyImage := toyImage s; toyImagePart := toyImagePart s; toyModel := v;
     toyDescription := toyDescription s; userCommand := userCommand s;
     toyReply := toyReply s; actionImage := actionImage s;
     isLoadingDescription := isLoadingDescription s;
     isLoadingResponse := isLoadingResponse s; isListening := isListening s;
     error := error s; lastSendAt := lastSendAt s |}.

Definition setToyDescription (v : string) (s : State) : State :=
  {| toyImage := toyImage s; toyImagePart := toyImagePart s; toyModel := toyModel s;
     toyDescription := v; userCommand := userCommand s;
     toyReply := toyReply s; actionImage := actionImage s;
     isLoadingDescription := isLoadingDescription s;
     isLoadingResponse := isLoadingResponse s; isListening := isListening s;
     error := error s; lastSendAt := lastSendAt s |}.

Definition setUserCommand (v : string) (s : State) : State :=
  {| toyImage := toyImage s; toyImagePart := toyImagePart s; toyModel := toyModel s;
     toyDescription := toyDescription s; userCommand := v;
     toyReply := toyReply s; actionImage := actionImage s;
     isLoadingDescription := isLoadingDescription s;
     isLoadingResponse := isLoadingResponse s; isListening := isListening s;
     error := error s; lastSendAt := lastSendAt s |}.

Definition setToyReply (v : string) (s : State) : State :=
  {| toyImage := toyImage s; toyImagePart := toyImagePart s; toyModel := toyModel s;
     toyDescription := toyDescription s; userCommand := userCommand s;
     toyReply := v; actionImage := actionImage s;
     isLoadingDescription := isLoadingDescription s;
     isLoadingResponse := isLoadingResponse s; isListening := isListening s;
     error := error s; lastSendAt := lastSendAt s |}.

Definition setActionImage (v : option string) (s : State) : State :=
  {| toyImage := toyImage s; toyImagePart := toyImagePart s; toyModel := toyModel s;
     toyDescription := toyDescription s; userCommand := userCommand s;
     toyReply := toyReply s; actionImage := v;
     isLoadingDescription := isLoadingDescription s;
     isLoadingResponse := isLoadingResponse s; isListening := isListening s;
     error := error s; lastSendAt := lastSendAt s |}.

Definition setIsLoadingDescription (v : bool) (s : State) : State :=
  {| toyImage := toyImage s; toyImagePart := toyImagePart s; toyModel := toyModel s;
     toyDescription := toyDescription s; userCommand := userCommand s;
     toyReply := toyReply s; actionImage := actionImage s;
     isLoadingDescription := v;
     isLoadingResponse := isLoadingResponse s; isListening := isListening s;
     error := error s; lastSendAt := lastSendAt s |}.

Definition setIsLoadingResponse (v : bool) (s : State) : State :=
  {| toyImage := toyImage s; toyImagePart := toyImagePart s; toyModel := toyModel s;
     toyDescription := toyDescription s; userCommand := userCommand s;
     toyReply := toyReply s; actionImage := actionImage s;
     isLoadingDescription := isLoadingDescription s;
     isLoadingResponse := v; isListening := isListening s;
     error := error s; lastSendAt := lastSendAt s |}.

Definition setIsListening (v : bool) (s : State) : State :=
  {| toyImage := toyImage s; toyImagePart := toyImagePart s; toyModel := toyModel s;
     toyDescription := toyDescription s; userCommand := userCommand s;
     toyReply := toyReply s; actionImage := actionImage s;
     isLoadingDescription := isLoadingDescription s;
     isLoadingResponse := isLoadingResponse s; isListening := v;
     error := error s; lastSendAt := lastSendAt s |}.

Definition setError (v : string) (s : State) : State :=
  {| toyImage := toyImage s; toyImagePart := toyImagePart s; toyModel := toyModel s;
     toyDescription := toyDescription s; userCommand := userCommand s;
     toyReply := toyReply s; actionImage := actionImage s;
     isLoadingDescription := isLoadingDescription s;
     isLoadingResponse := isLoadingResponse s; isListening := isListening s;
     error := v; lastSendAt := lastSendAt s |}.

Definition setLastSendAt (v : Z) (s : State) : State :=
  {| toyImage := toyImage s; toyImagePart := toyImagePart s; toyModel := toyModel s;
     toyDescription := toyDescription s; userCommand := userCommand s;
     toyReply := toyReply s; actionImage := actionImage s;
     isLoadingDescription := isLoadingDescription s;
     isLoadingResponse := isLoadingResponse s; isListening := isListening s;
     error := error s; lastSendAt := v |}.

(** ** The handlers of [App] (part_000) *)

Notation "w |> f" := (f w) (at level 45, left associativity, only parsing).

(** The texts shown to the user, as the source spells them. *)
Definition MSG_NOT_IMAGE : string := "Please upload an image file.".
Definition MSG_DAILY_LIMIT : string :=
  "Looks like the daily request limit for the AI model has been reached. Please try again tomorrow.".
Definition MSG_DESCRIBE_FAILED : string := "Could not describe the toy. Please try again.".
Definition MSG_READ_FAILED : string := "Failed to read the image or call the API.".
Definition MSG_NO_REPLY : string :=
  "I couldn't produce a reply or image. Try a simpler command like 'dance' or 'say hi'.".
Definition MSG_SEND_FAILED : string :=
  "Something went wrong while generating the reply. Please try again.".
Definition PLACEHOLDER_DESCRIPTION : string :=
  "A friendly toy! (Could not get a detailed description.)".
Definition DESCRIBE_PROMPT : string :=
  "Describe this toy in a few simple, friendly words for a child.".

(** Delay of the timeout of [handleError] and window of [canSendNow]. *)
Definition ERROR_DISPLAY_MS : Z := 6000.
Definition DEBOUNCE_MS : Z := 600.

(** [handleError] (lines 239-245): the timeout it sets is never cleared. *)
Definition handleError (message : string) (w : World) : World :=
  let w := w |> emit InitializeAudio |> emit (PlaySound errorSound)
             |> withState (setError message) in
  w |> setTimers (timers w ++ [clock w + ERROR_DISPLAY_MS]).

(** Time passes: the clock moves by [dt] and the timeouts that are due run
    their callback, [setError('')]. *)
Definition advance (dt : Z) (w : World) : World :=
  let t := clock w + dt in
  let due := existsb (fun f => f <=? t) (timers w) in
  let w := w |> setClock t
             |> setTimers (filter (fun f => negb (f <=? t)) (timers w)) in
  if due then w |> withState (setError "") else w.

(** [startOver] (lines 247-270).  The two file inputs it empties are DOM
    elements outside the model. *)
Definition startOver (w : World) : World :=
  let w := w |> emit InitializeAudio |> emit (PlaySound click) |> emit SpeechCancel
             |> withState (setToyImage None)
             |> withState (setToyImagePart None)
             |> withState (setToyModel None)
             |> withState (setToyDescription "")
             |> withState (setUserCommand "")
             |> withState (setToyReply "")
             |> withState (setActionImage None)
             |> withState (setError "") in
  let w := match toyImageObjectUrlRef w with
           | Some u => w |> emit (RevokeObjectURL u) |> setUrlRef None
           | None => w
           end in
  match abortControllerRef w with
  | Some c => w |> emit (Abort c) |> setAbortRef None
  | None => w
  end.

(** A request with an abort controller of its own (lines 303-311 and
    402-411): the controller goes into the ref, its signal into the call. *)
Definition issueCall (model : string) (img : ImagePart) (prompt : string)
  (w : World) : World :=
  let (c, w) := newHandle w in
  w |> emit (NewAbortController c) |> setAbortRef (Some c)
    |> emit (GenerateContent model img prompt (Some c)).

(** *** Uploading a picture: [handleFileChange] (lines 273-355) *)

(** [s.split(sep)]. *)
Fixpoint split (sep : ascii) (s : string) : list string :=
  match s with
  | EmptyString => [EmptyString]
  | String c r =>
      if Ascii.eqb c sep then EmptyString :: split sep r
      else match split sep r with
           | [] => [String c EmptyString]
           | h :: t => String c h :: t
           end
  end.

(** [base64Encode] (lines 36-51): the text after the first comma of the
    data URL, or the rejection of [reader.onerror]. *)
Definition base64Encode (file : File) : string + JsValue :=
  match fileDataURL file with
  | Some result => inl (nth 1 (split "," result) "")
  | None => inr (mkError "Could not read file.")
  end.

(** Where [handleFileChange] is suspended. *)
Inductive DescribeTask :=
| DAwaitEncode (file : File)
| DAwaitCall (imagePart : ImagePart) (attempt : Z)
| DAwaitSleep (imagePart : ImagePart) (attempt : Z) (backoff : Z)
| DDone.

(** The outer [finally] (line 353). *)
Definition describeFinish (w : World) : World * DescribeTask :=
  (w |> withState (setIsLoadingDescription false), DDone).

(** Head of the [while] loop and the body up to the [await] of
    [generateContent] (lines 300-311). *)
Definition describeLoop (imagePart : ImagePart) (attempt : Z) (w : World)
  : World * DescribeTask :=
  if attempt <=? SAFE_RETRY_COUNT then
    (issueCall "gemini-2.5-flash" imagePart DESCRIBE_PROMPT w,
     DAwaitCall imagePart attempt)
  else describeFinish w.

(** The inner [catch] (lines 324-338); the inner [finally] (line 340) runs
    at once on a [break], and after the sleep otherwise. *)
Definition describeCatch (imagePart : ImagePart) (attempt : Z) (err : JsValue)
  (w : World) : World * DescribeTask :=
  if isQuotaError err then
    w |> handleError MSG_DAILY_LIMIT |> setAbortRef None |> describeFinish
  else
    let attempt := attempt + 1 in
    if attempt >? SAFE_RETRY_COUNT then
      w |> emit (ConsoleError "Final error describing toy:")
        |> handleError MSG_DESCRIBE_FAILED |> setAbortRef None |> describeFinish
    else
      let backoff := RETRY_BASE_DELAY_MS * 2 ^ attempt in
      (w |> emit (Sleep backoff), DAwaitSleep imagePart attempt backoff).

(** What reading a property of [undefined] throws. *)
Definition typeErrorText : JsValue :=
  JObject (JString "Cannot read properties of undefined (reading 'text')")
          "TypeError: Cannot read properties of undefined (reading 'text')".

(** Lines 282-293: the session is reset, the picture is shown at once and
    the file is given to the reader. *)
Definition showPicture (f : File) (w : World) : World :=
  let w := w |> startOver |> emit InitializeAudio |> emit (PlaySound click) in
  let (objUrl, w) := newHandle w in
  w |> emit (CreateObjectURL objUrl) |> setUrlRef (Some objUrl)
    |> withState (setToyImage (Some objUrl))
    |> withState (setIsLoadingDescription true)
    |> emit (ReadAsDataURL f).

(** From the start of the handler to [await base64Encode(file)]
    (lines 273-293). *)
Definition handleFileChange_begin (file : option File) (w : World)
  : World * DescribeTask :=
  match file with
  | None => (w, DDone)
  | Some f =>
      if negb (startsWith "image/" (fileType f)) then
        (handleError MSG_NOT_IMAGE w, DDone)
      else (showPicture f w, DAwaitEncode f)
  end.

(** After [base64Encode] settles (lines 293-300, or the outer [catch],
    lines 343-354). *)
Definition handleFileChange_encoded (f : File) (w : World) : World * DescribeTask :=
  match base64Encode f with
  | inl b64 =>
      let imagePart := {| imageData := b64; imageMime := fileType f |} in
      describeLoop imagePart 0 (w |> withState (setToyImagePart (Some imagePart)))
  | inr _ =>
      let w := w |> emit (ConsoleError "") |> handleError MSG_READ_FAILED in
      let w := match toyImageObjectUrlRef w with
               | Some u => w |> emit (RevokeObjectURL u) |> setUrlRef None
               | None => w
               end in
      w |> withState (setToyImage None) |> describeFinish
  end.

(** After [generateContent] settles (lines 312-338). *)
Definition handleFileChange_settle (imagePart : ImagePart) (attempt : Z)
  (o : Outcome) (w : World) : World * DescribeTask :=
  match o with
  | Resolved (Some response) =>
      let parsedText := match responseText response with
                        | Some t => t
                        | None => ""
                        end in
      let w := if nonEmpty parsedText
               then w |> withState (setToyDescription parsedText)
               else w |> withState (setToyDescription PLACEHOLDER_DESCRIPTION) in
      w |> emit (PlaySound success) |> setAbortRef None |> describeFinish
  | Resolved None => describeCatch imagePart attempt typeErrorText w
  | Rejected err => describeCatch imagePart attempt err w
  end.

(** After the sleep: the inner [finally], then the loop head. *)
Definition handleFileChange_wake (imagePart : ImagePart) (attempt : Z) (w : World)
  : World * DescribeTask :=
  describeLoop imagePart attempt (w |> setAbortRef None).

(** One attempt of the description loop: the call settles with [o]; when
    the handler then sleeps, the backoff passes and the next call is made. *)
Definition describeStep (o : Outcome) (t : DescribeTask) (w : World)
  : World * DescribeTask :=
  match t with
  | DAwaitCall ip a =>
      match handleFileChange_settle ip a o w with
      | (w1, DAwaitSleep ip' a' ms) => handleFileChange_wake ip' a' (advance ms w1)
      | r => r
      end
  | DAwaitEncode _ | DAwaitSleep _ _ _ | DDone => (w, t)
  end.

(** The loop against a service whose successive calls end as [outcomes]
    say, each after its latency. *)
Fixpoint runDescribe (outcomes : list (Z * Outcome)) (t : DescribeTask) (w : World)
  : World * DescribeTask :=
  match outcomes with
  | [] => (w, t)
  | (latency, o) :: rest =>
      match t with
      | DAwaitCall _ _ =>
          let (w1, t1) := describeStep o t (advance latency w) in
          runDescribe rest t1 w1
      | _ => (w, t)
      end
  end.

(** The whole handler, uninterrupted. *)
Definition handleFileChange (file : option File) (outcomes : list (Z * Outcome))
  (w : World) : World * DescribeTask :=
  match handleFileChange_begin file w with
  | (w1, DAwaitEncode f) =>
      let (w2, t2) := handleFileChange_encoded f w1 in
      runDescribe outcomes t2 w2
  | r => r
  end.

(** *** Sending a command: [canSendNow], [sendCommand] (lines 370-458) *)

(** A handler is a closure of the render that created it: the constants
    [userCommand], [toyImagePart] and [lastSendAt] it reads are those of
    that render, its [view]; the setters and the refs act on the component
    as it is now.  A handler bound by the markup is re-created by every
    render, and its view is the current state. *)

(** [canSendNow] (lines 370-375); [Date.now()] is the clock. *)
Definition canSendNow (view : State) (w : World) : bool * World :=
  let now := clock w in
  if now - lastSendAt view <? DEBOUNCE_MS then (false, w)
  else (true, w |> withState (setLastSendAt now)).

Definition dquote : string := String (ascii_of_nat 34) EmptyString.
Definition newline : string := String (ascii_of_nat 10) EmptyString.

(** The template of lines 390-394. *)
Definition combinedPrompt (cmd : string) : string :=
  "You are an AI Toy Companion. The user's command is: " ++ dquote ++ cmd ++ dquote ++ "."
  ++ newline
  ++ "Based on the user's command and the provided image of the toy, do two things:"
  ++ newline
  ++ "1) Generate a short, playful, child-like text reply from the toy's perspective."
  ++ newline
  ++ "2) If appropriate and safe, generate a new cartoon-style image of the toy performing the action described."
  ++ newline
  ++ "If the command is unsafe or impossible for a toy, politely decline in text and do not generate an image.".

(** Where [sendCommand] is suspended. *)
Inductive SendTask :=
| SAwaitCall (img : ImagePart) (prompt : string) (attempt : Z)
| SAwaitSleep (img : ImagePart) (prompt : string) (attempt : Z) (backoff : Z)
| SDone.

(** After the loop (line 457). *)
Definition sendFinish (w : World) : World * SendTask :=
  (w |> withState (setIsLoadingResponse false), SDone).

(** Head of the [while] loop and the body up to the [await]
    (lines 400-411). *)
Definition sendLoop (img : ImagePart) (prompt : string) (attempt : Z) (w : World)
  : World * SendTask :=
  if attempt <=? SAFE_RETRY_COUNT then
    (issueCall "gemini-2.5-flash-image-preview" img prompt w,
     SAwaitCall img prompt attempt)
  else sendFinish w.

(** [response.candidates?.[0]?.content?.parts || []] (line 421). *)
Definition partsOf (response : GenerateContentResponse) : list Part :=
  match candidates response with
  | Some (c :: _) =>
      match content c with
      | Some ct => match parts ct with Some ps => ps | None => [] end
      | None => []
      end
  | _ => []
  end.

(** The [for] loop of lines 422-427: the data of the first part whose
    [inlineData?.data] is truthy, [''] when there is none. *)
Fixpoint findImageData (ps : list Part) : string :=
  match ps with
  | [] => ""
  | part :: rest =>
      match inlineData part with
      | Some blob =>
          match data blob with
          | Some d => if nonEmpty d then d else findImageData rest
          | None => findImageData rest
          end
      | None => findImageData rest
      end
  end.

(** Lines 416-428: [(foundText, foundImageData)]. *)
Definition parseResponse (response : option GenerateContentResponse)
  : string * string :=
  match response with
  | Some r =>
      (match responseText r with Some t => trim t | None => "" end,
       findImageData (partsOf r))
  | None => ("", "")
  end.

(** Lines 430-435. *)
Definition storeResult (found : string * string) (w : World) : World :=
  let (foundText, foundImageData) := found in
  let w := if nonEmpty foundText
           then w |> withState (setToyReply foundText) else w in
  let w := if nonEmpty foundImageData
           then w |> withState
                  (setActionImage (Some ("data:image/png;base64," ++ foundImageData)))
           else w in
  if negb (nonEmpty foundText) && negb (nonEmpty foundImageData)
  then w |> handleError MSG_NO_REPLY
  else w.

(** The [catch] of lines 438-451. *)
Definition sendCatch (img : ImagePart) (prompt : string) (attempt : Z)
  (err : JsValue) (w : World) : World * SendTask :=
  if isQuotaError err then
    w |> handleError MSG_DAILY_LIMIT |> setAbortRef None |> sendFinish
  else
    let attempt := attempt + 1 in
    if attempt >? SAFE_RETRY_COUNT then
      w |> emit (ConsoleError "Final error from sendCommand:")
        |> handleError MSG_SEND_FAILED |> setAbortRef None |> sendFinish
    else
      let backoff := RETRY_BASE_DELAY_MS * 2 ^ attempt in
      (w |> emit (Sleep backoff), SAwaitSleep img prompt attempt backoff).

(** [commandText ?? userCommand ?? ''] (line 378); [userCommand] is always
    a string. *)
Definition commandArg (view : State) (commandText : option string) : string :=
  match commandText with
  | Some c => c
  | None => userCommand view
  end.

(** From the call of [sendCommand] to its first [await] (lines 377-411). *)
Definition sendCommand_begin (view : State) (commandText : option string)
  (w : World) : World * SendTask :=
  let cmd := trim (commandArg view commandText) in
  if negb (nonEmpty cmd) then (w, SDone)
  else
    match toyImagePart view with
    | None => (w, SDone)
    | Some img =>
        match canSendNow view w with
        | (false, w) => (w, SDone)
        | (true, w) =>
            let w := w |> emit InitializeAudio |> emit (PlaySound click)
                       |> withState (setIsLoadingResponse true)
                       |> withState (setToyReply "")
                       |> withState (setActionImage None)
                       |> withState (setError "") in
            sendLoop img (combinedPrompt cmd) 0 w
        end
    end.

(** After [generateContent] settles (lines 413-451). *)
Definition sendCommand_settle (img : ImagePart) (prompt : string) (attempt : Z)
  (o : Outcome) (w : World) : World * SendTask :=
  match o with
  | Resolved response =>
      w |> storeResult (parseResponse response) |> setAbortRef None |> sendFinish
  | Rejected err => sendCatch img prompt attempt err w
  end.

(** After the sleep: the [finally] of line 453, then the loop head. *)
Definition sendCommand_wake (img : ImagePart) (prompt : string) (attempt : Z)
  (w : World) : World * SendTask :=
  sendLoop img prompt attempt (w |> setAbortRef None).

(** One attempt of the command loop, as [describeStep]. *)
Definition sendStep (o : Outcome) (t : SendTask) (w : World) : World * SendTask :=
  match t with
  | SAwaitCall img p a =>
      match sendCommand_settle img p a o w with
      | (w1, SAwaitSleep img' p' a' ms) => sendCommand_wake img' p' a' (advance ms w1)
      | r => r
      end
  | SAwaitSleep _ _ _ _ | SDone => (w, t)
  end.

Fixpoint runSend (outcomes : list (Z * Outcome)) (t : SendTask) (w : World)
  : World * SendTask :=
  match outcomes with
  | [] => (w, t)
  | (latency, o) :: rest =>
      match t with
      | SAwaitCall _ _ _ =>
          let (w1, t1) := sendStep o t (advance latency w) in
          runSend rest t1 w1
      | _ => (w, t)
      end
  end.

(** The whole of [sendCommand], uninterrupted. *)
Definition sendCommand (view : State) (commandText : option string)
  (outcomes : list (Z * Outcome)) (w : World) : World * SendTask :=
  let (w1, t1) := sendCommand_begin view commandText w in
  runSend outcomes t1 w1.

(** The callers of [sendCommand]: a preset button (lines 611-616), the
    form (lines 623-628), both bound by the markup of the current render,
    and the [onresult] callback of the recogniser (lines 491-499), which
    [handleMicClick] creates and which therefore keeps the view of the
    render in which the microphone was clicked. *)
Definition presetClick (cmd : string) (w : World) : World * SendTask :=
  let view := st w in
  sendCommand_begin view (Some cmd)
    (w |> emit InitializeAudio |> emit (PlaySound click)
       |> withState (setUserCommand cmd)).

Definition formSubmit (w : World) : World * SendTask :=
  let view := st w in
  sendCommand_begin view (Some (userCommand view))
    (w |> emit InitializeAudio |> emit (PlaySound click)).

Definition onresult (micView : State) (transcript : string) (w : World)
  : World * SendTask :=
  sendCommand_begin micView (Some transcript)
    (w |> withState (setUserCommand transcript)).

(** [handleMicClick] (lines 461-507) in a browser that has speech
    recognition: a click while listening stops the recogniser; otherwise a
    new recogniser is started, and the second component is the view that
    its callbacks are closed over.  ([isListening] is set by the [onstart]
    and [onend] events of the recogniser, which are not modelled.) *)
Definition handleMicClick (w : World) : World * option State :=
  let view := st w in
  let w := w |> emit InitializeAudio in
  if isListening view then
    (w |> emit (PlaySound micOff) |> withState (setIsListening false), None)
  else
    (w |> emit (PlaySound micOn), Some view).

(** The effects that are calls of the generation service. *)
Definition isCall (e : Effect) : bool :=
  match e with GenerateContent _ _ _ _ => true | _ => false end.

Definition calls (w : World) : list Effect := filter isCall (log w).

Definition sleepOf (e : Effect) : list Z :=
  match e with Sleep ms => [ms] | _ => [] end.

(** The delays slept so far, oldest first. *)
Definition sleeps (w : World) : list Z := flat_map sleepOf (log w).

(** Calls and sleeps in the order in which they happened. *)
Inductive Ev := EvCall | EvSleep (ms : Z).

Definition evOf (e : Effect) : list Ev :=
  match e with
  | GenerateContent _ _ _ _ => [EvCall]
  | Sleep ms => [EvSleep ms]
  | _ => []
  end.

Definition attempts (w : World) : list Ev := flat_map evOf (log w).

(** A world in which a picture has been described and nothing is going on. *)
Definition samplePart : ImagePart := {| imageData := "AAAA"; imageMime := "image/png" |}.

Definition readyWorld (now : Z) : World :=
  initialWorld now
  |> withState (setToyImage (Some 0%nat))
  |> withState (setToyImagePart (Some samplePart))
  |> withState (setToyDescription "A fluffy bear")
  |> setUrlRef (Some 0%nat).

Definition failing (n : nat) (msg : string) : list (Z * Outcome) :=
  repeat (100, Rejected (mkError msg)) n.


(** ** The earlier application file ([src/index.tsx]) *)

Module Legacy.

Definition ERROR_DISPLAY_MS : Z := 5000.

Definition MSG_DAILY_LIMIT_DESCRIBE : string :=
  "You've reached the daily limit for requests. Please try again tomorrow!".
Definition MSG_DAILY_LIMIT_REPLY : string :=
  "You've reached the daily limit for generating replies. Please try again tomorrow!".
Definition MSG_DESCRIBE_FAILED : string := "Could not describe the toy. Please try again.".
Definition MSG_NOT_SURE : string := "I'm not sure what to do! Please try another command.".
Definition MSG_SEND_FAILED : string := "Something went wrong. Please try another command.".

(** [handleError] (lines 237-241). *)
Definition handleError (message : string) (w : World) : World :=
  let w := w |> emit (PlaySound errorSound) |> withState (setError message) in
  w |> setTimers (timers w ++ [clock w + ERROR_DISPLAY_MS]).

(** [startOver] (lines 243-261): no object URL to revoke, no request to
    abort. *)
Definition startOver (w : World) : World :=
  w |> emit InitializeAudio |> emit (PlaySound click) |> emit StopBackgroundMusic
    |> withState (setToyImage None)
    |> withState (setToyImagePart None)
    |> withState (setToyModel None)
    |> withState (setToyDescription "")
    |> withState (setUserCommand "")
    |> withState (setToyReply "")
    |> withState (setActionImage None)
    |> withState (setError "").

(** [err.toString().toLowerCase().includes('quota')] (lines 293, 374);
    [null] and [undefined] have no [toString], and the [catch] block that
    asks for it ends there with a [TypeError]. *)
Definition mentionsQuota (err : JsValue) : option bool :=
  match err with
  | JNull | JUndefined => None
  | _ => Some (includes "quota" (toLowerCase (toStr err)))
  end.

Inductive DescribeTask :=
| DAwaitEncode (file : File)
| DAwaitCall
| DDone.

(** The [catch] and [finally] of [handleFileChange] (lines 291-301). *)
Definition describeCatch (err : JsValue) (w : World) : World * DescribeTask :=
  let w := w |> emit (ConsoleError "") in
  let w := match mentionsQuota err with
           | Some true =>
               w |> handleError MSG_DAILY_LIMIT_DESCRIBE |> withState (setToyImage None)
           | Some false =>
               w |> handleError MSG_DESCRIBE_FAILED |> withState (setToyImage None)
           | None => w
           end in
  (w |> withState (setIsLoadingDescription false), DDone).

(** [handleFileChange] (lines 263-302), cut at its two [await]s. *)
Definition handleFileChange_begin (file : option File) (w : World)
  : World * DescribeTask :=
  match file with
  | None => (w, DDone)
  | Some f =>
      if negb (startsWith "image/" (fileType f)) then
        (handleError MSG_NOT_IMAGE w, DDone)
      else
        let (objUrl, w) := newHandle (startOver w) in
        (w |> emit (CreateObjectURL objUrl)
           |> withState (setToyImage (Some objUrl))
           |> withState (setIsLoadingDescription true)
           |> emit (ReadAsDataURL f),
         DAwaitEncode f)
  end.

(** [base64Encode] (lines 15-28) has no [|| ''] after [split(',')[1]]; a
    data URL always has a comma. *)
Definition handleFileChange_encoded (f : File) (w : World) : World * DescribeTask :=
  match fileDataURL f with
  | Some result =>
      let imagePart := {| imageData := nth 1 (split "," result) "";
                          imageMime := fileType f |} in
      (w |> withState (setToyImagePart (Some imagePart))
         |> emit (GenerateContent "gemini-2.5-flash" imagePart DESCRIBE_PROMPT None),
       DAwaitCall)
  | None => describeCatch (JObject JUndefined "[object ProgressEvent]") w
  end.

Definition handleFileChange_settle (o : Outcome) (w : World) : World * DescribeTask :=
  match o with
  | Resolved (Some response) =>
      (w |> withState (setToyDescription
                         (match responseText response with Some t => t | None => "" end))
         |> emit (PlaySound success) |> emit PlayBackgroundMusic
         |> withState (setIsLoadingDescription false),
       DDone)
  | Resolved None => describeCatch typeErrorText w
  | Rejected err => describeCatch err w
  end.

(** The loop of lines 349-356: the last part with a truthy [text] and the
    last part without one that has an [inlineData]. *)
Fixpoint scanParts (ps : list Part) (foundText foundImage : string)
  : string * string :=
  match ps with
  | [] => (foundText, foundImage)
  | part :: rest =>
      let text := match partText part with Some t => t | None => "" end in
      if nonEmpty text then scanParts rest text foundImage
      else
        match inlineData part with
        | Some blob =>
            let base64ImageBytes :=
              match data blob with Some d => d | None => "undefined" end in
            scanParts rest foundText ("data:image/png;base64," ++ base64ImageBytes)
        | None => scanParts rest foundText foundImage
        end
  end.

(** [response.candidates[0].content.parts], which throws a [TypeError]
    when a link of the chain is missing. *)
Definition partsOf (response : GenerateContentResponse) : option (list Part) :=
  match candidates response with
  | Some (c :: _) =>
      match content c with
      | Some ct => parts ct
      | None => None
      end
  | _ => None
  end.

(** The [catch] and [finally] of [sendCommand] (lines 372-381). *)
Definition sendCatch (err : JsValue) (w : World) : World :=
  let w := w |> emit (ConsoleError "") in
  let w := match mentionsQuota err with
           | Some true => w |> handleError MSG_DAILY_LIMIT_REPLY
           | Some false => w |> handleError MSG_SEND_FAILED
           | None => w
           end in
  w |> withState (setIsLoadingResponse false).

(** The template of lines 324-330. *)
Definition combinedPrompt (commandText : string) : string :=
  "You are an AI Toy Companion. The user's command is: " ++ dquote ++ commandText
  ++ dquote ++ "." ++ newline
  ++ "        Based on the user's command and the provided image of the toy, do two things:"
  ++ newline
  ++ "        1.  Generate a short, playful, child-like text reply from the toy's perspective."
  ++ newline
  ++ "        2.  Generate a new cartoon-style image of the toy performing the action described in the command."
  ++ newline ++ newline
  ++ "        If the command is too complex, unsafe, or nonsensical for a toy, politely decline in your text reply and do not generate a new image. For example, if the user says "
  ++ dquote ++ "drive a car" ++ dquote ++ ", you could reply " ++ dquote
  ++ "Vroom vroom! I'm too little to drive a real car, but I can pretend!" ++ dquote
  ++ ". In this case, only a text response is needed."
  ++ newline
  ++ "        For a simple command like " ++ dquote ++ "dance" ++ dquote
  ++ ", your text reply could be " ++ dquote ++ "Whee! I love to dance!" ++ dquote
  ++ " and you should generate an image of the toy dancing.".

(** [sendCommand] (lines 315-382) up to its [await]: the guard neither
    trims the text nor looks at the clock.  [true] when a call is made. *)
Definition sendCommand_begin (view : State) (commandText : option string)
  (w : World) : World * bool :=
  match commandText, toyImagePart view with
  | Some c, Some img =>
      if nonEmpty c then
        (w |> withState (setIsLoadingResponse true)
           |> withState (setToyReply "")
           |> withState (setActionImage None)
           |> withState (setError "")
           |> emit (GenerateContent "gemini-2.5-flash-image-preview" img
                     (combinedPrompt c) None),
         true)
      else (w, false)
  | _, _ => (w, false)
  end.

(** After the call settles (lines 345-381). *)
Definition sendCommand_settle (o : Outcome) (w : World) : World :=
  match o with
  | Resolved (Some response) =>
      match partsOf response with
      | Some ps =>
          let (foundText, foundImage) := scanParts ps "" "" in
          let w := if nonEmpty foundText
                   then w |> withState (setToyReply foundText) |> emit (PlaySound reply)
                   else w in
          let w := if nonEmpty foundImage
                   then w |> withState (setActionImage (Some foundImage))
                          |> emit (PlaySound image)
                   else w in
          let w := if negb (nonEmpty foundText) && negb (nonEmpty foundImage)
                   then w |> handleError MSG_NOT_SURE else w in
          w |> withState (setIsLoadingResponse false)
      | None => sendCatch typeErrorText w
      end
  | Resolved None => sendCatch typeErrorText w
  | Rejected err => sendCatch err w
  end.

End Legacy.

(** ** The session state of the spec, read off the component *)

(** The spec's [SessionState] is derived from the loading flags and from
    the presence of the picture (the markup shows the upload screen exactly
    when [toyImage] is empty). *)
Inductive SessionState := Idle | DescribingImage | Ready | AwaitingReply.

Definition sessionState (s : State) : SessionState :=
  if isLoadingDescription s then DescribingImage
  else if isLoadingResponse s then AwaitingReply
  else match toyImage s with
       | None => Idle
       | Some _ => Ready
       end.

(** A part carries an inline payload when its [inlineData.data] is a
    non-empty string. *)
Definition payload (part : Part) : option string :=
  match inlineData part with
  | Some blob =>
      match data blob with
      | Some d => if nonEmpty d then Some d else None
      | None => None
      end
  | None => None
  end.


(** Every call of the list is rejected with an error that the classifier
    takes for transient. *)
Definition allTransient (outcomes : list (Z * Outcome)) : bool :=
  forallb (fun lo => match snd lo with
                     | Rejected e => negb (isQuotaError e)
                     | Resolved _ => false
                     end) outcomes.

(** The delays of the retries that follow attempt number [a] when [n]
    retries remain: [RETRY_BASE_DELAY_MS * 2^k] for [k = a+1, ..., a+n]. *)
Definition backoffs (a : Z) (n : nat) : list Z :=
  map (fun i => RETRY_BASE_DELAY_MS * 2 ^ (a + 1 + Z.of_nat i)) (seq 0 n).

(** Sample parts and responses. *)
Definition textPart (t : string) : Part :=
  {| partText := Some t; inlineData := None |}.

Definition imagePartOf (d : string) : Part :=
  {| partText := None;
     inlineData := Some {| data := Some d; mimeType := Some "image/png" |} |}.

Definition responseOf (t : option string) (ps : list Part) : GenerateContentResponse :=
  {| responseText := t;
     candidates := Some [ {| content := Some {| parts := Some ps |} |} ] |}.

(** A picture that can be read. *)
Definition pngFile : File :=
  {| fileName := "bear.png"; fileType := "image/png";
     fileDataURL := Some "data:image/png;base64,AAAA" |}.

(** What an aborted request is rejected with when the SDK honours the
    signal: a [DOMException] named [AbortError]. *)
Definition abortError : JsValue :=
  JObject (JString "signal is aborted without reason")
          "AbortError: signal is aborted without reason".

(** The claim that a new notice restarts the dismissal timer: a second
    notice, raised while the first is still displayed, stays for the whole
    display duration. *)
Definition TimerRestarts : Prop :=
  forall (m1 m2 : string) (t0 d1 dt : Z),
    0 <= d1 < ERROR_DISPLAY_MS -> 0 <= dt < ERROR_DISPLAY_MS ->
    error (st (advance dt (handleError m2 (advance d1 (handleError m1 (initialWorld t0))))))
    = m2.

(** ** Further handlers and helpers of [App] *)

(** [s] contains the character [c]. *)
Fixpoint mentions (c : ascii) (s : string) : bool :=
  match s with
  | EmptyString => false
  | String x r => Ascii.eqb x c || mentions c r
  end.

(** The effects that give a resource back: an object URL or a request. *)
Definition isRelease (e : Effect) : bool :=
  match e with
  | RevokeObjectURL _ | Abort _ => true
  | _ => false
  end.

Definition releases (w : World) : list Effect := filter isRelease (log w).

(** [String.prototype.endsWith]: [endsWith suffix s] is [s.endsWith(suffix)]. *)
Fixpoint endsWith (suffix s : string) : bool :=
  String.eqb s suffix
  || match s with
     | EmptyString => false
     | String _ r => endsWith suffix r
     end.

Definition MSG_NOT_GLB : string := "Please upload a .glb model file.".

(** [handleModelChange] (lines 357-366): only the name of the file is
    looked at, lowercased. *)
Definition handleModelChange (file : option File) (w : World) : World :=
  match file with
  | None => w
  | Some f =>
      if negb (endsWith ".glb" (toLowerCase (fileName f))) then
        w |> handleError MSG_NOT_GLB
      else w |> withState (setToyModel (Some f))
  end.

(** [handleModelChange] of the earlier file ([src/index.tsx],
    lines 304-312): the name is compared as it is. *)
Module LegacyUpload.

Definition handleModelChange (file : option File) (w : World) : World :=
  match file with
  | None => w
  | Some f =>
      if negb (endsWith ".glb" (fileName f)) then
        w |> Legacy.handleError MSG_NOT_GLB
      else w |> withState (setToyModel (Some f))
  end.

End LegacyUpload.

(** Every call of the list is rejected, with whatever error. *)
Definition allRejected (outcomes : list (Z * Outcome)) : bool :=
  forallb (fun lo => match snd lo with
                     | Rejected _ => true
                     | Resolved _ => false
                     end) outcomes.

(** ** The page and its events *)

(** The parts of the markup (lines 512-656) that come and go with the
    state.  The command bar stands for the preset buttons, the form and
    the microphone button, which are always together. *)
Inductive Widget :=
| Tagline
| HeaderStartOver
| PictureInput
| ModelInput
| ToyPicture (src : Handle)
| DescribingSpinner
| DescriptionText (text : string)
| PanelStartOver
| WelcomeMessage
| ThinkingSpinner
| SpeechBubble (text : string)
| DrawingSpinner
| ActionPicture (src : string)
| ThreeDViewer (modelFile : File)
| CommandBar
| ErrorPopup (message : string).

(** [cond && jsx(...)]. *)
Definition when (cond : bool) (x : Widget) : list Widget :=
  if cond then [x] else [].

(** Truthiness of a [string | null] cell. *)
Definition present (v : option string) : bool :=
  match v with
  | Some s => nonEmpty s
  | None => false
  end.

Definition chosen (v : option File) : bool :=
  match v with
  | Some _ => true
  | None => false
  end.

(** What [App] returns for a state, in document order. *)
Definition render (s : State) : list Widget :=
  (match toyImage s with
   | None => [Tagline]
   | Some _ => [HeaderStartOver]
   end
   ++ match toyImage s with
      | None => [PictureInput; ModelInput]
      | Some src =>
          [ToyPicture src]
          ++ when (isLoadingDescription s) DescribingSpinner
          ++ when (nonEmpty (toyDescription s)) (DescriptionText (toyDescription s))
          ++ [PanelStartOver]
          ++ when (negb (isLoadingResponse s) && negb (nonEmpty (toyReply s))
                   && negb (present (actionImage s))) WelcomeMessage
          ++ when (isLoadingResponse s && negb (nonEmpty (toyReply s))) ThinkingSpinner
          ++ when (nonEmpty (toyReply s)) (SpeechBubble (toyReply s))
          ++ when (isLoadingResponse s && nonEmpty (toyReply s)) DrawingSpinner
          ++ (if present (actionImage s) || chosen (toyModel s) then
                match actionImage s with
                | Some src => when (nonEmpty src) (ActionPicture src)
                | None => []
                end
                ++ match toyModel s with
                   | Some m => [ThreeDViewer m]
                   | None => []
                   end
              else [])
          ++ [CommandBar]
      end
   ++ when (nonEmpty (error s)) (ErrorPopup (error s)))%list.

(** The preset commands (line 509). *)
Definition commands : list string :=
  ["say hi"; "dance"; "jump"; "be happy"; "be angry"; "tell a story"].

(** What can happen to the page: the passing of time, the user acting on
    a widget, and the settling of something a handler awaits, which runs
    the rest of that handler with the task it was suspended in. *)
Inductive Event :=
| Elapse (dt : Z)
| ClickStartOver
| ChoosePicture (file : option File)
| ChooseModel (file : option File)
| TypeCommand (text : string)
| ClickPreset (cmd : string)
| SubmitForm
| ClickMic
| PictureRead (f : File)
| DescriptionSettles (o : Outcome) (t : DescribeTask)
| Recognised (micView : State) (transcript : string)
| CommandSettles (o : Outcome) (t : SendTask).

(** An event runs the handler that the markup binds to its widget; a
    widget that is not on the page receives nothing.  The two file inputs
    belong to the upload screen, the other controls to the companion
    screen.  Continuations are not bound to the page. *)
Definition dispatch (e : Event) (w : World) : World :=
  match e, toyImage (st w) with
  | Elapse dt, _ => advance dt w
  | ClickStartOver, Some _ => startOver w
  | ChoosePicture file, None => fst (handleFileChange_begin file w)
  | ChooseModel file, None => handleModelChange file w
  | TypeCommand text, Some _ => w |> withState (setUserCommand text)
  | ClickPreset cmd, Some _ =>
      if existsb (String.eqb cmd) commands then fst (presetClick cmd w) else w
  | SubmitForm, Some _ => fst (formSubmit w)
  | ClickMic, Some _ => fst (handleMicClick w)
  | PictureRead f, _ => fst (handleFileChange_encoded f w)
  | DescriptionSettles o t, _ => fst (describeStep o t w)
  | Recognised micView transcript, _ => fst (onresult micView transcript w)
  | CommandSettles o t, _ => fst (sendStep o t w)
  | _, _ => w
  end.

(** A history of the page. *)
Definition run (events : list Event) (w : World) : World :=
  fold_left (fun w e => dispatch e w) events w.

(** The object URLs made and given back so far, oldest first, and the one
    held by [toyImageObjectUrlRef]. *)
Definition createdOf (e : Effect) : list Handle :=
  match e with CreateObjectURL u => [u] | _ => [] end.

Definition revokedOf (e : Effect) : list Handle :=
  match e with RevokeObjectURL u => [u] | _ => [] end.

Definition created (w : World) : list Handle := flat_map createdOf (log w).
Definition revoked (w : World) : list Handle := flat_map revokedOf (log w).

Definition held (w : World) : list Handle :=
  match toyImageObjectUrlRef w with
  | Some u => [u]
  | None => []
  end.

(** The cells that a command does not own. *)
Definition besideCommand (w : World) :=
  (toyImage (st w), toyImagePart (st w), toyModel (st w), toyDescription (st w),
   userCommand (st w), isLoadingDescription (st w), isListening (st w),
   lastSendAt (st w), toyImageObjectUrlRef w, created w, revoked w).

(** The cells that a description does not own. *)
Definition besideDescription (w : World) :=
  (toyImage (st w), toyImagePart (st w), toyModel (st w), userCommand (st w),
   toyReply (st w), actionImage (st w), isLoadingResponse (st w),
   isListening (st w), lastSendAt (st w), toyImageObjectUrlRef w, created w,
   revoked w).

(** What an event that neither makes nor gives back an object URL leaves
    alone. *)
Definition urlView (w : World) :=
  (toyImage (st w), toyImageObjectUrlRef w, created w, revoked w).

(** What every history keeps true of a world. *)
Definition Steady (w : World) : Prop :=
  (toyImage (st w) = None \/ toyModel (st w) = None)
  /\ (isLoadingResponse (st w) = true -> toyReply (st w) = "")
  /\ toyImage (st w) = toyImageObjectUrlRef w
  /\ created w = (revoked w ++ held w)%list.

(** ** The voice of the toy *)

(** A [SpeechSynthesisVoice], as far as [speakText] looks at it. *)
Record Voice := { voiceName : string; voiceLang : string }.

(** The three tests of line 230.  On code units below 256 the pattern
    [/google us english/i] matches exactly the names whose lowercase form
    contains the text. *)
Definition isGoogleUsEnglish (v : Voice) : bool :=
  includes "google us english" (toLowerCase (voiceName v)).

Definition isEnglishFemale (v : Voice) : bool :=
  startsWith "en" (voiceLang v) && includes "female" (toLowerCase (voiceName v)).

Definition isEnglish (v : Voice) : bool := startsWith "en" (voiceLang v).

(** [a || b] on results of [Array.prototype.find]. *)
Definition orElse (a b : option Voice) : option Voice :=
  match a with
  | Some _ => a
  | None => b
  end.

(** The voice that [speakText] gives to the utterance (line 230);
    [None] leaves the default voice of the browser. *)
Definition preferredVoice (voices : list Voice) : option Voice :=
  orElse (find isGoogleUsEnglish voices)
         (orElse (find isEnglishFemale voices) (find isEnglish voices)).

(** * Properties *)

(** ** Strings *)

Lemma startsWith_spec (p s : string) :
  startsWith p s = true <-> exists post, s = p ++ post.
Proof.
  revert s; induction p as [|a p IH]; intros s; simpl.
  - split; [intros _; now exists s | reflexivity].
  - destruct s as [|b s].
    + split; [discriminate | intros [post H]; discriminate].
    + rewrite andb_true_iff, IH. split.
      * intros [Hab [post ->]]. apply Ascii.eqb_eq in Hab. subst b. now exists post.
      * intros [post H]. injection H as -> ->. split; [apply Ascii.eqb_refl | now exists post].
Qed.

Lemma includes_spec (sub s : string) :
  includes sub s = true <-> Contains sub s.
Proof.
  split.
  - induction s as [|c r IH]; simpl; rewrite orb_true_iff; intros [H|H].
    + apply startsWith_spec in H as [post ->]. now exists "", post.
    + discriminate.
    + apply startsWith_spec in H as [post ->]. now exists "", post.
    + destruct (IH H) as (pre & post & ->). now exists (String c pre), post.
  - intros (pre & post & ->). induction pre as [|c pre IH].
    + assert (H : startsWith sub (sub ++ post) = true)
        by (apply startsWith_spec; now exists post).
      simpl. destruct (sub ++ post); simpl; rewrite H; reflexivity.
    + simpl. rewrite IH. apply orb_true_r.
Qed.

Lemma append_assoc (a b c : string) : (a ++ b) ++ c = a ++ (b ++ c).
Proof. induction a as [|x a IH]; simpl; [reflexivity | now rewrite IH]. Qed.

Lemma rate_limit_subsumed (s : string) :
  includes "rate limit" s = true -> includes "limit" s = true.
Proof.
  rewrite !includes_spec. intros (pre & post & ->).
  exists (pre ++ "rate "), post.
  rewrite append_assoc. reflexivity.
Qed.





(** ** The classifier *)

Lemma isQuotaError_truthy (err : JsValue) :
  truthy err = true ->
  isQuotaError err = existsb (fun kw => includes kw (toLowerCase (stringified err))) keywords.
Proof.
  intros T. unfold isQuotaError, stringified. rewrite T. simpl.
  now rewrite orb_false_r, !orb_assoc.
Qed.

(** What [String(...)] makes of a falsy value holds none of the keywords. *)
Lemma falsy_no_keyword (err : JsValue) :
  truthy err = false ->
  existsb (fun kw => includes kw (toLowerCase (stringified err))) keywords = false.
Proof.
  destruct err as [| |[|]|[z| |r]|[|c s]|m r]; simpl; try discriminate;
    try reflexivity.
  intros H. apply negb_false_iff, Z.eqb_eq in H. subst z. reflexivity.
Qed.

Lemma isQuotaError_existsb (err : JsValue) :
  isQuotaError err = existsb (fun kw => includes kw (toLowerCase (stringified err))) keywords.
Proof.
  destruct (truthy err) eqn:T.
  - now apply isQuotaError_truthy.
  - rewrite (falsy_no_keyword _ T). unfold isQuotaError. now rewrite T.
Qed.

(** C1.  An error is classified Fatal exactly when its stringified
    message, lowercased, contains one of the keywords "quota", "limit",
    "exceeded", "rate limit", "429"; every other error is Transient, and so
    are [null] and [undefined]. *)
Theorem classifier_fatal_iff_keyword :
  forall err : JsValue,
    (classify err = Fatal <->
     exists kw, In kw keywords /\ Contains kw (toLowerCase (stringified err)))
    /\ (classify err = Transient <->
        forall kw, In kw keywords -> ~ Contains kw (toLowerCase (stringified err)))
    /\ (isQuotaError err = true <-> classify err = Fatal)
    /\ classify JNull = Transient /\ classify JUndefined = Transient
    /\ keywords = ["quota"; "limit"; "exceeded"; "rate limit"; "429"].
Proof.
  intros err.
  assert (E := isQuotaError_existsb err).
  assert (F : isQuotaError err = true <->
              exists kw, In kw keywords /\ Contains kw (toLowerCase (stringified err))).
  { rewrite E, existsb_exists.
    split; intros (kw & Hin & H); exists kw; (split; [exact Hin|]);
      now apply includes_spec. }
  unfold classify.
  repeat split; try reflexivity.
  - destruct (isQuotaError err); [intros _; now apply F | discriminate].
  - intros H. apply F in H. now rewrite H.
  - destruct (isQuotaError err) eqn:Q; [discriminate|].
    intros _ kw Hin C.
    assert (T : false = true) by (apply F; now exists kw).
    discriminate.
  - intros H. destruct (isQuotaError err) eqn:Q; [|reflexivity].
    destruct (proj1 F eq_refl) as (kw & Hin & C). now destruct (H kw Hin).
  - intros H; now rewrite H.
  - destruct (isQuotaError err); [reflexivity | discriminate].
Qed.

Example classify_quota_exceeded : classify (mkError "Quota exceeded") = Fatal.
Proof. reflexivity. Qed.

Example classify_rate_limit_upper : classify (JString "RATE LIMIT hit") = Fatal.
Proof. reflexivity. Qed.

Example classify_status_429 : classify (JNumber (NumInt 429)) = Fatal.
Proof. reflexivity. Qed.

Example classify_network : classify (mkError "Failed to fetch") = Transient.
Proof. reflexivity. Qed.

Example classify_message_preferred :
  classify (JObject (JString "timeout") "ApiError: limit") = Transient.
Proof. reflexivity. Qed.

(** ** How the primitives act on what is observed *)

(** A setter of the state changes the cell it names and nothing else. *)
Lemma toyImage_setToyImage v s : toyImage (setToyImage v s) = v. Proof. reflexivity. Qed.
Lemma toyImage_setToyImagePart v s : toyImage (setToyImagePart v s) = toyImage s. Proof. reflexivity. Qed.
Lemma toyImage_setToyModel v s : toyImage (setToyModel v s) = toyImage s. Proof. reflexivity. Qed.
Lemma toyImage_setToyDescription v s : toyImage (setToyDescription v s) = toyImage s. Proof. reflexivity. Qed.
Lemma toyImage_setUserCommand v s : toyImage (setUserCommand v s) = toyImage s. Proof. reflexivity. Qed.
Lemma toyImage_setToyReply v s : toyImage (setToyReply v s) = toyImage s. Proof. reflexivity. Qed.
Lemma toyImage_setActionImage v s : toyImage (setActionImage v s) = toyImage s. Proof. reflexivity. Qed.
Lemma toyImage_setIsLoadingDescription v s : toyImage (setIsLoadingDescription v s) = toyImage s. Proof. reflexivity. Qed.
Lemma toyImage_setIsLoadingResponse v s : toyImage (setIsLoadingResponse v s) = toyImage s. Proof. reflexivity. Qed.
Lemma toyImage_setIsListening v s : toyImage (setIsListening v s) = toyImage s. Proof. reflexivity. Qed.
Lemma toyImage_setError v s : toyImage (setError v s) = toyImage s. Proof. reflexivity. Qed.
Lemma toyImage_setLastSendAt v s : toyImage (setLastSendAt v s) = toyImage s. Proof. reflexivity. Qed.
Lemma toyImagePart_setToyImage v s : toyImagePart (setToyImage v s) = toyImagePart s. Proof. reflexivity. Qed.
Lemma toyImagePart_setToyImagePart v s : toyImagePart (setToyImagePart v s) = v. Proof. reflexivity. Qed.
Lemma toyImagePart_setToyModel v s : toyImagePart (setToyModel v s) = toyImagePart s. Proof. reflexivity. Qed.
Lemma toyImagePart_setToyDescription v s : toyImagePart (setToyDescription v s) = toyImagePart s. Proof. reflexivity. Qed.
Lemma toyImagePart_setUserCommand v s : toyImagePart (setUserCommand v s) = toyImagePart s. Proof. reflexivity. Qed.
Lemma toyImagePart_setToyReply v s : toyImagePart (setToyReply v s) = toyImagePart s. Proof. reflexivity. Qed.
Lemma toyImagePart_setActionImage v s : toyImagePart (setActionImage v s) = toyImagePart s. Proof. reflexivity. Qed.
Lemma toyImagePart_setIsLoadingDescription v s : toyImagePart (setIsLoadingDescription v s) = toyImagePart s. Proof. reflexivity. Qed.
Lemma toyImagePart_setIsLoadingResponse v s : toyImagePart (setIsLoadingResponse v s) = toyImagePart s. Proof. reflexivity. Qed.
Lemma toyImagePart_setIsListening v s : toyImagePart (setIsListening v s) = toyImagePart s. Proof. reflexivity. Qed.
Lemma toyImagePart_setError v s : toyImagePart (setError v s) = toyImagePart s. Proof. reflexivity. Qed.
Lemma toyImagePart_setLastSendAt v s : toyImagePart (setLastSendAt v s) = toyImagePart s. Proof. reflexivity. Qed.
Lemma toyModel_setToyImage v s : toyModel (setToyImage v s) = toyModel s. Proof. reflexivity. Qed.
Lemma toyModel_setToyImagePart v s : toyModel (setToyImagePart v s) = toyModel s. Proof. reflexivity. Qed.
Lemma toyModel_setToyModel v s : toyModel (setToyModel v s) = v. Proof. reflexivity. Qed.
Lemma toyModel_setToyDescription v s : toyModel (setToyDescription v s) = toyModel s. Proof. reflexivity. Qed.
Lemma toyModel_setUserCommand v s : toyModel (setUserCommand v s) = toyModel s. Proof. reflexivity. Qed.
Lemma toyModel_setToyReply v s : toyModel (setToyReply v s) = toyModel s. Proof. reflexivity. Qed.
Lemma toyModel_setActionImage v s : toyModel (setActionImage v s) = toyModel s. Proof. reflexivity. Qed.
Lemma toyModel_setIsLoadingDescription v s : toyModel (setIsLoadingDescription v s) = toyModel s. Proof. reflexivity. Qed.
Lemma toyModel_setIsLoadingResponse v s : toyModel (setIsLoadingResponse v s) = toyModel s. Proof. reflexivity. Qed.
Lemma toyModel_setIsListening v s : toyModel (setIsListening v s) = toyModel s. Proof. reflexivity. Qed.
Lemma toyModel_setError v s : toyModel (setError v s) = toyModel s. Proof. reflexivity. Qed.
Lemma toyModel_setLastSendAt v s : toyModel (setLastSendAt v s) = toyModel s. Proof. reflexivity. Qed.
Lemma toyDescription_setToyImage v s : toyDescription (setToyImage v s) = toyDescription s. Proof. reflexivity. Qed.
Lemma toyDescription_setToyImagePart v s : toyDescription (setToyImagePart v s) = toyDescription s. Proof. reflexivity. Qed.
Lemma toyDescription_setToyModel v s : toyDescription (setToyModel v s) = toyDescription s. Proof. reflexivity. Qed.
Lemma toyDescription_setToyDescription v s : toyDescription (setToyDescription v s) = v. Proof. reflexivity. Qed.
Lemma toyDescription_setUserCommand v s : toyDescription (setUserCommand v s) = toyDescription s. Proof. reflexivity. Qed.
Lemma toyDescription_setToyReply v s : toyDescription (setToyReply v s) = toyDescription s. Proof. reflexivity. Qed.
Lemma toyDescription_setActionImage v s : toyDescription (setActionImage v s) = toyDescription s. Proof. reflexivity. Qed.
Lemma toyDescription_setIsLoadingDescription v s : toyDescription (setIsLoadingDescription v s) = toyDescription s. Proof. reflexivity. Qed.
Lemma toyDescription_setIsLoadingResponse v s : toyDescription (setIsLoadingResponse v s) = toyDescription s. Proof. reflexivity. Qed.
Lemma toyDescription_setIsListening v s : toyDescription (setIsListening v s) = toyDescription s. Proof. reflexivity. Qed.
Lemma toyDescription_setError v s : toyDescription (setError v s) = toyDescription s. Proof. reflexivity. Qed.
Lemma toyDescription_setLastSendAt v s : toyDescription (setLastSendAt v s) = toyDescription s. Proof. reflexivity. Qed.
Lemma userCommand_setToyImage v s : userCommand (setToyImage v s) = userCommand s. Proof. reflexivity. Qed.
Lemma userCommand_setToyImagePart v s : userCommand (setToyImagePart v s) = userCommand s. Proof. reflexivity. Qed.
Lemma userCommand_setToyModel v s : userCommand (setToyModel v s) = userCommand s. Proof. reflexivity. Qed.
Lemma userCommand_setToyDescription v s : userCommand (setToyDescription v s) = userCommand s. Proof. reflexivity. Qed.
Lemma userCommand_setUserCommand v s : userCommand (setUserCommand v s) = v. Proof. reflexivity. Qed.
Lemma userCommand_setToyReply v s : userCommand (setToyReply v s) = userCommand s. Proof. reflexivity. Qed.
Lemma userCommand_setActionImage v s : userCommand (setActionImage v s) = userCommand s. Proof. reflexivity. Qed.
Lemma userCommand_setIsLoadingDescription v s : userCommand (setIsLoadingDescription v s) = userCommand s. Proof. reflexivity. Qed.
Lemma userCommand_setIsLoadingResponse v s : userCommand (setIsLoadingResponse v s) = userCommand s. Proof. reflexivity. Qed.
Lemma userCommand_setIsListening v s : userCommand (setIsListening v s) = userCommand s. Proof. reflexivity. Qed.
Lemma userCommand_setError v s : userCommand (setError v s) = userCommand s. Proof. reflexivity. Qed.
Lemma userCommand_setLastSendAt v s : userCommand (setLastSendAt v s) = userCommand s. Proof. reflexivity. Qed.
Lemma toyReply_setToyImage v s : toyReply (setToyImage v s) = toyReply s. Proof. reflexivity. Qed.
Lemma toyReply_setToyImagePart v s : toyReply (setToyImagePart v s) = toyReply s. Proof. reflexivity. Qed.
Lemma toyReply_setToyModel v s : toyReply (setToyModel v s) = toyReply s. Proof. reflexivity. Qed.
Lemma toyReply_setToyDescription v s : toyReply (setToyDescription v s) = toyReply s. Proof. reflexivity. Qed.
Lemma toyReply_setUserCommand v s : toyReply (setUserCommand v s) = toyReply s. Proof. reflexivity. Qed.
Lemma toyReply_setToyReply v s : toyReply (setToyReply v s) = v. Proof. reflexivity. Qed.
Lemma toyReply_setActionImage v s : toyReply (setActionImage v s) = toyReply s. Proof. reflexivity. Qed.
Lemma toyReply_setIsLoadingDescription v s : toyReply (setIsLoadingDescription v s) = toyReply s. Proof. reflexivity. Qed.
Lemma toyReply_setIsLoadingResponse v s : toyReply (setIsLoadingResponse v s) = toyReply s. Proof. reflexivity. Qed.
Lemma toyReply_setIsListening v s : toyReply (setIsListening v s) = toyReply s. Proof. reflexivity. Qed.
Lemma toyReply_setError v s : toyReply (setError v s) = toyReply s. Proof. reflexivity. Qed.
Lemma toyReply_setLastSendAt v s : toyReply (setLastSendAt v s) = toyReply s. Proof. reflexivity. Qed.
Lemma actionImage_setToyImage v s : actionImage (setToyImage v s) = actionImage s. Proof. reflexivity. Qed.
Lemma actionImage_setToyImagePart v s : actionImage (setToyImagePart v s) = actionImage s. Proof. reflexivity. Qed.
Lemma actionImage_setToyModel v s : actionImage (setToyModel v s) = actionImage s. Proof. reflexivity. Qed.
Lemma actionImage_setToyDescription v s : actionImage (setToyDescription v s) = actionImage s. Proof. reflexivity. Qed.
Lemma actionImage_setUserCommand v s : actionImage (setUserCommand v s) = actionImage s. Proof. reflexivity. Qed.
Lemma actionImage_setToyReply v s : actionImage (setToyReply v s) = actionImage s. Proof. reflexivity. Qed.
Lemma actionImage_setActionImage v s : actionImage (setActionImage v s) = v. Proof. reflexivity. Qed.
Lemma actionImage_setIsLoadingDescription v s : actionImage (setIsLoadingDescription v s) = actionImage s. Proof. reflexivity. Qed.
Lemma actionImage_setIsLoadingResponse v s : actionImage (setIsLoadingResponse v s) = actionImage s. Proof. reflexivity. Qed.
Lemma actionImage_setIsListening v s : actionImage (setIsListening v s) = actionImage s. Proof. reflexivity. Qed.
Lemma actionImage_setError v s : actionImage (setError v s) = actionImage s. Proof. reflexivity. Qed.
Lemma actionImage_setLastSendAt v s : actionImage (setLastSendAt v s) = actionImage s. Proof. reflexivity. Qed.
Lemma isLoadingDescription_setToyImage v s : isLoadingDescription (setToyImage v s) = isLoadingDescription s. Proof. reflexivity. Qed.
Lemma isLoadingDescription_setToyImagePart v s : isLoadingDescription (setToyImagePart v s) = isLoadingDescription s. Proof. reflexivity. Qed.
Lemma isLoadingDescription_setToyModel v s : isLoadingDescription (setToyModel v s) = isLoadingDescription s. Proof. reflexivity. Qed.
Lemma isLoadingDescription_setToyDescription v s : isLoadingDescription (setToyDescription v s) = isLoadingDescription s. Proof. reflexivity. Qed.
Lemma isLoadingDescription_setUserCommand v s : isLoadingDescription (setUserCommand v s) = isLoadingDescription s. Proof. reflexivity. Qed.
Lemma isLoadingDescription_setToyReply v s : isLoadingDescription (setToyReply v s) = isLoadingDescription s. Proof. reflexivity. Qed.
Lemma isLoadingDescription_setActionImage v s : isLoadingDescription (setActionImage v s) = isLoadingDescription s. Proof. reflexivity. Qed.
Lemma isLoadingDescription_setIsLoadingDescription v s : isLoadingDescription (setIsLoadingDescription v s) = v. Proof. reflexivity. Qed.
Lemma isLoadingDescription_setIsLoadingResponse v s : isLoadingDescription (setIsLoadingResponse v s) = isLoadingDescription s. Proof. reflexivity. Qed.
Lemma isLoadingDescription_setIsListening v s : isLoadingDescription (setIsListening v s) = isLoadingDescription s. Proof. reflexivity. Qed.
Lemma isLoadingDescription_setError v s : isLoadingDescription (setError v s) = isLoadingDescription s. Proof. reflexivity. Qed.
Lemma isLoadingDescription_setLastSendAt v s : isLoadingDescription (setLastSendAt v s) = isLoadingDescription s. Proof. reflexivity. Qed.
Lemma isLoadingResponse_setToyImage v s : isLoadingResponse (setToyImage v s) = isLoadingResponse s. Proof. reflexivity. Qed.
Lemma isLoadingResponse_setToyImagePart v s : isLoadingResponse (setToyImagePart v s) = isLoadingResponse s. Proof. reflexivity. Qed.
Lemma isLoadingResponse_setToyModel v s : isLoadingResponse (setToyModel v s) = isLoadingResponse s. Proof. reflexivity. Qed.
Lemma isLoadingResponse_setToyDescription v s : isLoadingResponse (setToyDescription v s) = isLoadingResponse s. Proof. reflexivity. Qed.
Lemma isLoadingResponse_setUserCommand v s : isLoadingResponse (setUserCommand v s) = isLoadingResponse s. Proof. reflexivity. Qed.
Lemma isLoadingResponse_setToyReply v s : isLoadingResponse (setToyReply v s) = isLoadingResponse s. Proof. reflexivity. Qed.
Lemma isLoadingResponse_setActionImage v s : isLoadingResponse (setActionImage v s) = isLoadingResponse s. Proof. reflexivity. Qed.
Lemma isLoadingResponse_setIsLoadingDescription v s : isLoadingResponse (setIsLoadingDescription v s) = isLoadingResponse s. Proof. reflexivity. Qed.
Lemma isLoadingResponse_setIsLoadingResponse v s : isLoadingResponse (setIsLoadingResponse v s) = v. Proof. reflexivity. Qed.
Lemma isLoadingResponse_setIsListening v s : isLoadingResponse (setIsListening v s) = isLoadingResponse s. Proof. reflexivity. Qed.
Lemma isLoadingResponse_setError v s : isLoadingResponse (setError v s) = isLoadingResponse s. Proof. reflexivity. Qed.
Lemma isLoadingResponse_setLastSendAt v s : isLoadingResponse (setLastSendAt v s) = isLoadingResponse s. Proof. reflexivity. Qed.
Lemma isListening_setToyImage v s : isListening (setToyImage v s) = isListening s. Proof. reflexivity. Qed.
Lemma isListening_setToyImagePart v s : isListening (setToyImagePart v s) = isListening s. Proof. reflexivity. Qed.
Lemma isListening_setToyModel v s : isListening (setToyModel v s) = isListening s. Proof. reflexivity. Qed.
Lemma isListening_setToyDescription v s : isListening (setToyDescription v s) = isListening s. Proof. reflexivity. Qed.
Lemma isListening_setUserCommand v s : isListening (setUserCommand v s) = isListening s. Proof. reflexivity. Qed.
Lemma isListening_setToyReply v s : isListening (setToyReply v s) = isListening s. Proof. reflexivity. Qed.
Lemma isListening_setActionImage v s : isListening (setActionImage v s) = isListening s. Proof. reflexivity. Qed.
Lemma isListening_setIsLoadingDescription v s : isListening (setIsLoadingDescription v s) = isListening s. Proof. reflexivity. Qed.
Lemma isListening_setIsLoadingResponse v s : isListening (setIsLoadingResponse v s) = isListening s. Proof. reflexivity. Qed.
Lemma isListening_setIsListening v s : isListening (setIsListening v s) = v. Proof. reflexivity. Qed.
Lemma isListening_setError v s : isListening (setError v s) = isListening s. Proof. reflexivity. Qed.
Lemma isListening_setLastSendAt v s : isListening (setLastSendAt v s) = isListening s. Proof. reflexivity. Qed.
Lemma error_setToyImage v s : error (setToyImage v s) = error s. Proof. reflexivity. Qed.
Lemma error_setToyImagePart v s : error (setToyImagePart v s) = error s. Proof. reflexivity. Qed.
Lemma error_setToyModel v s : error (setToyModel v s) = error s. Proof. reflexivity. Qed.
Lemma error_setToyDescription v s : error (setToyDescription v s) = error s. Proof. reflexivity. Qed.
Lemma error_setUserCommand v s : error (setUserCommand v s) = error s. Proof. reflexivity. Qed.
Lemma error_setToyReply v s : error (setToyReply v s) = error s. Proof. reflexivity. Qed.
Lemma error_setActionImage v s : error (setActionImage v s) = error s. Proof. reflexivity. Qed.
Lemma error_setIsLoadingDescription v s : error (setIsLoadingDescription v s) = error s. Proof. reflexivity. Qed.
Lemma error_setIsLoadingResponse v s : error (setIsLoadingResponse v s) = error s. Proof. reflexivity. Qed.
Lemma error_setIsListening v s : error (setIsListening v s) = error s. Proof. reflexivity. Qed.
Lemma error_setError v s : error (setError v s) = v. Proof. reflexivity. Qed.
Lemma error_setLastSendAt v s : error (setLastSendAt v s) = error s. Proof. reflexivity. Qed.
Lemma lastSendAt_setToyImage v s : lastSendAt (setToyImage v s) = lastSendAt s. Proof. reflexivity. Qed.
Lemma lastSendAt_setToyImagePart v s : lastSendAt (setToyImagePart v s) = lastSendAt s. Proof. reflexivity. Qed.
Lemma lastSendAt_setToyModel v s : lastSendAt (setToyModel v s) = lastSendAt s. Proof. reflexivity. Qed.
Lemma lastSendAt_setToyDescription v s : lastSendAt (setToyDescription v s) = lastSendAt s. Proof. reflexivity. Qed.
Lemma lastSendAt_setUserCommand v s : lastSendAt (setUserCommand v s) = lastSendAt s. Proof. reflexivity. Qed.
Lemma lastSendAt_setToyReply v s : lastSendAt (setToyReply v s) = lastSendAt s. Proof. reflexivity. Qed.
Lemma lastSendAt_setActionImage v s : lastSendAt (setActionImage v s) = lastSendAt s. Proof. reflexivity. Qed.
Lemma lastSendAt_setIsLoadingDescription v s : lastSendAt (setIsLoadingDescription v s) = lastSendAt s. Proof. reflexivity. Qed.
Lemma lastSendAt_setIsLoadingResponse v s : lastSendAt (setIsLoadingResponse v s) = lastSendAt s. Proof. reflexivity. Qed.
Lemma lastSendAt_setIsListening v s : lastSendAt (setIsListening v s) = lastSendAt s. Proof. reflexivity. Qed.
Lemma lastSendAt_setError v s : lastSendAt (setError v s) = lastSendAt s. Proof. reflexivity. Qed.
Lemma lastSendAt_setLastSendAt v s : lastSendAt (setLastSendAt v s) = v. Proof. reflexivity. Qed.

(** The setters change the component they name and nothing else. *)

Lemma st_emit e w : st (emit e w) = st w.
Proof. reflexivity. Qed.

Lemma st_withState f w : st (withState f w) = f (st w).
Proof. reflexivity. Qed.

Lemma st_setAbortRef r w : st (setAbortRef r w) = st w.
Proof. reflexivity. Qed.

Lemma st_setUrlRef r w : st (setUrlRef r w) = st w.
Proof. reflexivity. Qed.

Lemma st_setTimers ts w : st (setTimers ts w) = st w.
Proof. reflexivity. Qed.

Lemma st_setClock t w : st (setClock t w) = st w.
Proof. reflexivity. Qed.

Lemma log_emit e w : log (emit e w) = (log w ++ [e])%list.
Proof. reflexivity. Qed.

Lemma log_withState f w : log (withState f w) = log w.
Proof. reflexivity. Qed.

Lemma log_setAbortRef r w : log (setAbortRef r w) = log w.
Proof. reflexivity. Qed.

Lemma log_setUrlRef r w : log (setUrlRef r w) = log w.
Proof. reflexivity. Qed.

Lemma log_setTimers ts w : log (setTimers ts w) = log w.
Proof. reflexivity. Qed.

Lemma log_setClock t w : log (setClock t w) = log w.
Proof. reflexivity. Qed.

Lemma timers_emit e w : timers (emit e w) = timers w.
Proof. reflexivity. Qed.

Lemma timers_withState f w : timers (withState f w) = timers w.
Proof. reflexivity. Qed.

Lemma timers_setAbortRef r w : timers (setAbortRef r w) = timers w.
Proof. reflexivity. Qed.

Lemma timers_setUrlRef r w : timers (setUrlRef r w) = timers w.
Proof. reflexivity. Qed.

Lemma timers_setTimers ts w : timers (setTimers ts w) = ts.
Proof. reflexivity. Qed.

Lemma timers_setClock t w : timers (setClock t w) = timers w.
Proof. reflexivity. Qed.

Lemma clock_emit e w : clock (emit e w) = clock w.
Proof. reflexivity. Qed.

Lemma clock_withState f w : clock (withState f w) = clock w.
Proof. reflexivity. Qed.

Lemma clock_setAbortRef r w : clock (setAbortRef r w) = clock w.
Proof. reflexivity. Qed.

Lemma clock_setUrlRef r w : clock (setUrlRef r w) = clock w.
Proof. reflexivity. Qed.

Lemma clock_setTimers ts w : clock (setTimers ts w) = clock w.
Proof. reflexivity. Qed.

Lemma clock_setClock t w : clock (setClock t w) = t.
Proof. reflexivity. Qed.

Lemma fresh_emit e w : fresh (emit e w) = fresh w.
Proof. reflexivity. Qed.

Lemma fresh_withState f w : fresh (withState f w) = fresh w.
Proof. reflexivity. Qed.

Lemma fresh_setAbortRef r w : fresh (setAbortRef r w) = fresh w.
Proof. reflexivity. Qed.

Lemma fresh_setUrlRef r w : fresh (setUrlRef r w) = fresh w.
Proof. reflexivity. Qed.

Lemma fresh_setTimers ts w : fresh (setTimers ts w) = fresh w.
Proof. reflexivity. Qed.

Lemma fresh_setClock t w : fresh (setClock t w) = fresh w.
Proof. reflexivity. Qed.

Lemma abortRef_emit e w : abortControllerRef (emit e w) = abortControllerRef w.
Proof. reflexivity. Qed.

Lemma abortRef_withState f w : abortControllerRef (withState f w) = abortControllerRef w.
Proof. reflexivity. Qed.

Lemma abortRef_setAbortRef r w : abortControllerRef (setAbortRef r w) = r.
Proof. reflexivity. Qed.

Lemma abortRef_setUrlRef r w : abortControllerRef (setUrlRef r w) = abortControllerRef w.
Proof. reflexivity. Qed.

Lemma abortRef_setTimers ts w : abortControllerRef (setTimers ts w) = abortControllerRef w.
Proof. reflexivity. Qed.

Lemma abortRef_setClock t w : abortControllerRef (setClock t w) = abortControllerRef w.
Proof. reflexivity. Qed.

Lemma urlRef_emit e w : toyImageObjectUrlRef (emit e w) = toyImageObjectUrlRef w.
Proof. reflexivity. Qed.

Lemma urlRef_withState f w : toyImageObjectUrlRef (withState f w) = toyImageObjectUrlRef w.
Proof. reflexivity. Qed.

Lemma urlRef_setAbortRef r w : toyImageObjectUrlRef (setAbortRef r w) = toyImageObjectUrlRef w.
Proof. reflexivity. Qed.

Lemma urlRef_setUrlRef r w : toyImageObjectUrlRef (setUrlRef r w) = r.
Proof. reflexivity. Qed.

Lemma urlRef_setTimers ts w : toyImageObjectUrlRef (setTimers ts w) = toyImageObjectUrlRef w.
Proof. reflexivity. Qed.

Lemma urlRef_setClock t w : toyImageObjectUrlRef (setClock t w) = toyImageObjectUrlRef w.
Proof. reflexivity. Qed.

Lemma log_advance dt w : log (advance dt w) = log w.
Proof. unfold advance. now destruct (existsb _ _). Qed.

Lemma fresh_advance dt w : fresh (advance dt w) = fresh w.
Proof. unfold advance. now destruct (existsb _ _). Qed.

Lemma abortRef_advance dt w : abortControllerRef (advance dt w) = abortControllerRef w.
Proof. unfold advance. now destruct (existsb _ _). Qed.

Lemma urlRef_advance dt w : toyImageObjectUrlRef (advance dt w) = toyImageObjectUrlRef w.
Proof. unfold advance. now destruct (existsb _ _). Qed.

Lemma clock_advance dt w : clock (advance dt w) = clock w + dt.
Proof. unfold advance. now destruct (existsb _ _). Qed.

Lemma timers_advance dt w :
  timers (advance dt w) = filter (fun f => negb (f <=? clock w + dt)) (timers w).
Proof. unfold advance. now destruct (existsb _ _). Qed.

(** Time only ever empties the notice. *)
Lemma st_advance dt w :
  st (advance dt w)
  = if existsb (fun f => f <=? clock w + dt) (timers w)
    then setError "" (st w) else st w.
Proof. unfold advance. now destruct (existsb _ _). Qed.

(** Time leaves every cell but the notice alone. *)
Lemma toyImage_advance dt w : toyImage (st (advance dt w)) = toyImage (st w).
Proof. rewrite st_advance. now destruct (existsb _ _). Qed.

Lemma toyImagePart_advance dt w : toyImagePart (st (advance dt w)) = toyImagePart (st w).
Proof. rewrite st_advance. now destruct (existsb _ _). Qed.

Lemma toyModel_advance dt w : toyModel (st (advance dt w)) = toyModel (st w).
Proof. rewrite st_advance. now destruct (existsb _ _). Qed.

Lemma toyDescription_advance dt w : toyDescription (st (advance dt w)) = toyDescription (st w).
Proof. rewrite st_advance. now destruct (existsb _ _). Qed.

Lemma userCommand_advance dt w : userCommand (st (advance dt w)) = userCommand (st w).
Proof. rewrite st_advance. now destruct (existsb _ _). Qed.

Lemma toyReply_advance dt w : toyReply (st (advance dt w)) = toyReply (st w).
Proof. rewrite st_advance. now destruct (existsb _ _). Qed.

Lemma actionImage_advance dt w : actionImage (st (advance dt w)) = actionImage (st w).
Proof. rewrite st_advance. now destruct (existsb _ _). Qed.

Lemma isLoadingDescription_advance dt w : isLoadingDescription (st (advance dt w)) = isLoadingDescription (st w).
Proof. rewrite st_advance. now destruct (existsb _ _). Qed.

Lemma isLoadingResponse_advance dt w : isLoadingResponse (st (advance dt w)) = isLoadingResponse (st w).
Proof. rewrite st_advance. now destruct (existsb _ _). Qed.

Lemma isListening_advance dt w : isListening (st (advance dt w)) = isListening (st w).
Proof. rewrite st_advance. now destruct (existsb _ _). Qed.

Lemma lastSendAt_advance dt w : lastSendAt (st (advance dt w)) = lastSendAt (st w).
Proof. rewrite st_advance. now destruct (existsb _ _). Qed.

Lemma error_advance dt w :
  error (st (advance dt w))
  = if existsb (fun f => f <=? clock w + dt) (timers w) then "" else error (st w).
Proof. rewrite st_advance. now destruct (existsb _ _). Qed.

Lemma error_advance_empty dt w : error (st w) = "" -> error (st (advance dt w)) = "".
Proof. intros E. rewrite error_advance. now destruct (existsb _ _). Qed.

Lemma log_handleError m w :
  log (handleError m w) = (log w ++ [InitializeAudio; PlaySound errorSound])%list.
Proof. unfold handleError. cbn. now rewrite <- app_assoc. Qed.

Lemma st_handleError m w : st (handleError m w) = setError m (st w).
Proof. reflexivity. Qed.

Lemma timers_handleError m w :
  timers (handleError m w) = (timers w ++ [clock w + ERROR_DISPLAY_MS])%list.
Proof. reflexivity. Qed.

Lemma clock_handleError m w : clock (handleError m w) = clock w.
Proof. reflexivity. Qed.

Lemma fresh_handleError m w : fresh (handleError m w) = fresh w.
Proof. reflexivity. Qed.

Lemma log_issueCall model img p w :
  log (issueCall model img p w)
  = (log w ++ [NewAbortController (fresh w);
               GenerateContent model img p (Some (fresh w))])%list.
Proof. unfold issueCall. cbn. now rewrite <- app_assoc. Qed.

Lemma st_issueCall model img p w : st (issueCall model img p w) = st w.
Proof. reflexivity. Qed.

Lemma timers_issueCall model img p w : timers (issueCall model img p w) = timers w.
Proof. reflexivity. Qed.

Lemma clock_issueCall model img p w : clock (issueCall model img p w) = clock w.
Proof. reflexivity. Qed.

Lemma abortRef_issueCall model img p w :
  abortControllerRef (issueCall model img p w) = Some (fresh w).
Proof. reflexivity. Qed.

Lemma fresh_issueCall model img p w : fresh (issueCall model img p w) = S (fresh w).
Proof. reflexivity. Qed.

Lemma calls_startOver w : filter isCall (log (startOver w)) = filter isCall (log w).
Proof.
  destruct w as [s [u|] [a|] c ts fr lg]; unfold startOver; cbn;
    rewrite ?filter_app; cbn; now rewrite ?app_nil_r.
Qed.

Lemma sleeps_startOver w : flat_map sleepOf (log (startOver w)) = flat_map sleepOf (log w).
Proof.
  destruct w as [s [u|] [a|] c ts fr lg]; unfold startOver; cbn;
    rewrite ?flat_map_app; cbn; now rewrite ?app_nil_r.
Qed.

Lemma attempts_startOver w : flat_map evOf (log (startOver w)) = flat_map evOf (log w).
Proof.
  destruct w as [s [u|] [a|] c ts fr lg]; unfold startOver; cbn;
    rewrite ?flat_map_app; cbn; now rewrite ?app_nil_r.
Qed.

Lemma st_startOver w :
  st (startOver w)
  = st w |> setToyImage None |> setToyImagePart None |> setToyModel None
         |> setToyDescription "" |> setUserCommand "" |> setToyReply ""
         |> setActionImage None |> setError "".
Proof.
  now destruct w as [s [u|] [a|] c ts fr lg].
Qed.

Lemma timers_startOver w : timers (startOver w) = timers w.
Proof.
  now destruct w as [s [u|] [a|] c ts fr lg].
Qed.

Lemma clock_startOver w : clock (startOver w) = clock w.
Proof.
  now destruct w as [s [u|] [a|] c ts fr lg].
Qed.

Lemma fresh_startOver w : fresh (startOver w) = fresh w.
Proof.
  now destruct w as [s [u|] [a|] c ts fr lg].
Qed.

Lemma urlRef_startOver w : toyImageObjectUrlRef (startOver w) = None.
Proof.
  now destruct w as [s [u|] [a|] c ts fr lg].
Qed.

Lemma abortRef_startOver w : abortControllerRef (startOver w) = None.
Proof.
  now destruct w as [s [u|] [a|] c ts fr lg].
Qed.

Lemma calls_showPicture f w :
  filter isCall (log (showPicture f w)) = filter isCall (log w).
Proof.
  destruct w as [s [u|] [a|] c ts fr lg]; unfold showPicture, startOver; cbn;
    rewrite ?filter_app; cbn; now rewrite ?app_nil_r.
Qed.

Lemma sleeps_showPicture f w :
  flat_map sleepOf (log (showPicture f w)) = flat_map sleepOf (log w).
Proof.
  destruct w as [s [u|] [a|] c ts fr lg]; unfold showPicture, startOver; cbn;
    rewrite ?flat_map_app; cbn; now rewrite ?app_nil_r.
Qed.

Lemma attempts_showPicture f w :
  flat_map evOf (log (showPicture f w)) = flat_map evOf (log w).
Proof.
  destruct w as [s [u|] [a|] c ts fr lg]; unfold showPicture, startOver; cbn;
    rewrite ?flat_map_app; cbn; now rewrite ?app_nil_r.
Qed.

Lemma st_showPicture f w :
  st (showPicture f w)
  = st (startOver w) |> setToyImage (Some (fresh w)) |> setIsLoadingDescription true.
Proof. destruct w as [s [u|] [a|] c ts fr lg]; vm_compute; reflexivity. Qed.

Lemma timers_showPicture f w : timers (showPicture f w) = timers w.
Proof. destruct w as [s [u|] [a|] c ts fr lg]; vm_compute; reflexivity. Qed.

Lemma clock_showPicture f w : clock (showPicture f w) = clock w.
Proof. destruct w as [s [u|] [a|] c ts fr lg]; vm_compute; reflexivity. Qed.

Lemma fresh_showPicture f w : fresh (showPicture f w) = S (fresh w).
Proof. destruct w as [s [u|] [a|] c ts fr lg]; vm_compute; reflexivity. Qed.

Lemma urlRef_showPicture f w : toyImageObjectUrlRef (showPicture f w) = Some (fresh w).
Proof. destruct w as [s [u|] [a|] c ts fr lg]; vm_compute; reflexivity. Qed.

#[global] Arguments emit : simpl never.
#[global] Arguments withState : simpl never.
#[global] Arguments setAbortRef : simpl never.
#[global] Arguments setUrlRef : simpl never.
#[global] Arguments setTimers : simpl never.
#[global] Arguments setClock : simpl never.
#[global] Arguments advance : simpl never.
#[global] Arguments handleError : simpl never.
#[global] Arguments issueCall : simpl never.
#[global] Arguments isQuotaError : simpl never.
#[global] Arguments startOver : simpl never.
#[global] Arguments showPicture : simpl never.
#[global] Opaque startOver showPicture advance.

Create Rewrite HintDb world.

#[global] Hint Rewrite
  toyImage_setToyImage toyImage_setToyImagePart toyImage_setToyModel
  toyImage_setToyDescription toyImage_setUserCommand toyImage_setToyReply
  toyImage_setActionImage toyImage_setIsLoadingDescription
  toyImage_setIsLoadingResponse toyImage_setIsListening toyImage_setError
  toyImage_setLastSendAt toyImagePart_setToyImage
  toyImagePart_setToyImagePart toyImagePart_setToyModel
  toyImagePart_setToyDescription toyImagePart_setUserCommand
  toyImagePart_setToyReply toyImagePart_setActionImage
  toyImagePart_setIsLoadingDescription toyImagePart_setIsLoadingResponse
  toyImagePart_setIsListening toyImagePart_setError
  toyImagePart_setLastSendAt toyModel_setToyImage toyModel_setToyImagePart
  toyModel_setToyModel toyModel_setToyDescription toyModel_setUserCommand
  toyModel_setToyReply toyModel_setActionImage
  toyModel_setIsLoadingDescription toyModel_setIsLoadingResponse
  toyModel_setIsListening toyModel_setError toyModel_setLastSendAt
  toyDescription_setToyImage toyDescription_setToyImagePart
  toyDescription_setToyModel toyDescription_setToyDescription
  toyDescription_setUserCommand toyDescription_setToyReply
  toyDescription_setActionImage toyDescription_setIsLoadingDescription
  toyDescription_setIsLoadingResponse toyDescription_setIsListening
  toyDescription_setError toyDescription_setLastSendAt
  userCommand_setToyImage userCommand_setToyImagePart
  userCommand_setToyModel userCommand_setToyDescription
  userCommand_setUserCommand userCommand_setToyReply
  userCommand_setActionImage userCommand_setIsLoadingDescription
  userCommand_setIsLoadingResponse userCommand_setIsListening
  userCommand_setError userCommand_setLastSendAt toyReply_setToyImage
  toyReply_setToyImagePart toyReply_setToyModel toyReply_setToyDescription
  toyReply_setUserCommand toyReply_setToyReply toyReply_setActionImage
  toyReply_setIsLoadingDescription toyReply_setIsLoadingResponse
  toyReply_setIsListening toyReply_setError toyReply_setLastSendAt
  actionImage_setToyImage actionImage_setToyImagePart
  actionImage_setToyModel actionImage_setToyDescription
  actionImage_setUserCommand actionImage_setToyReply
  actionImage_setActionImage actionImage_setIsLoadingDescription
  actionImage_setIsLoadingResponse actionImage_setIsListening
  actionImage_setError actionImage_setLastSendAt
  isLoadingDescription_setToyImage isLoadingDescription_setToyImagePart
  isLoadingDescription_setToyModel isLoadingDescription_setToyDescription
  isLoadingDescription_setUserCommand isLoadingDescription_setToyReply
  isLoadingDescription_setActionImage
  isLoadingDescription_setIsLoadingDescription
  isLoadingDescription_setIsLoadingResponse
  isLoadingDescription_setIsListening isLoadingDescription_setError
  isLoadingDescription_setLastSendAt isLoadingResponse_setToyImage
  isLoadingResponse_setToyImagePart isLoadingResponse_setToyModel
  isLoadingResponse_setToyDescription isLoadingResponse_setUserCommand
  isLoadingResponse_setToyReply isLoadingResponse_setActionImage
  isLoadingResponse_setIsLoadingDescription
  isLoadingResponse_setIsLoadingResponse isLoadingResponse_setIsListening
  isLoadingResponse_setError isLoadingResponse_setLastSendAt
  isListening_setToyImage isListening_setToyImagePart
  isListening_setToyModel isListening_setToyDescription
  isListening_setUserCommand isListening_setToyReply
  isListening_setActionImage isListening_setIsLoadingDescription
  isListening_setIsLoadingResponse isListening_setIsListening
  isListening_setError isListening_setLastSendAt error_setToyImage
  error_setToyImagePart error_setToyModel error_setToyDescription
  error_setUserCommand error_setToyReply error_setActionImage
  error_setIsLoadingDescription error_setIsLoadingResponse
  error_setIsListening error_setError error_setLastSendAt
  lastSendAt_setToyImage lastSendAt_setToyImagePart lastSendAt_setToyModel
  lastSendAt_setToyDescription lastSendAt_setUserCommand
  lastSendAt_setToyReply lastSendAt_setActionImage
  lastSendAt_setIsLoadingDescription lastSendAt_setIsLoadingResponse
  lastSendAt_setIsListening lastSendAt_setError lastSendAt_setLastSendAt
  : world.

#[global] Hint Rewrite
  st_emit st_withState st_setAbortRef st_setUrlRef st_setTimers st_setClock
  log_emit log_withState log_setAbortRef log_setUrlRef log_setTimers
  log_setClock timers_emit timers_withState timers_setAbortRef
  timers_setUrlRef timers_setTimers timers_setClock clock_emit
  clock_withState clock_setAbortRef clock_setUrlRef clock_setTimers
  clock_setClock fresh_emit fresh_withState fresh_setAbortRef
  fresh_setUrlRef fresh_setTimers fresh_setClock abortRef_emit
  abortRef_withState abortRef_setAbortRef abortRef_setUrlRef
  abortRef_setTimers abortRef_setClock urlRef_emit urlRef_withState
  urlRef_setAbortRef urlRef_setUrlRef urlRef_setTimers urlRef_setClock
  toyImage_advance toyImagePart_advance toyModel_advance
  toyDescription_advance userCommand_advance toyReply_advance
  actionImage_advance isLoadingDescription_advance isLoadingResponse_advance
  isListening_advance lastSendAt_advance log_advance fresh_advance
  abortRef_advance urlRef_advance clock_advance timers_advance
  log_handleError st_handleError timers_handleError clock_handleError
  fresh_handleError log_issueCall st_issueCall timers_issueCall
  clock_issueCall abortRef_issueCall fresh_issueCall calls_startOver
  sleeps_startOver attempts_startOver attempts_showPicture st_startOver
  timers_startOver clock_startOver fresh_startOver urlRef_startOver
  abortRef_startOver calls_showPicture sleeps_showPicture st_showPicture
  timers_showPicture clock_showPicture fresh_showPicture urlRef_showPicture
  : world.

(** Normalises an observation of a world built from the primitives. *)
Ltac list_simpl := cbn [filter isCall flat_map sleepOf evOf app length fst snd].

Ltac observe :=
  unfold calls, sleeps, attempts;
  autorewrite with world;
  rewrite ?filter_app, ?flat_map_app, ?length_app;
  autorewrite with world; list_simpl; rewrite ?app_nil_r.

(** ** The retry loops *)

Lemma sendCatch_fatal img p a e w :
  isQuotaError e = true ->
  sendCatch img p a e w
  = sendFinish (setAbortRef None (handleError MSG_DAILY_LIMIT w)).
Proof. intros Q. unfold sendCatch. now rewrite Q. Qed.

Lemma sendCatch_retry img p a e w :
  isQuotaError e = false -> a + 1 <= SAFE_RETRY_COUNT ->
  sendCatch img p a e w
  = (emit (Sleep (RETRY_BASE_DELAY_MS * 2 ^ (a + 1))) w,
     SAwaitSleep img p (a + 1) (RETRY_BASE_DELAY_MS * 2 ^ (a + 1))).
Proof.
  intros Q H. unfold sendCatch. rewrite Q.
  destruct (a + 1 >? SAFE_RETRY_COUNT) eqn:G; [|reflexivity].
  apply Z.gtb_lt in G. lia.
Qed.

Lemma sendCatch_exhausted img p a e w :
  isQuotaError e = false -> SAFE_RETRY_COUNT < a + 1 ->
  sendCatch img p a e w
  = sendFinish (setAbortRef None (handleError MSG_SEND_FAILED
                  (emit (ConsoleError "Final error from sendCommand:") w))).
Proof.
  intros Q H. unfold sendCatch. rewrite Q.
  destruct (a + 1 >? SAFE_RETRY_COUNT) eqn:G; [reflexivity|].
  rewrite Z.gtb_ltb in G. apply Z.ltb_ge in G. lia.
Qed.

Lemma describeCatch_fatal ip a e w :
  isQuotaError e = true ->
  describeCatch ip a e w
  = describeFinish (setAbortRef None (handleError MSG_DAILY_LIMIT w)).
Proof. intros Q. unfold describeCatch. now rewrite Q. Qed.

Lemma describeCatch_retry ip a e w :
  isQuotaError e = false -> a + 1 <= SAFE_RETRY_COUNT ->
  describeCatch ip a e w
  = (emit (Sleep (RETRY_BASE_DELAY_MS * 2 ^ (a + 1))) w,
     DAwaitSleep ip (a + 1) (RETRY_BASE_DELAY_MS * 2 ^ (a + 1))).
Proof.
  intros Q H. unfold describeCatch. rewrite Q.
  destruct (a + 1 >? SAFE_RETRY_COUNT) eqn:G; [|reflexivity].
  apply Z.gtb_lt in G. lia.
Qed.

Lemma describeCatch_exhausted ip a e w :
  isQuotaError e = false -> SAFE_RETRY_COUNT < a + 1 ->
  describeCatch ip a e w
  = describeFinish (setAbortRef None (handleError MSG_DESCRIBE_FAILED
                      (emit (ConsoleError "Final error describing toy:") w))).
Proof.
  intros Q H. unfold describeCatch. rewrite Q.
  destruct (a + 1 >? SAFE_RETRY_COUNT) eqn:G; [reflexivity|].
  rewrite Z.gtb_ltb in G. apply Z.ltb_ge in G. lia.
Qed.

Lemma allTransient_cons l o rest :
  allTransient ((l, o) :: rest) = true ->
  exists e, o = Rejected e /\ isQuotaError e = false /\ allTransient rest = true.
Proof.
  unfold allTransient. cbn [forallb snd]. rewrite andb_true_iff.
  destruct o as [r|e]; [intros [H _]; discriminate|].
  intros [H R]. exists e. apply negb_true_iff in H. auto.
Qed.

(** One attempt of the command loop that fails with a transient error. *)
Lemma sendStep_retry img p a e w :
  isQuotaError e = false -> a + 1 <= SAFE_RETRY_COUNT ->
  sendStep (Rejected e) (SAwaitCall img p a) w
  = (issueCall "gemini-2.5-flash-image-preview" img p
       (setAbortRef None
          (advance (RETRY_BASE_DELAY_MS * 2 ^ (a + 1))
             (emit (Sleep (RETRY_BASE_DELAY_MS * 2 ^ (a + 1))) w))),
     SAwaitCall img p (a + 1)).
Proof.
  intros Q H. cbn [sendStep sendCommand_settle].
  rewrite sendCatch_retry by assumption.
  unfold sendCommand_wake, sendLoop.
  destruct (a + 1 <=? SAFE_RETRY_COUNT) eqn:L; [reflexivity|].
  apply Z.leb_gt in L. lia.
Qed.

Lemma sendStep_exhausted img p a e w :
  isQuotaError e = false -> SAFE_RETRY_COUNT < a + 1 ->
  sendStep (Rejected e) (SAwaitCall img p a) w
  = sendFinish (setAbortRef None (handleError MSG_SEND_FAILED
                  (emit (ConsoleError "Final error from sendCommand:") w))).
Proof.
  intros Q H. cbn [sendStep sendCommand_settle].
  now rewrite sendCatch_exhausted by assumption.
Qed.

Lemma sendStep_fatal img p a e w :
  isQuotaError e = true ->
  sendStep (Rejected e) (SAwaitCall img p a) w
  = sendFinish (setAbortRef None (handleError MSG_DAILY_LIMIT w)).
Proof.
  intros Q. cbn [sendStep sendCommand_settle].
  now rewrite sendCatch_fatal by assumption.
Qed.

Lemma runSend_done outcomes w : runSend outcomes SDone w = (w, SDone).
Proof. destruct outcomes as [|[l o] rest]; reflexivity. Qed.

Lemma backoffs_S a n :
  backoffs a (S n) = RETRY_BASE_DELAY_MS * 2 ^ (a + 1) :: backoffs (a + 1) n.
Proof.
  unfold backoffs. cbn [seq map]. rewrite Z.add_0_r. f_equal.
  rewrite <- seq_shift, map_map. apply map_ext. intros i.
  do 2 f_equal. lia.
Qed.

(** The command loop against a service that always fails transiently:
    with [n] retries left it makes [n] further calls, sleeps the [n] delays
    in between and gives up. *)
Lemma runSend_all_transient (n : nat) :
  forall a outcomes img p w,
    a = SAFE_RETRY_COUNT - Z.of_nat n ->
    allTransient outcomes = true ->
    (S n <= length outcomes)%nat ->
    let r := runSend outcomes (SAwaitCall img p a) w in
    snd r = SDone
    /\ length (calls (fst r)) = (length (calls w) + n)%nat
    /\ sleeps (fst r) = (sleeps w ++ backoffs a n)%list
    /\ attempts (fst r)
       = (attempts w ++ flat_map (fun ms => [EvSleep ms; EvCall]) (backoffs a n))%list
    /\ error (st (fst r)) = MSG_SEND_FAILED.
Proof.
  induction n as [|n IH]; intros a outcomes img p w Ha T L;
    destruct outcomes as [|[l o] rest]; cbn [length] in L; try lia;
    destruct (allTransient_cons _ _ _ T) as (e & -> & Q & T');
    cbn [runSend].
  - rewrite sendStep_exhausted by (assumption || lia).
    unfold sendFinish. rewrite runSend_done. cbn [fst snd].
    observe. repeat split; lia.
  - rewrite sendStep_retry by (assumption || lia).
    specialize (IH (a + 1) rest img p
      (issueCall "gemini-2.5-flash-image-preview" img p
         (setAbortRef None
            (advance (RETRY_BASE_DELAY_MS * 2 ^ (a + 1))
               (emit (Sleep (RETRY_BASE_DELAY_MS * 2 ^ (a + 1))) (advance l w)))))
      ltac:(lia) T' ltac:(lia)).
    cbv zeta in IH. destruct IH as (D & C & S' & A' & E).
    repeat split; [exact D | | | | exact E].
    + rewrite C. observe. lia.
    + rewrite S', backoffs_S. observe. now rewrite <- app_assoc.
    + rewrite A', backoffs_S. observe. now rewrite <- !app_assoc.
Qed.

(** One attempt of the description loop that fails with a transient error. *)
Lemma describeStep_retry ip a e w :
  isQuotaError e = false -> a + 1 <= SAFE_RETRY_COUNT ->
  describeStep (Rejected e) (DAwaitCall ip a) w
  = (issueCall "gemini-2.5-flash" ip DESCRIBE_PROMPT
       (setAbortRef None
          (advance (RETRY_BASE_DELAY_MS * 2 ^ (a + 1))
             (emit (Sleep (RETRY_BASE_DELAY_MS * 2 ^ (a + 1))) w))),
     DAwaitCall ip (a + 1)).
Proof.
  intros Q H. cbn [describeStep handleFileChange_settle].
  rewrite describeCatch_retry by assumption.
  unfold handleFileChange_wake, describeLoop.
  destruct (a + 1 <=? SAFE_RETRY_COUNT) eqn:L; [reflexivity|].
  apply Z.leb_gt in L. lia.
Qed.

Lemma describeStep_exhausted ip a e w :
  isQuotaError e = false -> SAFE_RETRY_COUNT < a + 1 ->
  describeStep (Rejected e) (DAwaitCall ip a) w
  = describeFinish (setAbortRef None (handleError MSG_DESCRIBE_FAILED
                  (emit (ConsoleError "Final error describing toy:") w))).
Proof.
  intros Q H. cbn [describeStep handleFileChange_settle].
  now rewrite describeCatch_exhausted by assumption.
Qed.

Lemma describeStep_fatal ip a e w :
  isQuotaError e = true ->
  describeStep (Rejected e) (DAwaitCall ip a) w
  = describeFinish (setAbortRef None (handleError MSG_DAILY_LIMIT w)).
Proof.
  intros Q. cbn [describeStep handleFileChange_settle].
  now rewrite describeCatch_fatal by assumption.
Qed.

Lemma runDescribe_done outcomes w : runDescribe outcomes DDone w = (w, DDone).
Proof. destruct outcomes as [|[l o] rest]; reflexivity. Qed.

(** The description loop against a service that always fails transiently:
    with [n] retries left it makes [n] further calls, sleeps the [n] delays
    in between and gives up. *)
Lemma runDescribe_all_transient (n : nat) :
  forall a outcomes ip w,
    a = SAFE_RETRY_COUNT - Z.of_nat n ->
    allTransient outcomes = true ->
    (S n <= length outcomes)%nat ->
    let r := runDescribe outcomes (DAwaitCall ip a) w in
    snd r = DDone
    /\ length (calls (fst r)) = (length (calls w) + n)%nat
    /\ sleeps (fst r) = (sleeps w ++ backoffs a n)%list
    /\ attempts (fst r)
       = (attempts w ++ flat_map (fun ms => [EvSleep ms; EvCall]) (backoffs a n))%list
    /\ error (st (fst r)) = MSG_DESCRIBE_FAILED.
Proof.
  induction n as [|n IH]; intros a outcomes ip w Ha T L;
    destruct outcomes as [|[l o] rest]; cbn [length] in L; try lia;
    destruct (allTransient_cons _ _ _ T) as (e & -> & Q & T');
    cbn [runDescribe].
  - rewrite describeStep_exhausted by (assumption || lia).
    unfold describeFinish. rewrite runDescribe_done. cbn [fst snd].
    observe. repeat split; lia.
  - rewrite describeStep_retry by (assumption || lia).
    specialize (IH (a + 1) rest ip
      (issueCall "gemini-2.5-flash" ip DESCRIBE_PROMPT
         (setAbortRef None
            (advance (RETRY_BASE_DELAY_MS * 2 ^ (a + 1))
               (emit (Sleep (RETRY_BASE_DELAY_MS * 2 ^ (a + 1))) (advance l w)))))
      ltac:(lia) T' ltac:(lia)).
    cbv zeta in IH. destruct IH as (D & C & S' & A' & E).
    repeat split; [exact D | | | | exact E].
    + rewrite C. observe. lia.
    + rewrite S', backoffs_S. observe. now rewrite <- app_assoc.
    + rewrite A', backoffs_S. observe. now rewrite <- !app_assoc.
Qed.

(** ** The handlers up to their first call *)

(** The synchronous part of an accepted [sendCommand]. *)
Lemma sendCommand_begin_accepted view cmd img w :
  nonEmpty (trim cmd) = true ->
  toyImagePart view = Some img ->
  DEBOUNCE_MS <= clock w - lastSendAt view ->
  sendCommand_begin view (Some cmd) w
  = (issueCall "gemini-2.5-flash-image-preview" img (combinedPrompt (trim cmd))
       (w |> withState (setLastSendAt (clock w))
          |> emit InitializeAudio |> emit (PlaySound click)
          |> withState (setIsLoadingResponse true)
          |> withState (setToyReply "")
          |> withState (setActionImage None)
          |> withState (setError "")),
     SAwaitCall img (combinedPrompt (trim cmd)) 0).
Proof.
  intros N I D. unfold sendCommand_begin, canSendNow, commandArg.
  rewrite N, I. cbn [negb].
  destruct (clock w - lastSendAt view <? DEBOUNCE_MS) eqn:L.
  - apply Z.ltb_lt in L. lia.
  - reflexivity.
Qed.

(** The part of [handleFileChange] before the loop, for a readable picture. *)
Lemma handleFileChange_begin_accepted f url w outcomes :
  startsWith "image/" (fileType f) = true ->
  fileDataURL f = Some url ->
  let ip := {| imageData := nth 1 (split "," url) ""; imageMime := fileType f |} in
  handleFileChange (Some f) outcomes w
  = runDescribe outcomes (DAwaitCall ip 0)
      (issueCall "gemini-2.5-flash" ip DESCRIBE_PROMPT
         (withState (setToyImagePart (Some ip)) (showPicture f w))).
Proof.
  intros T R ip.
  unfold handleFileChange, handleFileChange_begin. rewrite T. cbn [negb].
  unfold handleFileChange_encoded, base64Encode. rewrite R.
  unfold describeLoop. change (0 <=? SAFE_RETRY_COUNT) with true. cbv iota.
  reflexivity.
Qed.

(** ** Retry and backoff *)

Lemma sendCommand_all_transient view cmd img w outcomes :
  nonEmpty (trim cmd) = true ->
  toyImagePart view = Some img ->
  DEBOUNCE_MS <= clock w - lastSendAt view ->
  allTransient outcomes = true ->
  (3 <= length outcomes)%nat ->
  let r := sendCommand view (Some cmd) outcomes w in
  snd r = SDone
  /\ length (calls (fst r)) = (length (calls w) + 3)%nat
  /\ sleeps (fst r) = (sleeps w ++ [1600; 3200])%list
  /\ attempts (fst r)
     = (attempts w ++ [EvCall; EvSleep 1600; EvCall; EvSleep 3200; EvCall])%list
  /\ error (st (fst r)) = MSG_SEND_FAILED.
Proof.
  intros N I D T L. unfold sendCommand.
  rewrite (sendCommand_begin_accepted _ _ _ _ N I D).
  match goal with
  | |- context [runSend outcomes (SAwaitCall img ?p 0) ?w0] =>
      destruct (runSend_all_transient 2 0 outcomes img p w0 eq_refl T L)
        as (Hd & Hc & Hs & Ha & He)
  end.
  repeat split; [exact Hd | | | | exact He].
  - rewrite Hc. observe. lia.
  - rewrite Hs. observe. reflexivity.
  - rewrite Ha. observe. now rewrite <- !app_assoc.
Qed.

Lemma handleFileChange_all_transient f url w outcomes :
  startsWith "image/" (fileType f) = true ->
  fileDataURL f = Some url ->
  allTransient outcomes = true ->
  (3 <= length outcomes)%nat ->
  let r := handleFileChange (Some f) outcomes w in
  snd r = DDone
  /\ length (calls (fst r)) = (length (calls w) + 3)%nat
  /\ sleeps (fst r) = (sleeps w ++ [1600; 3200])%list
  /\ attempts (fst r)
     = (attempts w ++ [EvCall; EvSleep 1600; EvCall; EvSleep 3200; EvCall])%list
  /\ error (st (fst r)) = MSG_DESCRIBE_FAILED.
Proof.
  intros I R T L.
  rewrite (handleFileChange_begin_accepted _ _ _ _ I R).
  match goal with
  | |- context [runDescribe outcomes (DAwaitCall ?ip 0) ?w0] =>
      destruct (runDescribe_all_transient 2 0 outcomes ip w0 eq_refl T L)
        as (Hd & Hc & Hs & Ha & He)
  end.
  repeat split; [exact Hd | | | | exact He].
  - rewrite Hc. observe. lia.
  - rewrite Hs. observe. reflexivity.
  - rewrite Ha. observe. now rewrite <- !app_assoc.
Qed.

(** C2.  When every attempt fails with an error classified Transient, the
    retry loops of [sendCommand] and of [handleFileChange]
    (maxAttempts = 2, baseDelayMs = 800) make exactly 3 = maxAttempts + 1
    calls, sleep 800 * 2^1 = 1600 ms and then 800 * 2^2 = 3200 ms between
    them, and end by showing their generic failure message. *)
Theorem transient_failures_three_attempts :
  forall outcomes : list (Z * Outcome),
    allTransient outcomes = true ->
    (3 <= length outcomes)%nat ->
    (forall view cmd img w,
        nonEmpty (trim cmd) = true ->
        toyImagePart view = Some img ->
        DEBOUNCE_MS <= clock w - lastSendAt view ->
        let r := sendCommand view (Some cmd) outcomes w in
        snd r = SDone
        /\ length (calls (fst r)) = (length (calls w) + 3)%nat
        /\ sleeps (fst r) = (sleeps w ++ [1600; 3200])%list
        /\ attempts (fst r)
           = (attempts w ++ [EvCall; EvSleep 1600; EvCall; EvSleep 3200; EvCall])%list
        /\ error (st (fst r)) = MSG_SEND_FAILED)
    /\ (forall f url w,
           startsWith "image/" (fileType f) = true ->
           fileDataURL f = Some url ->
           let r := handleFileChange (Some f) outcomes w in
           snd r = DDone
           /\ length (calls (fst r)) = (length (calls w) + 3)%nat
           /\ sleeps (fst r) = (sleeps w ++ [1600; 3200])%list
           /\ attempts (fst r)
              = (attempts w ++ [EvCall; EvSleep 1600; EvCall; EvSleep 3200; EvCall])%list
           /\ error (st (fst r)) = MSG_DESCRIBE_FAILED)
    /\ SAFE_RETRY_COUNT + 1 = 3
    /\ [1600; 3200] = map (fun k => RETRY_BASE_DELAY_MS * 2 ^ k) [1; 2]
    /\ 1600 < 3200.
Proof.
  intros outcomes T L. split; [|split; [|repeat split]].
  - intros view cmd img w N I D.
    apply sendCommand_all_transient with (img := img); assumption.
  - intros f url w I R.
    apply handleFileChange_all_transient with (url := url); assumption.
Qed.

(** A service that is down: three calls, two sleeps, the generic notice. *)
Lemma transient_failures_three_attempts_witness :
  allTransient (failing 3 "Failed to fetch") = true
  /\ (3 <= length (failing 3 "Failed to fetch"))%nat
  /\ let r := sendCommand (st (readyWorld 1000000)) (Some "dance")
                (failing 3 "Failed to fetch") (readyWorld 1000000) in
     snd r = SDone
     /\ length (calls (fst r)) = (length (calls (readyWorld 1000000)) + 3)%nat
     /\ sleeps (fst r) = (sleeps (readyWorld 1000000) ++ [1600; 3200])%list
     /\ attempts (fst r)
        = (attempts (readyWorld 1000000)
           ++ [EvCall; EvSleep 1600; EvCall; EvSleep 3200; EvCall])%list
     /\ error (st (fst r)) = MSG_SEND_FAILED.
Proof.
  split; [vm_compute; reflexivity|].
  split; [vm_compute; lia|].
  refine (proj1 (transient_failures_three_attempts (failing 3 "Failed to fetch") _ _)
            (st (readyWorld 1000000)) "dance" samplePart (readyWorld 1000000) _ _ _);
    vm_compute; (reflexivity || lia || discriminate).
Defined.

(** ** Fatal errors *)

(** C3.  Whatever the attempt counter, an attempt that fails with an error
    classified Fatal ends the loop at once: the fixed daily-limit message is
    shown, no sleep and no further call is made, whatever the service
    would have answered next. *)
Theorem fatal_error_aborts_without_retry :
  forall e : JsValue,
    classify e = Fatal ->
    (forall img p attempt latency rest w,
        let r := runSend ((latency, Rejected e) :: rest) (SAwaitCall img p attempt) w in
        snd r = SDone
        /\ attempts (fst r) = attempts w
        /\ calls (fst r) = calls w
        /\ sleeps (fst r) = sleeps w
        /\ error (st (fst r)) = MSG_DAILY_LIMIT)
    /\ (forall ip attempt latency rest w,
           let r := runDescribe ((latency, Rejected e) :: rest) (DAwaitCall ip attempt) w in
           snd r = DDone
           /\ attempts (fst r) = attempts w
           /\ calls (fst r) = calls w
           /\ sleeps (fst r) = sleeps w
           /\ error (st (fst r)) = MSG_DAILY_LIMIT)
    /\ MSG_DAILY_LIMIT <> MSG_SEND_FAILED
    /\ MSG_DAILY_LIMIT <> MSG_DESCRIBE_FAILED.
Proof.
  intros e F.
  assert (Q : isQuotaError e = true)
    by (unfold classify in F; destruct (isQuotaError e); [reflexivity | discriminate]).
  split; [|split; [|split; discriminate]].
  - intros img p attempt latency rest w. cbn [runSend].
    rewrite sendStep_fatal by exact Q.
    unfold sendFinish. rewrite runSend_done. cbn [fst snd].
    repeat split; observe; reflexivity.
  - intros ip attempt latency rest w. cbn [runDescribe].
    rewrite describeStep_fatal by exact Q.
    unfold describeFinish. rewrite runDescribe_done. cbn [fst snd].
    repeat split; observe; reflexivity.
Qed.

(** "Quota exceeded" on the second attempt of a command. *)
Lemma fatal_error_aborts_without_retry_witness :
  classify (mkError "Quota exceeded") = Fatal
  /\ let w := readyWorld 1000000 in
     let r := runSend ((100, Rejected (mkError "Quota exceeded")) :: failing 2 "Failed to fetch")
                (SAwaitCall samplePart "dance" 1) w in
     snd r = SDone /\ attempts (fst r) = attempts w /\ calls (fst r) = calls w
     /\ sleeps (fst r) = sleeps w /\ error (st (fst r)) = MSG_DAILY_LIMIT.
Proof.
  split; [vm_compute; reflexivity|].
  refine (proj1 (fatal_error_aborts_without_retry (mkError "Quota exceeded") _)
            samplePart "dance" 1 100 (failing 2 "Failed to fetch") (readyWorld 1000000)).
  vm_compute; reflexivity.
Defined.

(** ** The response parser *)

Lemma findImageData_first pre part post d :
  Forall (fun q => payload q = None) pre ->
  payload part = Some d ->
  findImageData (pre ++ part :: post) = d /\ nonEmpty d = true.
Proof.
  intros Hpre Hp. induction Hpre as [|q pre Hq _ IH]; cbn [app findImageData].
  - unfold payload in Hp.
    destruct (inlineData part) as [blob|]; [|discriminate].
    destruct (data blob) as [d'|]; [|discriminate].
    destruct (nonEmpty d') eqn:N; [|discriminate].
    injection Hp as ->. auto.
  - unfold payload in Hq.
    destruct (inlineData q) as [blob|]; [|exact IH].
    destruct (data blob) as [d'|]; [|exact IH].
    destruct (nonEmpty d'); [discriminate | exact IH].
Qed.

Lemma findImageData_none ps :
  Forall (fun q => payload q = None) ps -> findImageData ps = "".
Proof.
  induction 1 as [|q ps Hq _ IH]; cbn [findImageData]; [reflexivity|].
  unfold payload in Hq.
  destruct (inlineData q) as [blob|]; [|exact IH].
  destruct (data blob) as [d'|]; [|exact IH].
  destruct (nonEmpty d'); [discriminate | exact IH].
Qed.

Lemma nonEmpty_false (s : string) : nonEmpty s = false <-> s = "".
Proof. destruct s; split; (reflexivity || discriminate). Qed.

(** What [storeResult] leaves in the three cells it may write. *)
Lemma storeResult_fields foundText foundImageData w :
  let w' := storeResult (foundText, foundImageData) w in
  toyReply (st w') = (if nonEmpty foundText then foundText else toyReply (st w))
  /\ actionImage (st w')
     = (if nonEmpty foundImageData
        then Some ("data:image/png;base64," ++ foundImageData)
        else actionImage (st w))
  /\ error (st w')
     = (if nonEmpty foundText || nonEmpty foundImageData
        then error (st w) else MSG_NO_REPLY)
  /\ calls w' = calls w /\ sleeps w' = sleeps w.
Proof.
  unfold storeResult.
  destruct (nonEmpty foundText), (nonEmpty foundImageData); cbn [negb andb orb];
    repeat split; observe; reflexivity.
Qed.

Lemma sendCommand_settle_resolved img p a response w :
  sendCommand_settle img p a (Resolved response) w
  = sendFinish (setAbortRef None (storeResult (parseResponse response) w)).
Proof. reflexivity. Qed.

(** C4.  From a generation result the parser takes the aggregated text,
    trimmed, as the reply (an empty text counts as absent), and as action
    image the payload of the first part, in order, that carries one; the
    later parts are not looked at.  When it finds neither it shows its own
    failure message, which is neither of the two transport messages, and
    the call is not retried. *)
Theorem response_parser_policy :
  forall (r : GenerateContentResponse) img p attempt w,
    let res := sendCommand_settle img p attempt (Resolved (Some r)) w in
    let w' := fst res in
    let text := match responseText r with Some t => trim t | None => "" end in
    toyReply (st w') = (if nonEmpty text then text else toyReply (st w))
    /\ (forall pre part post d,
           partsOf r = (pre ++ part :: post)%list ->
           Forall (fun q => payload q = None) pre ->
           payload part = Some d ->
           actionImage (st w') = Some ("data:image/png;base64," ++ d))
    /\ (Forall (fun q => payload q = None) (partsOf r) ->
        actionImage (st w') = actionImage (st w)
        /\ (text = "" -> error (st w') = MSG_NO_REPLY)
        /\ (text <> "" -> error (st w') = error (st w)))
    /\ (Exists (fun q => payload q <> None) (partsOf r) ->
        error (st w') = error (st w))
    /\ snd res = SDone /\ calls w' = calls w /\ sleeps w' = sleeps w
    /\ MSG_NO_REPLY <> MSG_SEND_FAILED
    /\ MSG_NO_REPLY <> MSG_DAILY_LIMIT.
Proof.
  intros r img p attempt w res w' text.
  subst res w'. rewrite sendCommand_settle_resolved.
  unfold sendFinish. cbn [fst snd parseResponse]. fold text.
  destruct (storeResult_fields text (findImageData (partsOf r)) w)
    as (Ht & Hi & He & Hc & Hs). cbv zeta in *.
  split; [|split; [|split; [|split; [|split; [|split; [|split; [|split]]]]]]].
  - observe. exact Ht.
  - intros pre part post d Hparts Hpre Hp.
    destruct (findImageData_first pre part post d Hpre Hp) as [F N].
    observe. rewrite Hi, Hparts, F, N. reflexivity.
  - intros Hnone. rewrite (findImageData_none _ Hnone) in *.
    repeat split.
    + observe. exact Hi.
    + intros E. observe. rewrite He, E. reflexivity.
    + intros E. observe. rewrite He.
      destruct (nonEmpty text) eqn:N; [reflexivity|].
      apply nonEmpty_false in N. contradiction.
  - intros Hex. observe. rewrite He.
    assert (N : nonEmpty (findImageData (partsOf r)) = true).
    { clear - Hex. induction Hex as [q ps Hq | q ps _ IH]; cbn [findImageData].
      - unfold payload in Hq.
        destruct (inlineData q) as [blob|]; [|congruence].
        destruct (data blob) as [d|]; [|congruence].
        destruct (nonEmpty d) eqn:N; [exact N | congruence].
      - destruct (inlineData q) as [blob|]; [|exact IH].
        destruct (data blob) as [d|]; [|exact IH].
        destruct (nonEmpty d) eqn:N; [exact N | exact IH]. }
    rewrite N, orb_true_r. reflexivity.
  - reflexivity.
  - observe. exact Hc.
  - observe. exact Hs.
  - discriminate.
  - discriminate.
Qed.


(** The scenario of the spec: text "Whee!" and an image. *)
Example parser_text_and_image :
  let w := fst (sendCommand_begin (st (readyWorld 1000000)) (Some "dance")
                  (readyWorld 1000000)) in
  let w' := fst (sendCommand_settle samplePart "dance" 0
                   (Resolved (Some (responseOf (Some " Whee! ")
                                      [textPart "Whee!"; imagePartOf "QUJD";
                                       imagePartOf "REVG"]))) w) in
  toyReply (st w') = "Whee!"
  /\ actionImage (st w') = Some "data:image/png;base64,QUJD"
  /\ error (st w') = ""
  /\ sessionState (st w') = Ready.
Proof. vm_compute. repeat split. Qed.

(** Neither text nor image: the parser's own notice. *)
Example parser_nothing_found :
  let w := fst (sendCommand_begin (st (readyWorld 1000000)) (Some "dance")
                  (readyWorld 1000000)) in
  let res := sendCommand_settle samplePart "dance" 0
               (Resolved (Some (responseOf (Some "   ")
                                  [imagePartOf ""; textPart "ignored"]))) w in
  toyReply (st (fst res)) = "" /\ actionImage (st (fst res)) = None
  /\ error (st (fst res)) = MSG_NO_REPLY /\ snd res = SDone
  /\ sessionState (st (fst res)) = Ready.
Proof. vm_compute. repeat split. Qed.

(** ** The guard of [sendCommand] *)





(** Before any upload there is no picture, whatever is typed. *)
Example submit_without_image :
  sendCommand initialState (Some "dance") (failing 3 "x") (initialWorld 1000000)
  = (initialWorld 1000000, SDone).
Proof. vm_compute. reflexivity. Qed.

(** ** The description of the picture *)



(** The scenario of the spec: "A fluffy bear" is stored as it comes. *)
Example description_stored_verbatim :
  let res := handleFileChange (Some pngFile)
               [(100, Resolved (Some (responseOf (Some "A fluffy bear") [])))]
               (initialWorld 0) in
  toyDescription (st (fst res)) = "A fluffy bear"
  /\ sessionState (st (fst res)) = Ready /\ snd res = DDone.
Proof. vm_compute. repeat split. Qed.

(** ** Failure of the description *)

Lemma describeFinish_picture w :
  toyImage (st (fst (describeFinish w))) = toyImage (st w)
  /\ toyImagePart (st (fst (describeFinish w))) = toyImagePart (st w).
Proof. unfold describeFinish. cbn [fst]. split; observe; reflexivity. Qed.

Lemma describeCatch_picture ip a e w :
  toyImage (st (fst (describeCatch ip a e w))) = toyImage (st w)
  /\ toyImagePart (st (fst (describeCatch ip a e w))) = toyImagePart (st w).
Proof.
  unfold describeCatch, describeFinish.
  destruct (isQuotaError e); [|destruct (a + 1 >? SAFE_RETRY_COUNT)];
    cbn [fst]; split; observe; reflexivity.
Qed.

Lemma describeLoop_picture ip a w :
  toyImage (st (fst (describeLoop ip a w))) = toyImage (st w)
  /\ toyImagePart (st (fst (describeLoop ip a w))) = toyImagePart (st w).
Proof.
  unfold describeLoop, describeFinish.
  destruct (a <=? SAFE_RETRY_COUNT); cbn [fst]; split; observe; reflexivity.
Qed.

(** No attempt of the description loop, however it ends, touches the
    picture or the part kept for the commands. *)
Lemma describeStep_picture o t w :
  toyImage (st (fst (describeStep o t w))) = toyImage (st w)
  /\ toyImagePart (st (fst (describeStep o t w))) = toyImagePart (st w).
Proof.
  destruct t as [f|ip a|ip a ms|]; cbn [describeStep fst]; auto.
  assert (C : forall e,
             toyImage (st (fst match describeCatch ip a e w with
                               | (w1, DAwaitSleep ip' a' ms) =>
                                   handleFileChange_wake ip' a' (advance ms w1)
                               | r => r
                               end)) = toyImage (st w)
             /\ toyImagePart (st (fst match describeCatch ip a e w with
                                      | (w1, DAwaitSleep ip' a' ms) =>
                                          handleFileChange_wake ip' a' (advance ms w1)
                                      | r => r
                                      end)) = toyImagePart (st w)).
  { intros e. pose proof (describeCatch_picture ip a e w) as P.
    destruct (describeCatch ip a e w) as [w1 [f'|ip' a'|ip' a' ms|]];
      cbn [fst] in *; try exact P.
    unfold handleFileChange_wake.
    destruct (describeLoop_picture ip' a' (setAbortRef None (advance ms w1))) as [L1 L2].
    rewrite L1, L2. split; observe; apply P. }
  destruct o as [[r|]|e]; cbn [handleFileChange_settle]; try apply C.
  unfold describeFinish.
  destruct (nonEmpty _); cbn [fst]; split; observe; reflexivity.
Qed.

Lemma runDescribe_picture outcomes :
  forall t w,
    toyImage (st (fst (runDescribe outcomes t w))) = toyImage (st w)
    /\ toyImagePart (st (fst (runDescribe outcomes t w))) = toyImagePart (st w).
Proof.
  induction outcomes as [|[l o] rest IH]; intros t w; cbn [runDescribe fst]; auto.
  destruct t as [f|ip a|ip a ms|]; cbn [fst]; auto.
  pose proof (describeStep_picture o (DAwaitCall ip a) (advance l w)) as P.
  destruct (describeStep o (DAwaitCall ip a) (advance l w)) as [w1 t1].
  cbn [fst] in P. destruct (IH t1 w1) as [I1 I2].
  rewrite I1, I2. destruct P as [P1 P2]. rewrite P1, P2.
  split; observe; reflexivity.
Qed.

(** Once the picture has been read, nothing the generation service answers
    makes [handleFileChange] take the picture away again. *)
Lemma description_outcome_keeps_picture f url outcomes w :
  startsWith "image/" (fileType f) = true ->
  fileDataURL f = Some url ->
  toyImage (st (fst (handleFileChange (Some f) outcomes w))) = Some (fresh w)
  /\ toyImagePart (st (fst (handleFileChange (Some f) outcomes w)))
     = Some {| imageData := nth 1 (split "," url) ""; imageMime := fileType f |}.
Proof.
  intros I R. rewrite (handleFileChange_begin_accepted _ _ _ _ I R).
  match goal with
  | |- context [runDescribe outcomes ?t ?w0] =>
      destruct (runDescribe_picture outcomes t w0) as [P1 P2]
  end.
  rewrite P1, P2. split; observe; reflexivity.
Qed.

(** C7, on the code.  A picture is uploaded and the description fails,
    once with "Quota exceeded" and once three times with a network error:
    the notice is shown, but the picture and its encoded part stay, the
    object URL is not revoked and the session is Ready, not Idle; a
    command sent afterwards is accepted and reaches the service. *)
Theorem description_failure_leaves_picture :
  let fatal := handleFileChange (Some pngFile)
                 [(100, Rejected (mkError "Quota exceeded"))] (initialWorld 0) in
  let exhausted := handleFileChange (Some pngFile) (failing 3 "Failed to fetch")
                     (initialWorld 0) in
  (snd fatal = DDone
   /\ error (st (fst fatal)) = MSG_DAILY_LIMIT
   /\ toyImage (st (fst fatal)) = Some 0%nat
   /\ toyImagePart (st (fst fatal)) = Some samplePart
   /\ toyImageObjectUrlRef (fst fatal) = Some 0%nat
   /\ sessionState (st (fst fatal)) = Ready)
  /\ (snd exhausted = DDone
      /\ error (st (fst exhausted)) = MSG_DESCRIBE_FAILED
      /\ toyImage (st (fst exhausted)) = Some 0%nat
      /\ toyImagePart (st (fst exhausted)) = Some samplePart
      /\ toyImageObjectUrlRef (fst exhausted) = Some 0%nat
      /\ sessionState (st (fst exhausted)) = Ready)
  /\ (let w := advance 1000 (fst fatal) in
      exists p, snd (sendCommand_begin (st w) (Some "dance") w)
                = SAwaitCall samplePart p 0).
Proof.
  vm_compute. repeat split. eexists. reflexivity.
Qed.

(** Only a picture that cannot be read takes the outer [catch], which does
    clear the preview. *)
Example unreadable_picture_returns_to_idle :
  let res := handleFileChange
               (Some {| fileName := "bear.png"; fileType := "image/png";
                        fileDataURL := None |}) [] (initialWorld 0) in
  snd res = DDone /\ error (st (fst res)) = MSG_READ_FAILED
  /\ toyImage (st (fst res)) = None /\ toyImageObjectUrlRef (fst res) = None
  /\ sessionState (st (fst res)) = Idle.
Proof. vm_compute. repeat split. Qed.

(** A file that is not a picture: a notice and nothing else. *)
Example non_image_upload_rejected :
  let w := readyWorld 0 in
  let res := handleFileChange
               (Some {| fileName := "notes.txt"; fileType := "text/plain";
                        fileDataURL := Some "data:text/plain;base64,AAAA" |})
               [] w in
  snd res = DDone /\ error (st (fst res)) = MSG_NOT_IMAGE
  /\ setError "" (st (fst res)) = setError "" (st w)
  /\ calls (fst res) = calls w.
Proof. vm_compute. repeat split. Qed.

(** The earlier application clears the picture when the description fails. *)
Lemma Legacy_description_failure_clears_picture err w :
  err <> JNull -> err <> JUndefined ->
  let res := Legacy.handleFileChange_settle (Rejected err) w in
  toyImage (st (fst res)) = None /\ snd res = Legacy.DDone
  /\ error (st (fst res)) <> "".
Proof.
  intros N U. cbn [Legacy.handleFileChange_settle].
  unfold Legacy.describeCatch, Legacy.mentionsQuota.
  destruct err; try congruence;
    match goal with
    | |- context [includes ?a ?b] => destruct (includes a b)
    end; cbn [fst snd]; unfold Legacy.handleError;
    repeat split; observe; discriminate.
Qed.

(** ** Reset while a request is in flight *)

(** The continuation of [sendCommand] takes no notice of a reset: whatever
    world it resumes in, a reply with text is stored. *)
Lemma late_reply_is_stored img p a r t w :
  responseText r = Some t -> nonEmpty (trim t) = true ->
  toyReply (st (fst (sendCommand_settle img p a (Resolved (Some r)) (startOver w))))
  = trim t.
Proof.
  intros T N. rewrite sendCommand_settle_resolved.
  unfold sendFinish. cbn [fst parseResponse]. rewrite T.
  destruct (storeResult_fields (trim t) (findImageData (partsOf r)) (startOver w))
    as (H & _).
  cbv zeta in H. observe. rewrite H, N. reflexivity.
Qed.

(** C9, on the code.  A command is in flight when the session is reset;
    [startOver] aborts the controller and empties the cells.
    - If the call still resolves (the signal sits next to [config], where
      the SDK need not look), the late response stores a reply and an
      action image in the reset session.
    - If the call is rejected as aborted, the rejection is classified as
      transient: a second call is made 1600 ms later for the discarded
      picture, and its response is stored as well.
    - A reset during the description call ends the same way: the late
      response stores a description although no picture is shown. *)
Theorem reset_does_not_stop_late_response :
  let w0 := readyWorld 1000000 in
  let sent := presetClick "dance" w0 in
  let w2 := startOver (advance 500 (fst sent)) in
  let response := Resolved (Some (responseOf (Some "Whee!") [imagePartOf "QUJD"])) in
  let late := sendStep response (snd sent) (advance 500 w2) in
  let retried := sendStep (Rejected abortError) (snd sent) w2 in
  let retried' := sendStep response (snd retried) (advance 700 (fst retried)) in
  let upload := handleFileChange (Some pngFile) [] (initialWorld 0) in
  let w2' := startOver (advance 500 (fst upload)) in
  let late' := describeStep (Resolved (Some (responseOf (Some "A fluffy bear") [])))
                 (snd upload) (advance 500 w2') in
  (exists p, snd sent = SAwaitCall samplePart p 0)
  /\ (In (Abort 0%nat) (log w2) /\ abortControllerRef w2 = None
      /\ toyImage (st w2) = None /\ toyImagePart (st w2) = None
      /\ toyReply (st w2) = "" /\ actionImage (st w2) = None)
  /\ (toyReply (st (fst late)) = "Whee!"
      /\ actionImage (st (fst late)) = Some "data:image/png;base64,QUJD"
      /\ toyImage (st (fst late)) = None)
  /\ (classify abortError = Transient
      /\ (exists p, snd retried = SAwaitCall samplePart p 1)
      /\ length (calls (fst retried)) = 2%nat
      /\ sleeps (fst retried) = [1600]
      /\ toyReply (st (fst retried')) = "Whee!")
  /\ (snd upload = DAwaitCall samplePart 0
      /\ toyImage (st w2') = None /\ toyDescription (st w2') = ""
      /\ toyDescription (st (fst late')) = "A fluffy bear"
      /\ toyImage (st (fst late')) = None).
Proof.
  vm_compute.
  repeat split; try (eexists; reflexivity); auto 20.
Qed.

(** ** The debounce *)

(** Inside the window of the time the closure knows, nothing happens. *)
Lemma canSendNow_inside_window view w :
  clock w - lastSendAt view < DEBOUNCE_MS -> canSendNow view w = (false, w).
Proof.
  intros H. unfold canSendNow.
  destruct (clock w - lastSendAt view <? DEBOUNCE_MS) eqn:L; [reflexivity|].
  apply Z.ltb_ge in L. lia.
Qed.

Lemma sendCommand_begin_inside_window view commandText w :
  clock w - lastSendAt view < DEBOUNCE_MS ->
  sendCommand_begin view commandText w = (w, SDone).
Proof.
  intros H. unfold sendCommand_begin. rewrite (canSendNow_inside_window _ _ H).
  destruct (negb _); [reflexivity|]. now destruct (toyImagePart view).
Qed.

(** An accepted submission records its time. *)
Lemma accepted_records_time view commandText w :
  snd (sendCommand_begin view commandText w) <> SDone ->
  lastSendAt (st (fst (sendCommand_begin view commandText w))) = clock w.
Proof.
  unfold sendCommand_begin, canSendNow.
  destruct (negb _); [intros H; now destruct H|].
  destruct (toyImagePart view) as [img|]; [|intros H; now destruct H].
  destruct (clock w - lastSendAt view <? DEBOUNCE_MS); [intros H; now destruct H|].
  intros _. unfold sendLoop. change (0 <=? SAFE_RETRY_COUNT) with true.
  cbn [fst]. observe. reflexivity.
Qed.

(** For two submissions made through handlers of the render they happen
    in (the buttons and the form), the debounce holds: after an accepted
    submission at time [t], a submission less than 600 ms later that reads
    the recorded time does nothing. *)
Lemma debounce_current_render w1 cmd1 cmd2 w2 :
  snd (sendCommand_begin (st w1) cmd1 w1) <> SDone ->
  lastSendAt (st w2) = lastSendAt (st (fst (sendCommand_begin (st w1) cmd1 w1))) ->
  clock w2 - clock w1 < DEBOUNCE_MS ->
  sendCommand_begin (st w2) cmd2 w2 = (w2, SDone).
Proof.
  intros A L D. apply sendCommand_begin_inside_window.
  rewrite L, (accepted_records_time _ _ _ A). exact D.
Qed.

(** C6, on the code.  The microphone is clicked in a session that has
    sent nothing yet ([lastSendAt] is 0); two seconds later a preset button
    is clicked and its submission is accepted, at time 1002000; 100 ms
    later the recogniser delivers its transcript to the [onresult]
    callback.  That callback runs the [sendCommand] of the render of the
    microphone click, whose [canSendNow] still reads [lastSendAt = 0]: the
    second submission is accepted and a second call goes out, 100 ms after
    the first, while the form, which reads the current state, is refused
    at the same instant. *)
Theorem debounce_bypassed_by_recogniser_callback :
  let w0 := readyWorld 1000000 in
  let mic := handleMicClick w0 in
  let first := presetClick "dance" (advance 2000 (fst mic)) in
  let w1 := advance 100 (fst first) in
  let second := onresult (st w0) "dance" w1 in
  let viaForm := formSubmit w1 in
  snd mic = Some (st w0)
  /\ (exists p, snd first = SAwaitCall samplePart p 0)
  /\ lastSendAt (st (fst first)) = 1002000
  /\ clock w1 - lastSendAt (st (fst first)) = 100
  /\ (exists p, snd second = SAwaitCall samplePart p 0)
  /\ attempts (fst first) = [EvCall]
  /\ attempts (fst second) = [EvCall; EvCall]
  /\ lastSendAt (st (fst second)) = 1002100
  /\ snd viaForm = SDone
  /\ attempts (fst viaForm) = [EvCall].
Proof.
  vm_compute.
  repeat split; try (eexists; reflexivity).
Qed.

(** ** The error notice *)

Lemma existsb_due_app ts t f :
  existsb (fun x => x <=? t) (ts ++ [f]) = existsb (fun x => x <=? t) ts || (f <=? t).
Proof. rewrite existsb_app. cbn. now rewrite orb_false_r. Qed.

Lemma existsb_due_false ts t :
  Forall (fun f => t < f) ts -> existsb (fun x => x <=? t) ts = false.
Proof.
  induction 1 as [|f ts Hf _ IH]; cbn; [reflexivity|].
  rewrite IH, orb_false_r. apply Z.leb_gt. exact Hf.
Qed.

Lemma existsb_due_true ts t f :
  In f ts -> f <= t -> existsb (fun x => x <=? t) ts = true.
Proof.
  intros I L. apply existsb_exists. exists f. split; [exact I|].
  now apply Z.leb_le.
Qed.

(** C8, counterexample.  "A" is raised at time 0 and "B" at time 3000:
    the timeout of "A" fires at 6000 and empties the notice when "B" has
    been displayed for 3000 ms only. *)
Lemma second_notice_cut_short : ~ TimerRestarts.
Proof.
  intros H. specialize (H "A" "B" 0 3000 3000).
  assert (E : error (st (advance 3000 (handleError "B"
                           (advance 3000 (handleError "A" (initialWorld 0)))))) = "")
    by (vm_compute; reflexivity).
  rewrite E in H. unfold ERROR_DISPLAY_MS in H.
  discriminate H; lia.
Qed.

(** C8, as amended.  [handleError] overwrites the notice and adds a timeout
    6 seconds ahead without cancelling the pending ones.  Left alone, the
    notice is gone once the 6 seconds have passed; it stays for the whole
    6 seconds when no earlier timeout falls due in between, and it is
    emptied as soon as an earlier timeout fires. *)
Theorem notice_lifetime :
  forall (m : string) (w : World),
    error (st (handleError m w)) = m
    /\ timers (handleError m w) = (timers w ++ [clock w + 6000])%list
    /\ (forall dt, 6000 <= dt ->
                   error (st (advance dt (handleError m w))) = "")
    /\ (forall dt, dt < 6000 ->
                   Forall (fun f => clock w + dt < f) (timers w) ->
                   error (st (advance dt (handleError m w))) = m)
    /\ (forall dt f, In f (timers w) -> f <= clock w + dt ->
                     error (st (advance dt (handleError m w))) = "").
Proof.
  intros m w. split; [|split; [|split; [|split]]].
  - observe. reflexivity.
  - reflexivity.
  - intros dt H. rewrite error_advance. observe.
    rewrite existsb_due_app.
    assert (L : (clock w + ERROR_DISPLAY_MS <=? clock w + dt) = true)
      by (apply Z.leb_le; unfold ERROR_DISPLAY_MS; lia).
    now rewrite L, orb_true_r.
  - intros dt H F. rewrite error_advance. observe.
    rewrite existsb_due_app, (existsb_due_false _ _ F).
    assert (L : (clock w + ERROR_DISPLAY_MS <=? clock w + dt) = false)
      by (apply Z.leb_gt; unfold ERROR_DISPLAY_MS; lia).
    now rewrite L.
  - intros dt f I L. rewrite error_advance. observe.
    now rewrite existsb_due_app, (existsb_due_true _ _ _ I L).
Qed.

(** A single notice, raised in a quiet session. *)
Lemma notice_lifetime_witness :
  let w := handleError "Please upload an image file." (initialWorld 0) in
  error (st (advance 5999 w)) = "Please upload an image file."
  /\ error (st (advance 6000 w)) = "".
Proof.
  destruct (notice_lifetime "Please upload an image file." (initialWorld 0))
    as (_ & _ & Hgone & Hstay & _).
  split.
  - apply Hstay; [lia | constructor].
  - apply Hgone; lia.
Defined.

(** The earlier application behaves alike, with 5 seconds. *)
Example Legacy_notice_five_seconds :
  let w := Legacy.handleError "x" (initialWorld 0) in
  error (st (advance 4999 w)) = "x" /\ error (st (advance 5000 w)) = ""
  /\ error (st (advance 2000 (Legacy.handleError "y" (advance 3000 w)))) = "".
Proof. vm_compute. repeat split. Qed.

(** ** The earlier application, where it differs *)

(** Its parser keeps the last text part and the last image part, and never
    reads the aggregated text. *)
Example Legacy_parser_takes_last_parts :
  Legacy.scanParts [textPart "one"; imagePartOf "QUJD"; textPart "two";
                    imagePartOf "REVG"] "" ""
  = ("two", "data:image/png;base64,REVG").
Proof. reflexivity. Qed.

(** Its guard lets a command of blanks through. *)
Example Legacy_blank_command_is_sent :
  let res := Legacy.sendCommand_begin (st (readyWorld 0)) (Some "   ") (readyWorld 0) in
  snd res = true /\ length (calls (fst res)) = 1%nat
  /\ isLoadingResponse (st (fst res)) = true.
Proof. vm_compute. repeat split. Qed.

Example Legacy_empty_command_is_noop :
  Legacy.sendCommand_begin (st (readyWorld 0)) (Some "") (readyWorld 0)
  = (readyWorld 0, false).
Proof. reflexivity. Qed.

(** * Further properties of the code *)

(** ** [base64Encode] *)

Lemma split_no_sep sep s : mentions sep s = false -> split sep s = [s].
Proof.
  induction s as [|c r IH]; cbn [mentions split]; [reflexivity|].
  intros H. apply orb_false_iff in H as [E M].
  rewrite E, (IH M). reflexivity.
Qed.

Lemma split_at_first_sep sep pre rest :
  mentions sep pre = false ->
  split sep (pre ++ String sep rest) = pre :: split sep rest.
Proof.
  induction pre as [|c r IH]; cbn [mentions split append].
  - intros _. now rewrite Ascii.eqb_refl.
  - intros H. apply orb_false_iff in H as [E M].
    rewrite E, (IH M). reflexivity.
Qed.

(** [base64Encode] gives back the payload of a data URL: for a result
    [prefix,payload] without further commas it resolves with [payload]
    exactly; a result without any comma resolves with the empty string,
    and a file that cannot be read rejects with "Could not read file.". *)
Theorem base64Encode_strips_prefix :
  forall (f : File) (pre payload : string),
    mentions "," pre = false ->
    mentions "," payload = false ->
    (fileDataURL f = Some (pre ++ "," ++ payload) -> base64Encode f = inl payload)
    /\ (fileDataURL f = Some pre -> base64Encode f = inl "")
    /\ (fileDataURL f = None ->
        base64Encode f = inr (mkError "Could not read file.")
        /\ classify (mkError "Could not read file.") = Transient).
Proof.
  intros f pre payload Hp Hq. unfold base64Encode. split; [|split].
  - intros ->. cbn [append]. rewrite (split_at_first_sep _ _ _ Hp).
    now rewrite (split_no_sep _ _ Hq).
  - intros ->. now rewrite (split_no_sep _ _ Hp).
  - intros ->. split; reflexivity.
Qed.

Lemma base64Encode_strips_prefix_witness :
  mentions "," "data:image/png;base64" = false
  /\ mentions "," "AAAA" = false
  /\ base64Encode pngFile = inl "AAAA".
Proof.
  split; [reflexivity|]. split; [reflexivity|].
  refine (proj1 (base64Encode_strips_prefix pngFile "data:image/png;base64" "AAAA" _ _) _);
    reflexivity.
Defined.

(** ** [startOver] *)

Lemma log_startOver w :
  exists extra,
    log (startOver w) = (log w ++ extra)%list
    /\ filter isCall extra = []
    /\ filter isRelease extra
       = ((match toyImageObjectUrlRef w with Some u => [RevokeObjectURL u] | None => [] end)
          ++ (match abortControllerRef w with Some c => [Abort c] | None => [] end))%list.
Proof.
  destruct w as [s [u|] [a|] c ts fr lg];
    cbv beta iota zeta delta [startOver emit withState setUrlRef setAbortRef log
                                toyImageObjectUrlRef abortControllerRef];
    (eexists; split; [rewrite <- ?app_assoc; cbn [app]; reflexivity
                     | split; reflexivity]).
Qed.

(** [startOver] empties every cell of the session except the two loading
    flags, [isListening] and [lastSendAt]; it leaves the pending timeouts
    in place, makes no call, revokes the object URL it holds and aborts the
    controller it holds, each once, and forgets both; a second reset has
    nothing left to release. *)
Theorem startOver_resets_and_releases :
  forall w : World,
    let w' := startOver w in
    (toyImage (st w') = None /\ toyImagePart (st w') = None
     /\ toyModel (st w') = None /\ toyDescription (st w') = ""
     /\ userCommand (st w') = "" /\ toyReply (st w') = ""
     /\ actionImage (st w') = None /\ error (st w') = "")
    /\ (isLoadingDescription (st w') = isLoadingDescription (st w)
        /\ isLoadingResponse (st w') = isLoadingResponse (st w)
        /\ isListening (st w') = isListening (st w)
        /\ lastSendAt (st w') = lastSendAt (st w)
        /\ timers w' = timers w /\ clock w' = clock w)
    /\ (toyImageObjectUrlRef w' = None /\ abortControllerRef w' = None)
    /\ calls w' = calls w
    /\ releases w'
       = (releases w
          ++ (match toyImageObjectUrlRef w with Some u => [RevokeObjectURL u] | None => [] end)
          ++ (match abortControllerRef w with Some c => [Abort c] | None => [] end))%list
    /\ releases (startOver w') = releases w'
    /\ st (startOver w') = st w'.
Proof.
  intros w w'. subst w'.
  destruct (log_startOver w) as (extra & L & C & R).
  destruct (log_startOver (startOver w)) as (extra' & L' & C' & R').
  rewrite urlRef_startOver, abortRef_startOver in R'. cbn [app] in R'.
  split; [|split; [|split; [|split; [|split; [|split]]]]].
  - repeat split; autorewrite with world; reflexivity.
  - repeat split; autorewrite with world; reflexivity.
  - split; autorewrite with world; reflexivity.
  - unfold calls. rewrite L, filter_app, C. apply app_nil_r.
  - unfold releases. rewrite L, filter_app, R. reflexivity.
  - unfold releases. rewrite L', filter_app, R'. apply app_nil_r.
  - rewrite !st_startOver. destruct (st w). vm_compute. reflexivity.
Qed.

(** ** Uploading: what is refused, what is cleaned up *)

Lemma abortRef_handleError m w :
  abortControllerRef (handleError m w) = abortControllerRef w.
Proof. reflexivity. Qed.

Lemma urlRef_handleError m w :
  toyImageObjectUrlRef (handleError m w) = toyImageObjectUrlRef w.
Proof. reflexivity. Qed.

Lemma abortRef_showPicture f w : abortControllerRef (showPicture f w) = None.
Proof. destruct w as [s [u|] [a|] c ts fr lg]; vm_compute; reflexivity. Qed.

#[global] Hint Rewrite abortRef_handleError urlRef_handleError abortRef_showPicture
  : world.

(** A file input that holds no file, or a file whose MIME type does not
    begin with [image/], does not touch the session: nothing is reset, no
    object URL is made, nothing is read and no call is made; the second
    case shows the notice "Please upload an image file." and nothing
    else. *)
Theorem non_image_upload_changes_nothing :
  forall (f : File) outcomes (w : World),
    startsWith "image/" (fileType f) = false ->
    handleFileChange None outcomes w = (w, DDone)
    /\ let res := handleFileChange (Some f) outcomes w in
       snd res = DDone
       /\ error (st (fst res)) = MSG_NOT_IMAGE
       /\ setError "" (st (fst res)) = setError "" (st w)
       /\ toyImageObjectUrlRef (fst res) = toyImageObjectUrlRef w
       /\ abortControllerRef (fst res) = abortControllerRef w
       /\ log (fst res) = (log w ++ [InitializeAudio; PlaySound errorSound])%list
       /\ timers (fst res) = (timers w ++ [clock w + 6000])%list.
Proof.
  intros f outcomes w T. split; [reflexivity|].
  unfold handleFileChange, handleFileChange_begin. rewrite T. cbn [negb fst snd].
  repeat split; autorewrite with world; reflexivity.
Qed.

Lemma non_image_upload_changes_nothing_witness :
  startsWith "image/" "text/plain" = false
  /\ error (st (fst (handleFileChange
                      (Some {| fileName := "notes.txt"; fileType := "text/plain";
                               fileDataURL := Some "data:text/plain;base64,AAAA" |})
                      [] (readyWorld 0)))) = MSG_NOT_IMAGE.
Proof.
  split; [reflexivity|].
  refine (proj1 (proj2 (proj2 (non_image_upload_changes_nothing
            {| fileName := "notes.txt"; fileType := "text/plain";
               fileDataURL := Some "data:text/plain;base64,AAAA" |} [] (readyWorld 0) _)))).
  reflexivity.
Defined.

Lemma log_showPicture f w :
  log (showPicture f w)
  = (log (startOver w)
     ++ [InitializeAudio; PlaySound click; CreateObjectURL (fresh w); ReadAsDataURL f])%list.
Proof.
  cbv beta iota zeta delta [showPicture newHandle emit withState setUrlRef log fresh].
  fold (log (startOver w)) (fresh (startOver w)).
  rewrite fresh_startOver, <- !app_assoc. reflexivity.
Qed.

(** A picture that cannot be read takes the outer [catch]: the notice
    "Failed to read the image or call the API." is shown, the preview and
    its object URL, made a moment before, are given back, the loading flag
    is cleared and the generation service is never called. *)
Theorem unreadable_picture_is_cleaned_up :
  forall (f : File) outcomes (w : World),
    startsWith "image/" (fileType f) = true ->
    fileDataURL f = None ->
    let res := handleFileChange (Some f) outcomes w in
    snd res = DDone
    /\ error (st (fst res)) = MSG_READ_FAILED
    /\ toyImage (st (fst res)) = None
    /\ toyImagePart (st (fst res)) = None
    /\ isLoadingDescription (st (fst res)) = false
    /\ toyImageObjectUrlRef (fst res) = None
    /\ calls (fst res) = calls w
    /\ releases (fst res)
       = (releases (startOver w) ++ [RevokeObjectURL (fresh w)])%list.
Proof.
  intros f outcomes w T R.
  unfold handleFileChange, handleFileChange_begin. rewrite T. cbn [negb].
  unfold handleFileChange_encoded, base64Encode. rewrite R.
  rewrite urlRef_handleError, urlRef_emit, urlRef_showPicture.
  unfold describeFinish. rewrite runDescribe_done. cbn [fst snd].
  repeat split; try (autorewrite with world; reflexivity).
  - observe. reflexivity.
  - unfold releases. autorewrite with world. rewrite log_showPicture.
    rewrite !filter_app. cbn. now rewrite !app_nil_r.
Qed.

Lemma unreadable_picture_is_cleaned_up_witness :
  startsWith "image/" "image/png" = true
  /\ toyImage (st (fst (handleFileChange
                         (Some {| fileName := "bear.png"; fileType := "image/png";
                                  fileDataURL := None |}) [] (readyWorld 0)))) = None.
Proof.
  split; [reflexivity|].
  refine (proj1 (proj2 (proj2 (unreadable_picture_is_cleaned_up
            {| fileName := "bear.png"; fileType := "image/png"; fileDataURL := None |}
            [] (readyWorld 0) _ _)))); reflexivity.
Defined.

(** Uploading a picture over another one gives the earlier picture's
    object URL back and aborts the request in flight, before the new URL
    is made; the new picture is shown at once under a fresh handle and the
    earlier description, reply and action image are gone. *)
Theorem new_upload_releases_previous_picture :
  forall (f : File) (w : World),
    startsWith "image/" (fileType f) = true ->
    let res := handleFileChange_begin (Some f) w in
    snd res = DAwaitEncode f
    /\ log (fst res)
       = (log (startOver w)
          ++ [InitializeAudio; PlaySound click; CreateObjectURL (fresh w);
              ReadAsDataURL f])%list
    /\ releases (fst res)
       = (releases w
          ++ (match toyImageObjectUrlRef w with Some u => [RevokeObjectURL u] | None => [] end)
          ++ (match abortControllerRef w with Some c => [Abort c] | None => [] end))%list
    /\ toyImageObjectUrlRef (fst res) = Some (fresh w)
    /\ abortControllerRef (fst res) = None
    /\ toyImage (st (fst res)) = Some (fresh w)
    /\ isLoadingDescription (st (fst res)) = true
    /\ toyImagePart (st (fst res)) = None
    /\ toyDescription (st (fst res)) = ""
    /\ toyReply (st (fst res)) = ""
    /\ actionImage (st (fst res)) = None
    /\ calls (fst res) = calls w.
Proof.
  intros f w T. unfold handleFileChange_begin. rewrite T. cbn [negb fst snd].
  destruct (log_startOver w) as (extra & L & C & R).
  repeat split; try (autorewrite with world; reflexivity).
  - apply log_showPicture.
  - unfold releases. rewrite log_showPicture, L, !filter_app, R. cbn.
    now rewrite app_nil_r.
  - unfold calls. autorewrite with world. reflexivity.
Qed.

Lemma new_upload_releases_previous_picture_witness :
  startsWith "image/" (fileType pngFile) = true
  /\ releases (fst (handleFileChange_begin (Some pngFile) (readyWorld 0)))
     = [RevokeObjectURL 0%nat].
Proof.
  split; [reflexivity|].
  refine (proj1 (proj2 (proj2 (new_upload_releases_previous_picture pngFile
                                 (readyWorld 0) _)))).
  reflexivity.
Defined.

(** A description with text is stored as it comes, untrimmed, after a
    single call; no notice is shown and the session is Ready. *)
Theorem description_is_stored_verbatim :
  forall f url r t latency rest w,
    startsWith "image/" (fileType f) = true ->
    fileDataURL f = Some url ->
    responseText r = Some t ->
    nonEmpty t = true ->
    isLoadingResponse (st w) = false ->
    let res := handleFileChange (Some f) ((latency, Resolved (Some r)) :: rest) w in
    snd res = DDone
    /\ toyDescription (st (fst res)) = t
    /\ sessionState (st (fst res)) = Ready
    /\ error (st (fst res)) = ""
    /\ attempts (fst res) = (attempts w ++ [EvCall])%list
    /\ abortControllerRef (fst res) = None.
Proof.
  intros f url r t latency rest w I R T N L.
  rewrite (handleFileChange_begin_accepted _ _ _ _ I R).
  cbn [runDescribe describeStep handleFileChange_settle].
  rewrite T, N. unfold describeFinish. rewrite runDescribe_done. cbn [fst snd].
  unfold sessionState.
  repeat split; observe; try reflexivity.
  - now rewrite L.
  - apply error_advance_empty. observe. reflexivity.
Qed.

Lemma description_is_stored_verbatim_witness :
  startsWith "image/" (fileType pngFile) = true
  /\ fileDataURL pngFile = Some "data:image/png;base64,AAAA"
  /\ responseText (responseOf (Some " A fluffy bear ") []) = Some " A fluffy bear "
  /\ nonEmpty " A fluffy bear " = true
  /\ isLoadingResponse (st (initialWorld 0)) = false
  /\ toyDescription
       (st (fst (handleFileChange (Some pngFile)
                   [(100, Resolved (Some (responseOf (Some " A fluffy bear ") [])))]
                   (initialWorld 0))))
     = " A fluffy bear ".
Proof.
  repeat (split; [reflexivity|]).
  refine (proj1 (proj2 (description_is_stored_verbatim pngFile
                          "data:image/png;base64,AAAA"
                          (responseOf (Some " A fluffy bear ") []) " A fluffy bear "
                          100 [] (initialWorld 0) _ _ _ _ _))); reflexivity.
Defined.

(** ** The retry loops, whatever the service answers *)

Lemma setError_advance dt w :
  setError "" (st (advance dt w)) = setError "" (st w).
Proof. rewrite st_advance. destruct (existsb _ _); now destruct (st w). Qed.

Lemma allTransient_app fs rest :
  allTransient (fs ++ rest) = allTransient fs && allTransient rest.
Proof. unfold allTransient. apply forallb_app. Qed.

(** [n] transient failures in a row, while retries remain, bring the
    command loop to attempt [a + n] after the [n] backoff sleeps; nothing
    is stored and no notice is raised on the way. *)
Lemma runSend_transient_prefix (n : nat) :
  forall a fails rest img p w,
    length fails = n ->
    allTransient fails = true ->
    a + Z.of_nat n <= SAFE_RETRY_COUNT ->
    exists w',
      runSend (fails ++ rest) (SAwaitCall img p a) w
      = runSend rest (SAwaitCall img p (a + Z.of_nat n)) w'
      /\ attempts w'
         = (attempts w ++ flat_map (fun ms => [EvSleep ms; EvCall]) (backoffs a n))%list
      /\ setError "" (st w') = setError "" (st w)
      /\ (error (st w) = "" -> error (st w') = "").
Proof.
  induction n as [|n IH]; intros a fails rest img p w Hl T Ha;
    destruct fails as [|[l o] fs]; cbn [length] in Hl; try discriminate.
  - exists w. rewrite Z.add_0_r. cbn [app backoffs seq map flat_map].
    rewrite app_nil_r. auto.
  - destruct (allTransient_cons _ _ _ T) as (e & -> & Q & T').
    cbn [app runSend]. rewrite sendStep_retry by (assumption || lia).
    match goal with
    | |- context [runSend (fs ++ rest) _ ?w1] =>
        destruct (IH (a + 1) fs rest img p w1 ltac:(lia) T' ltac:(lia))
          as (w' & Hrun & Hatt & Hst & Herr)
    end.
    exists w'. split; [|split; [|split]].
    + rewrite Hrun. do 2 f_equal. lia.
    + rewrite Hatt, backoffs_S. observe. now rewrite <- !app_assoc.
    + rewrite Hst. autorewrite with world. rewrite setError_advance.
      autorewrite with world. apply setError_advance.
    + intros E. apply Herr. autorewrite with world.
      apply error_advance_empty. autorewrite with world.
      now apply error_advance_empty.
Qed.

Lemma runDescribe_transient_prefix (n : nat) :
  forall a fails rest ip w,
    length fails = n ->
    allTransient fails = true ->
    a + Z.of_nat n <= SAFE_RETRY_COUNT ->
    exists w',
      runDescribe (fails ++ rest) (DAwaitCall ip a) w
      = runDescribe rest (DAwaitCall ip (a + Z.of_nat n)) w'
      /\ attempts w'
         = (attempts w ++ flat_map (fun ms => [EvSleep ms; EvCall]) (backoffs a n))%list
      /\ setError "" (st w') = setError "" (st w)
      /\ (error (st w) = "" -> error (st w') = "").
Proof.
  induction n as [|n IH]; intros a fails rest ip w Hl T Ha;
    destruct fails as [|[l o] fs]; cbn [length] in Hl; try discriminate.
  - exists w. rewrite Z.add_0_r. cbn [app backoffs seq map flat_map].
    rewrite app_nil_r. auto.
  - destruct (allTransient_cons _ _ _ T) as (e & -> & Q & T').
    cbn [app runDescribe]. rewrite describeStep_retry by (assumption || lia).
    match goal with
    | |- context [runDescribe (fs ++ rest) _ ?w1] =>
        destruct (IH (a + 1) fs rest ip w1 ltac:(lia) T' ltac:(lia))
          as (w' & Hrun & Hatt & Hst & Herr)
    end.
    exists w'. split; [|split; [|split]].
    + rewrite Hrun. do 2 f_equal. lia.
    + rewrite Hatt, backoffs_S. observe. now rewrite <- !app_assoc.
    + rewrite Hst. autorewrite with world. rewrite setError_advance.
      autorewrite with world. apply setError_advance.
    + intros E. apply Herr. autorewrite with world.
      apply error_advance_empty. autorewrite with world.
      now apply error_advance_empty.
Qed.

Lemma storeResult_attempts found w : attempts (storeResult found w) = attempts w.
Proof.
  destruct found as [foundText foundImageData]. unfold storeResult.
  destruct (nonEmpty foundText), (nonEmpty foundImageData); cbn [negb andb];
    observe; reflexivity.
Qed.

(** A call that succeeds after one or two transient failures is as good as
    one that succeeds at once: the reply (or the description) is stored, no
    notice is shown, the loading flag is cleared, and the trace is the
    first call followed by one backoff sleep and one call per failure. *)
Theorem retry_recovers_from_transient_failures :
  forall (fails : list (Z * Outcome)),
    allTransient fails = true ->
    (length fails <= 2)%nat ->
    (forall view cmd img w latency r t rest,
        nonEmpty (trim cmd) = true ->
        toyImagePart view = Some img ->
        DEBOUNCE_MS <= clock w - lastSendAt view ->
        responseText r = Some t ->
        nonEmpty (trim t) = true ->
        let res := sendCommand view (Some cmd)
                     (fails ++ (latency, Resolved (Some r)) :: rest) w in
        snd res = SDone
        /\ toyReply (st (fst res)) = trim t
        /\ error (st (fst res)) = ""
        /\ isLoadingResponse (st (fst res)) = false
        /\ attempts (fst res)
           = (attempts w ++ EvCall
              :: flat_map (fun ms => [EvSleep ms; EvCall]) (backoffs 0 (length fails)))%list)
    /\ (forall f url w latency r t rest,
           startsWith "image/" (fileType f) = true ->
           fileDataURL f = Some url ->
           responseText r = Some t ->
           nonEmpty t = true ->
           let res := handleFileChange (Some f)
                        (fails ++ (latency, Resolved (Some r)) :: rest) w in
           snd res = DDone
           /\ toyDescription (st (fst res)) = t
           /\ error (st (fst res)) = ""
           /\ isLoadingDescription (st (fst res)) = false
           /\ attempts (fst res)
              = (attempts w ++ EvCall
                 :: flat_map (fun ms => [EvSleep ms; EvCall])
                      (backoffs 0 (length fails)))%list).
Proof.
  intros fails T L. split.
  - intros view cmd img w latency r t rest N I D Rt Nt.
    unfold sendCommand. rewrite (sendCommand_begin_accepted _ _ _ _ N I D).
    match goal with
    | |- context [runSend _ (SAwaitCall img ?p 0) ?w0] =>
        destruct (runSend_transient_prefix (length fails) 0 fails
                    ((latency, Resolved (Some r)) :: rest) img p w0 eq_refl T
                    ltac:(unfold SAFE_RETRY_COUNT; lia))
          as (w' & Hrun & Hatt & Hst & Herr)
    end.
    rewrite Hrun. cbn [runSend sendStep]. rewrite sendCommand_settle_resolved.
    unfold sendFinish. rewrite runSend_done. cbn [fst snd parseResponse]. rewrite Rt.
    destruct (storeResult_fields (trim t) (findImageData (partsOf r)) (advance latency w'))
      as (Hr & _ & He & _ & _).
    pose proof (storeResult_attempts (trim t, findImageData (partsOf r))
                  (advance latency w')) as Ha.
    cbv zeta in *. rewrite Nt in *. cbn [orb] in He.
    repeat split; autorewrite with world.
    + exact Hr.
    + rewrite He. apply error_advance_empty, Herr. observe. reflexivity.
    + unfold attempts in *. autorewrite with world. rewrite Ha.
      autorewrite with world. rewrite Hatt. observe. now rewrite <- !app_assoc.
  - intros f url w latency r t rest I R Rt Nt.
    rewrite (handleFileChange_begin_accepted _ _ _ _ I R).
    match goal with
    | |- context [runDescribe _ (DAwaitCall ?ip 0) ?w0] =>
        destruct (runDescribe_transient_prefix (length fails) 0 fails
                    ((latency, Resolved (Some r)) :: rest) ip w0 eq_refl T
                    ltac:(unfold SAFE_RETRY_COUNT; lia))
          as (w' & Hrun & Hatt & Hst & Herr)
    end.
    rewrite Hrun. cbn [runDescribe describeStep handleFileChange_settle].
    rewrite Rt, Nt. unfold describeFinish. rewrite runDescribe_done. cbn [fst snd].
    repeat split; autorewrite with world; try reflexivity.
    + apply error_advance_empty, Herr. observe. reflexivity.
    + unfold attempts in *. autorewrite with world.
      rewrite flat_map_app, Hatt. observe. now rewrite <- !app_assoc.
Qed.

(** One failure, then "Whee!". *)
Lemma retry_recovers_from_transient_failures_witness :
  allTransient (failing 1 "Failed to fetch") = true
  /\ (length (failing 1 "Failed to fetch") <= 2)%nat
  /\ let res := sendCommand (st (readyWorld 1000000)) (Some "dance")
                  (failing 1 "Failed to fetch"
                   ++ [(100, Resolved (Some (responseOf (Some "Whee!") [])))])
                  (readyWorld 1000000) in
     toyReply (st (fst res)) = "Whee!" /\ error (st (fst res)) = "".
Proof.
  split; [vm_compute; reflexivity|]. split; [vm_compute; lia|].
  destruct (proj1 (retry_recovers_from_transient_failures (failing 1 "Failed to fetch")
                     ltac:(vm_compute; reflexivity) ltac:(vm_compute; lia))
              (st (readyWorld 1000000)) "dance" samplePart (readyWorld 1000000) 100
              (responseOf (Some "Whee!") []) "Whee!" []
              ltac:(vm_compute; reflexivity) ltac:(vm_compute; reflexivity)
              ltac:(vm_compute; discriminate) ltac:(reflexivity)
              ltac:(vm_compute; reflexivity))
    as (_ & Hr & He & _).
  split; [exact Hr | exact He].
Defined.

Lemma sendStep_resolved img p a response w :
  sendStep (Resolved response) (SAwaitCall img p a) w
  = sendFinish (setAbortRef None (storeResult (parseResponse response) w)).
Proof. reflexivity. Qed.

(** However the calls end, the command loop started at attempt [2 - n]
    is over after at most [n + 1] of them. *)
Lemma runSend_bounded (n : nat) :
  forall a outcomes img p w,
    a = SAFE_RETRY_COUNT - Z.of_nat n ->
    (S n <= length outcomes)%nat ->
    let r := runSend outcomes (SAwaitCall img p a) w in
    snd r = SDone
    /\ (length (calls (fst r)) <= length (calls w) + n)%nat
    /\ isLoadingResponse (st (fst r)) = false
    /\ abortControllerRef (fst r) = None.
Proof.
  induction n as [|n IH]; intros a outcomes img p w Ha L;
    destruct outcomes as [|[l o] rest]; cbn [length] in L; try lia;
    cbn [runSend];
    (destruct o as [response|e];
     [rewrite sendStep_resolved; unfold sendFinish; rewrite runSend_done;
      cbn [fst snd];
      destruct (storeResult_fields (fst (parseResponse response))
                  (snd (parseResponse response)) (advance l w))
        as (_ & _ & _ & Hc & _);
      rewrite <- surjective_pairing in Hc; cbv zeta in Hc;
      repeat split; autorewrite with world; try reflexivity;
      unfold calls in *; autorewrite with world; rewrite Hc;
      autorewrite with world; lia
     | destruct (isQuotaError e) eqn:Q;
       [rewrite sendStep_fatal by exact Q; unfold sendFinish; rewrite runSend_done;
        cbn [fst snd]; repeat split; observe; try reflexivity; lia|]]).
  - rewrite sendStep_exhausted by (assumption || lia).
    unfold sendFinish. rewrite runSend_done. cbn [fst snd].
    repeat split; observe; try reflexivity; lia.
  - rewrite sendStep_retry by (assumption || lia).
    match goal with
    | |- context [runSend rest _ ?w1] =>
        destruct (IH (a + 1) rest img p w1 ltac:(lia) ltac:(lia)) as (D & C & F & A)
    end.
    repeat split; [exact D | | exact F | exact A].
    etransitivity; [exact C|]. observe. lia.
Qed.

Lemma describeStep_resolved_none ip a w :
  describeStep (Resolved None) (DAwaitCall ip a) w
  = describeStep (Rejected typeErrorText) (DAwaitCall ip a) w.
Proof. reflexivity. Qed.

Lemma typeErrorText_transient : isQuotaError typeErrorText = false.
Proof. vm_compute. reflexivity. Qed.

Lemma describeStep_rejected_bounded (n : nat)
  (IH : forall a outcomes ip w,
      a = SAFE_RETRY_COUNT - Z.of_nat n ->
      (S n <= length outcomes)%nat ->
      let r := runDescribe outcomes (DAwaitCall ip a) w in
      snd r = DDone
      /\ (length (calls (fst r)) <= length (calls w) + n)%nat
      /\ isLoadingDescription (st (fst r)) = false
      /\ abortControllerRef (fst r) = None) :
  forall a e rest ip w,
    a + 1 = SAFE_RETRY_COUNT - Z.of_nat n ->
    (S n <= length rest)%nat ->
    let s := describeStep (Rejected e) (DAwaitCall ip a) w in
    let r := runDescribe rest (snd s) (fst s) in
    snd r = DDone
    /\ (length (calls (fst r)) <= length (calls w) + S n)%nat
    /\ isLoadingDescription (st (fst r)) = false
    /\ abortControllerRef (fst r) = None.
Proof.
  intros a e rest ip w Ha L.
  destruct (isQuotaError e) eqn:Q.
  - rewrite describeStep_fatal by exact Q. unfold describeFinish.
    cbn [fst snd]. rewrite runDescribe_done. cbn [fst snd].
    repeat split; observe; try reflexivity; lia.
  - rewrite describeStep_retry by (assumption || lia). cbn [fst snd].
    match goal with
    | |- context [runDescribe rest _ ?w1] =>
        destruct (IH (a + 1) rest ip w1 ltac:(lia) ltac:(lia)) as (D & C & F & A)
    end.
    repeat split; [exact D | | exact F | exact A].
    etransitivity; [exact C|]. observe. lia.
Qed.

Lemma describeStep_rejected_last e ip w rest :
  let s := describeStep (Rejected e) (DAwaitCall ip SAFE_RETRY_COUNT) w in
  let r := runDescribe rest (snd s) (fst s) in
  snd r = DDone
  /\ (length (calls (fst r)) <= length (calls w) + 0)%nat
  /\ isLoadingDescription (st (fst r)) = false
  /\ abortControllerRef (fst r) = None.
Proof.
  destruct (isQuotaError e) eqn:Q.
  - rewrite describeStep_fatal by exact Q. unfold describeFinish.
    cbn [fst snd]. rewrite runDescribe_done. cbn [fst snd].
    repeat split; observe; try reflexivity; lia.
  - rewrite describeStep_exhausted by (assumption || (unfold SAFE_RETRY_COUNT; lia)).
    unfold describeFinish. cbn [fst snd]. rewrite runDescribe_done. cbn [fst snd].
    repeat split; observe; try reflexivity; lia.
Qed.

Lemma describeStep_resolved_some ip a response w rest :
  let s := describeStep (Resolved (Some response)) (DAwaitCall ip a) w in
  let r := runDescribe rest (snd s) (fst s) in
  snd r = DDone
  /\ calls (fst r) = calls w
  /\ isLoadingDescription (st (fst r)) = false
  /\ abortControllerRef (fst r) = None.
Proof.
  cbn [describeStep handleFileChange_settle]. unfold describeFinish.
  destruct (nonEmpty _); cbn [fst snd]; rewrite runDescribe_done; cbn [fst snd];
    repeat split; observe; reflexivity.
Qed.

Lemma runDescribe_bounded (n : nat) :
  forall a outcomes ip w,
    a = SAFE_RETRY_COUNT - Z.of_nat n ->
    (S n <= length outcomes)%nat ->
    let r := runDescribe outcomes (DAwaitCall ip a) w in
    snd r = DDone
    /\ (length (calls (fst r)) <= length (calls w) + n)%nat
    /\ isLoadingDescription (st (fst r)) = false
    /\ abortControllerRef (fst r) = None.
Proof.
  induction n as [|n IH]; intros a outcomes ip w Ha L;
    destruct outcomes as [|[l o] rest]; cbn [length] in L; try lia;
    cbn [runDescribe];
    destruct (describeStep o (DAwaitCall ip a) (advance l w)) as [w1 t1] eqn:S1;
    assert (Hc : calls (advance l w) = calls w) by (observe; reflexivity).
  - destruct o as [[response|]|e].
    + pose proof (describeStep_resolved_some ip a response (advance l w) rest) as H.
      cbv zeta in H. rewrite S1 in H. cbn [fst snd] in H.
      destruct H as (D & C & F & A). rewrite C, Hc. repeat split; auto; lia.
    + rewrite describeStep_resolved_none in S1. subst a.
      pose proof (describeStep_rejected_last typeErrorText ip (advance l w) rest) as H.
      cbv zeta in H. replace (SAFE_RETRY_COUNT - Z.of_nat 0) with SAFE_RETRY_COUNT in S1 by lia.
      rewrite S1 in H. cbn [fst snd] in H. rewrite Hc in H. exact H.
    + subst a.
      pose proof (describeStep_rejected_last e ip (advance l w) rest) as H.
      cbv zeta in H. replace (SAFE_RETRY_COUNT - Z.of_nat 0) with SAFE_RETRY_COUNT in S1 by lia.
      rewrite S1 in H. cbn [fst snd] in H. rewrite Hc in H. exact H.
  - destruct o as [[response|]|e].
    + pose proof (describeStep_resolved_some ip a response (advance l w) rest) as H.
      cbv zeta in H. rewrite S1 in H. cbn [fst snd] in H.
      destruct H as (D & C & F & A). rewrite C, Hc. repeat split; auto; lia.
    + rewrite describeStep_resolved_none in S1.
      pose proof (describeStep_rejected_bounded n IH a typeErrorText rest ip (advance l w)
                    ltac:(lia) ltac:(lia)) as H.
      cbv zeta in H. rewrite S1 in H. cbn [fst snd] in H. rewrite Hc in H. exact H.
    + pose proof (describeStep_rejected_bounded n IH a e rest ip (advance l w)
                    ltac:(lia) ltac:(lia)) as H.
      cbv zeta in H. rewrite S1 in H. cbn [fst snd] in H. rewrite Hc in H. exact H.
Qed.

(** Whatever the generation service answers (success, empty response,
    fatal or transient error, in any order), a command and an upload are
    over after at most three calls: nothing is left pending, the loading
    flag is cleared and the abort controller forgotten. *)
Theorem handlers_make_at_most_three_calls :
  forall (outcomes : list (Z * Outcome)),
    (3 <= length outcomes)%nat ->
    (forall view commandText w,
        let r := sendCommand view commandText outcomes w in
        snd r = SDone
        /\ (length (calls (fst r)) <= length (calls w) + 3)%nat
        /\ (fst (sendCommand_begin view commandText w) <> w ->
            isLoadingResponse (st (fst r)) = false
            /\ abortControllerRef (fst r) = None))
    /\ (forall file w,
           let r := handleFileChange file outcomes w in
           snd r = DDone
           /\ (length (calls (fst r)) <= length (calls w) + 3)%nat
           /\ (forall f, file = Some f -> startsWith "image/" (fileType f) = true ->
                         isLoadingDescription (st (fst r)) = false
                         /\ abortControllerRef (fst r) = None)).
Proof.
  intros outcomes L. split.
  - intros view commandText w. unfold sendCommand.
    assert (B : sendCommand_begin view commandText w = (w, SDone)
                \/ exists img p w0,
                    sendCommand_begin view commandText w
                    = (issueCall "gemini-2.5-flash-image-preview" img p w0,
                       SAwaitCall img p 0)
                    /\ calls w0 = calls w).
    { unfold sendCommand_begin, canSendNow.
      destruct (negb _); [now left|].
      destruct (toyImagePart view) as [img|]; [|now left].
      destruct (clock w - lastSendAt view <? DEBOUNCE_MS); [now left|].
      right. unfold sendLoop. change (0 <=? SAFE_RETRY_COUNT) with true.
      cbv iota. eexists _, _, _. split; [reflexivity|]. observe. reflexivity. }
    destruct B as [B | (img & p & w0 & B & C0)]; rewrite B.
    + rewrite runSend_done. cbn [fst snd]. repeat split; try lia.
      all: now destruct H.
    + destruct (runSend_bounded 2 0 outcomes img p
                  (issueCall "gemini-2.5-flash-image-preview" img p w0) eq_refl L)
        as (D & C & F & A).
      cbn [fst]. repeat split; [exact D | | exact F | exact A].
      etransitivity; [exact C|]. observe. unfold calls in C0. rewrite C0. lia.
  - intros file w. destruct file as [f|]; [|cbn; repeat split; try lia; discriminate].
    destruct (startsWith "image/" (fileType f)) eqn:T.
    + destruct (fileDataURL f) as [url|] eqn:R.
      * rewrite (handleFileChange_begin_accepted _ _ _ _ T R).
        match goal with
        | |- context [runDescribe outcomes (DAwaitCall ?ip 0) ?w0] =>
            destruct (runDescribe_bounded 2 0 outcomes ip w0 eq_refl L)
              as (D & C & F & A)
        end.
        repeat split; [exact D | | exact F | exact A].
        etransitivity; [exact C|]. observe. lia.
      * unfold handleFileChange, handleFileChange_begin. rewrite T. cbn [negb].
        unfold handleFileChange_encoded, base64Encode. rewrite R.
        rewrite urlRef_handleError, urlRef_emit, urlRef_showPicture.
        unfold describeFinish. rewrite runDescribe_done. cbn [fst snd].
        repeat split; try (autorewrite with world; reflexivity).
        observe. lia.
    + unfold handleFileChange, handleFileChange_begin. rewrite T. cbn [negb fst snd].
      repeat split; try (observe; lia).
      all: match goal with
           | E : Some _ = Some _ |- _ => injection E as <-; congruence
           end.
Qed.

(** Two network failures, then a quota error. *)
Lemma handlers_make_at_most_three_calls_witness :
  let outcomes := (failing 2 "Failed to fetch"
                   ++ [(100, Rejected (mkError "Quota exceeded"))])%list in
  (3 <= length outcomes)%nat
  /\ snd (sendCommand (st (readyWorld 1000000)) (Some "dance") outcomes
            (readyWorld 1000000)) = SDone.
Proof.
  split; [vm_compute; lia|].
  refine (proj1 (proj1 (handlers_make_at_most_three_calls
                          (failing 2 "Failed to fetch"
                           ++ [(100, Rejected (mkError "Quota exceeded"))])%list _)
                   (st (readyWorld 1000000)) (Some "dance") (readyWorld 1000000))).
  vm_compute; lia.
Defined.

(** ** The classifier, once more *)

Lemma toLowerCase_app (a b : string) :
  toLowerCase (a ++ b) = toLowerCase a ++ toLowerCase b.
Proof. induction a as [|c a IH]; cbn [append toLowerCase]; now rewrite ?IH. Qed.

Lemma Contains_embedded (kw s pre post : string) :
  Contains kw s -> Contains kw (pre ++ s ++ post).
Proof.
  intros (p & q & ->). exists (pre ++ p), (q ++ post).
  now rewrite !append_assoc.
Qed.

Lemma isQuotaError_JString (s : string) :
  isQuotaError (JString s) = existsb (fun kw => includes kw (toLowerCase s)) keywords.
Proof. apply (isQuotaError_existsb (JString s)). Qed.

(** The classifier looks at the [message] of an error object and at
    nothing else of it, falls back on the rendering of the object when the
    message is empty or missing, does not tell upper case from lower case,
    and keeps calling a text fatal when it is wrapped in more text.  The
    keyword "rate limit" never decides: a text that holds it holds
    "limit". *)
Theorem classifier_reads_message_only :
  forall (m r : string),
    (nonEmpty m = true ->
     isQuotaError (JObject (JString m) r) = isQuotaError (JString m))
    /\ isQuotaError (JObject (JString "") r) = isQuotaError (JString r)
    /\ isQuotaError (JObject JUndefined r) = isQuotaError (JString r)
    /\ (forall m', toLowerCase m = toLowerCase m' ->
                   isQuotaError (JString m) = isQuotaError (JString m'))
    /\ (forall pre post, isQuotaError (JString m) = true ->
                         isQuotaError (JString (pre ++ m ++ post)) = true)
    /\ (forall err,
           isQuotaError err
           = existsb (fun kw => includes kw (toLowerCase (stringified err)))
               ["quota"; "limit"; "exceeded"; "429"]).
Proof.
  intros m r. split; [|split; [|split; [|split; [|split]]]].
  - intros N. rewrite !isQuotaError_existsb. unfold stringified.
    cbn [messageOf jsOr truthy toStr]. unfold jsOr. cbn [truthy]. now rewrite N.
  - rewrite !isQuotaError_existsb. reflexivity.
  - rewrite !isQuotaError_existsb. reflexivity.
  - intros m' E. rewrite !isQuotaError_JString. now rewrite E.
  - intros pre post. rewrite !isQuotaError_JString, !existsb_exists.
    intros (kw & Hin & H). exists kw. split; [exact Hin|].
    apply includes_spec. apply includes_spec in H.
    rewrite !toLowerCase_app. now apply Contains_embedded.
  - intros err. rewrite isQuotaError_existsb. unfold keywords. cbn [existsb].
    destruct (includes "rate limit" (toLowerCase (stringified err))) eqn:R;
      [|now rewrite !orb_false_r, ?orb_false_l].
    rewrite (rate_limit_subsumed _ R). now rewrite !orb_true_r.
Qed.

(** ** [handleModelChange] *)

Lemma endsWith_spec (suffix s : string) :
  endsWith suffix s = true <-> exists pre, s = pre ++ suffix.
Proof.
  split.
  - induction s as [|c r IH]; cbn [endsWith]; rewrite orb_true_iff; intros [H|H].
    + apply String.eqb_eq in H. now exists "".
    + discriminate.
    + apply String.eqb_eq in H. now exists "".
    + destruct (IH H) as [pre ->]. now exists (String c pre).
  - intros [pre ->]. induction pre as [|c pre IH].
    + cbn [append]. destruct suffix; cbn [endsWith]; now rewrite String.eqb_refl.
    + cbn [append endsWith]. rewrite IH. apply orb_true_r.
Qed.

Lemma toLowerCase_split (s a b : string) :
  toLowerCase s = a ++ b ->
  exists s1 s2, s = s1 ++ s2 /\ toLowerCase s1 = a /\ toLowerCase s2 = b.
Proof.
  revert s. induction a as [|x a IH]; intros s H.
  - now exists "", s.
  - destruct s as [|c s]; [discriminate|]. cbn [toLowerCase append] in H.
    injection H as Hc Hs. destruct (IH s Hs) as (s1 & s2 & -> & <- & <-).
    exists (String c s1), s2. cbn [append toLowerCase]. now rewrite Hc.
Qed.

Lemma glb_suffix_any_case (name : string) :
  endsWith ".glb" (toLowerCase name) = true
  <-> exists base ext, name = base ++ ext /\ toLowerCase ext = ".glb".
Proof.
  rewrite endsWith_spec. split.
  - intros [pre H]. destruct (toLowerCase_split _ _ _ H) as (s1 & s2 & -> & _ & E).
    now exists s1, s2.
  - intros (base & ext & -> & E). exists (toLowerCase base).
    now rewrite toLowerCase_app, E.
Qed.

(** A model file is taken on its name alone: it is stored exactly when the
    name ends in [.glb] in any mix of upper and lower case, and refused
    with a notice otherwise; its type and its content are not looked at,
    nothing is read and no call is made.  The earlier file compared the
    name as it is and took [.glb] in lower case only. *)
Theorem model_upload_checks_name_only :
  forall (f : File) (w : World),
    ((exists base ext, fileName f = base ++ ext /\ toLowerCase ext = ".glb") ->
     handleModelChange (Some f) w = withState (setToyModel (Some f)) w)
    /\ (~ (exists base ext, fileName f = base ++ ext /\ toLowerCase ext = ".glb") ->
        handleModelChange (Some f) w = handleError MSG_NOT_GLB w)
    /\ ((exists base, fileName f = base ++ ".glb") ->
        LegacyUpload.handleModelChange (Some f) w = withState (setToyModel (Some f)) w)
    /\ (~ (exists base, fileName f = base ++ ".glb") ->
        LegacyUpload.handleModelChange (Some f) w = Legacy.handleError MSG_NOT_GLB w)
    /\ (forall g, fileName g = fileName f ->
                  error (st (handleModelChange (Some g) w))
                  = error (st (handleModelChange (Some f) w)))
    /\ toyImage (st (handleModelChange (Some f) w)) = toyImage (st w)
    /\ filter (fun e => match e with
                        | InitializeAudio | PlaySound _ => false
                        | _ => true
                        end) (log (handleModelChange (Some f) w))
       = filter (fun e => match e with
                          | InitializeAudio | PlaySound _ => false
                          | _ => true
                          end) (log w).
Proof.
  intros f w. unfold handleModelChange, LegacyUpload.handleModelChange.
  split; [|split; [|split; [|split; [|split; [|split]]]]].
  - intros H. apply glb_suffix_any_case in H. now rewrite H.
  - intros H. destruct (endsWith ".glb" (toLowerCase (fileName f))) eqn:E;
      [|reflexivity].
    apply glb_suffix_any_case in E. contradiction.
  - intros H. apply endsWith_spec in H. now rewrite H.
  - intros H. destruct (endsWith ".glb" (fileName f)) eqn:E; [|reflexivity].
    apply endsWith_spec in E. contradiction.
  - intros g ->. destruct (endsWith _ _); cbn [negb]; autorewrite with world;
      reflexivity.
  - destruct (endsWith _ _); cbn [negb]; autorewrite with world; reflexivity.
  - destruct (endsWith _ _); cbn [negb]; autorewrite with world;
      rewrite ?filter_app; cbn [filter]; now rewrite ?app_nil_r.
Qed.

(** A name in capitals: taken now, refused by the earlier file. *)
Example model_upload_capitals :
  let f := {| fileName := "BEAR.GLB"; fileType := ""; fileDataURL := None |} in
  toyModel (st (handleModelChange (Some f) (initialWorld 0))) = Some f
  /\ toyModel (st (LegacyUpload.handleModelChange (Some f) (initialWorld 0))) = None
  /\ error (st (LegacyUpload.handleModelChange (Some f) (initialWorld 0))) = MSG_NOT_GLB.
Proof. vm_compute. repeat split. Qed.

(** ** What the two loops leave alone *)

Lemma urlRef_issueCall model img p w :
  toyImageObjectUrlRef (issueCall model img p w) = toyImageObjectUrlRef w.
Proof. reflexivity. Qed.

#[global] Hint Rewrite urlRef_issueCall : world.


Ltac frame :=
  unfold besideCommand, besideDescription, urlView, created, revoked;
  autorewrite with world;
  rewrite ?flat_map_app; cbn [flat_map createdOf revokedOf app];
  rewrite ?app_nil_r; reflexivity.

Lemma besideCommand_sendStep o t w :
  besideCommand (fst (sendStep o t w)) = besideCommand w.
Proof.
  destruct t as [img p a|img p a ms|]; [|reflexivity|reflexivity].
  cbn [sendStep]. destruct o as [response|e].
  - rewrite sendCommand_settle_resolved. unfold sendFinish, storeResult. cbn [fst].
    destruct (parseResponse response) as [t i].
    destruct (nonEmpty t), (nonEmpty i); cbn [negb andb]; frame.
  - cbn [sendCommand_settle]. unfold sendCatch, sendFinish.
    destruct (isQuotaError e); [cbn [fst]; frame|].
    destruct (a + 1 >? SAFE_RETRY_COUNT); [cbn [fst]; frame|].
    unfold sendCommand_wake, sendLoop, sendFinish.
    destruct (a + 1 <=? SAFE_RETRY_COUNT); cbn [fst]; frame.
Qed.

Lemma besideCommand_runSend outcomes :
  forall t w, besideCommand (fst (runSend outcomes t w)) = besideCommand w.
Proof.
  induction outcomes as [|[l o] rest IH]; intros t w; [reflexivity|].
  cbn [runSend]. destruct t as [img p a|img p a ms|]; try reflexivity.
  destruct (sendStep o (SAwaitCall img p a) (advance l w)) as [w1 t1] eqn:S1.
  rewrite IH. change w1 with (fst (w1, t1)). rewrite <- S1.
  rewrite besideCommand_sendStep. frame.
Qed.

Lemma besideDescription_describeStep o t w :
  besideDescription (fst (describeStep o t w)) = besideDescription w.
Proof.
  destruct t as [f|ip a|ip a ms|]; try reflexivity.
  cbn [describeStep].
  assert (C : forall e,
             besideDescription
               (fst (match describeCatch ip a e w with
                     | (w1, DAwaitSleep ip' a' ms) =>
                         handleFileChange_wake ip' a' (advance ms w1)
                     | r => r
                     end)) = besideDescription w).
  { intros e. unfold describeCatch, describeFinish.
    destruct (isQuotaError e); [cbn [fst]; frame|].
    destruct (a + 1 >? SAFE_RETRY_COUNT); [cbn [fst]; frame|].
    unfold handleFileChange_wake, describeLoop, describeFinish.
    destruct (a + 1 <=? SAFE_RETRY_COUNT); cbn [fst]; frame. }
  destruct o as [[response|]|e]; cbn [handleFileChange_settle]; try apply C.
  unfold describeFinish. destruct (nonEmpty _); cbn [fst]; frame.
Qed.

Lemma besideDescription_runDescribe outcomes :
  forall t w, besideDescription (fst (runDescribe outcomes t w)) = besideDescription w.
Proof.
  induction outcomes as [|[l o] rest IH]; intros t w; [reflexivity|].
  cbn [runDescribe]. destruct t as [f|ip a|ip a ms|]; try reflexivity.
  destruct (describeStep o (DAwaitCall ip a) (advance l w)) as [w1 t1] eqn:S1.
  rewrite IH. change w1 with (fst (w1, t1)). rewrite <- S1.
  rewrite besideDescription_describeStep. frame.
Qed.

(** However the calls end, the command loop writes the reply, the action
    image, its loading flag and the notice, and nothing else: the picture,
    its part and its object URL, the model, the description, the typed
    command and the time of the last submission are as they were, and no
    object URL is made or given back.  The description loop, likewise,
    writes the description, its loading flag and the notice only. *)
Theorem loops_write_their_own_cells_only :
  forall (outcomes : list (Z * Outcome)) (w : World),
    (forall t,
        let w' := fst (runSend outcomes t w) in
        toyImage (st w') = toyImage (st w)
        /\ toyImagePart (st w') = toyImagePart (st w)
        /\ toyModel (st w') = toyModel (st w)
        /\ toyDescription (st w') = toyDescription (st w)
        /\ userCommand (st w') = userCommand (st w)
        /\ isLoadingDescription (st w') = isLoadingDescription (st w)
        /\ isListening (st w') = isListening (st w)
        /\ lastSendAt (st w') = lastSendAt (st w)
        /\ toyImageObjectUrlRef w' = toyImageObjectUrlRef w
        /\ created w' = created w /\ revoked w' = revoked w)
    /\ (forall t,
           let w' := fst (runDescribe outcomes t w) in
           toyImage (st w') = toyImage (st w)
           /\ toyImagePart (st w') = toyImagePart (st w)
           /\ toyModel (st w') = toyModel (st w)
           /\ userCommand (st w') = userCommand (st w)
           /\ toyReply (st w') = toyReply (st w)
           /\ actionImage (st w') = actionImage (st w)
           /\ isLoadingResponse (st w') = isLoadingResponse (st w)
           /\ isListening (st w') = isListening (st w)
           /\ lastSendAt (st w') = lastSendAt (st w)
           /\ toyImageObjectUrlRef w' = toyImageObjectUrlRef w
           /\ created w' = created w /\ revoked w' = revoked w).
Proof.
  intros outcomes w. split; intros t w'; subst w'.
  - pose proof (besideCommand_runSend outcomes t w) as H.
    unfold besideCommand in H. injection H as -> -> -> -> -> -> -> -> -> -> ->.
    repeat split.
  - pose proof (besideDescription_runDescribe outcomes t w) as H.
    unfold besideDescription in H. injection H as -> -> -> -> -> -> -> -> -> -> -> ->.
    repeat split.
Qed.

(** A description that arrives while a command is typed, and a reply. *)
Example other_cells_untouched_example :
  let w := withState (setUserCommand "dan") (readyWorld 1000000) in
  userCommand
    (st (fst (runDescribe [(100, Resolved (Some (responseOf (Some "A bear") [])))]
                (DAwaitCall samplePart 0) w))) = "dan"
  /\ toyDescription
       (st (fst (runSend [(100, Resolved (Some (responseOf (Some "Whee!") [])))]
                   (SAwaitCall samplePart "p" 0) w))) = "A fluffy bear".
Proof. vm_compute. split; reflexivity. Qed.

(** ** A command that fails *)

Lemma allRejected_cons l o rest :
  allRejected ((l, o) :: rest) = true ->
  exists e, o = Rejected e /\ allRejected rest = true.
Proof.
  unfold allRejected. cbn [forallb snd]. rewrite andb_true_iff.
  destruct o as [r|e]; [intros [H _]; discriminate|].
  intros [_ R]. now exists e.
Qed.

(** A rejected call leaves the reply and the action image as they are. *)
Lemma sendStep_rejected_reply e t w :
  toyReply (st (fst (sendStep (Rejected e) t w))) = toyReply (st w)
  /\ actionImage (st (fst (sendStep (Rejected e) t w))) = actionImage (st w).
Proof.
  destruct t as [img p a|img p a ms|]; [|split; reflexivity|split; reflexivity].
  cbn [sendStep sendCommand_settle]. unfold sendCatch, sendFinish.
  destruct (isQuotaError e); [cbn [fst]; split; autorewrite with world; reflexivity|].
  destruct (a + 1 >? SAFE_RETRY_COUNT);
    [cbn [fst]; split; autorewrite with world; reflexivity|].
  unfold sendCommand_wake, sendLoop, sendFinish.
  destruct (a + 1 <=? SAFE_RETRY_COUNT); cbn [fst]; split; autorewrite with world;
    reflexivity.
Qed.

Lemma runSend_rejected_reply outcomes :
  forall t w,
    allRejected outcomes = true ->
    toyReply (st (fst (runSend outcomes t w))) = toyReply (st w)
    /\ actionImage (st (fst (runSend outcomes t w))) = actionImage (st w).
Proof.
  induction outcomes as [|[l o] rest IH]; intros t w R; [split; reflexivity|].
  destruct (allRejected_cons _ _ _ R) as (e & -> & R').
  cbn [runSend]. destruct t as [img p a|img p a ms|]; try (split; reflexivity).
  destruct (sendStep (Rejected e) (SAwaitCall img p a) (advance l w)) as [w1 t1] eqn:S1.
  destruct (IH t1 w1 R') as [-> ->].
  destruct (sendStep_rejected_reply e (SAwaitCall img p a) (advance l w)) as [A B].
  rewrite S1 in A, B. cbn [fst] in A, B. rewrite A, B.
  split; autorewrite with world; reflexivity.
Qed.

(** The notice that the command loop ends with when every call is
    rejected. *)
Lemma runSend_rejected_notice (n : nat) :
  forall a outcomes img p w,
    a = SAFE_RETRY_COUNT - Z.of_nat n ->
    allRejected outcomes = true ->
    (S n <= length outcomes)%nat ->
    let r := runSend outcomes (SAwaitCall img p a) w in
    error (st (fst r)) = MSG_DAILY_LIMIT \/ error (st (fst r)) = MSG_SEND_FAILED.
Proof.
  induction n as [|n IH]; intros a outcomes img p w Ha R L;
    destruct outcomes as [|[l o] rest]; cbn [length] in L; try lia;
    destruct (allRejected_cons _ _ _ R) as (e & -> & R');
    cbn [runSend];
    (destruct (isQuotaError e) eqn:Q;
     [rewrite sendStep_fatal by exact Q; unfold sendFinish; rewrite runSend_done;
      cbn [fst]; left; autorewrite with world; reflexivity|]).
  - rewrite sendStep_exhausted by (assumption || lia).
    unfold sendFinish. rewrite runSend_done. cbn [fst].
    right; autorewrite with world; reflexivity.
  - rewrite sendStep_retry by (assumption || lia).
    apply IH; [lia | exact R' | lia].
Qed.

(** A command whose calls are all rejected, by fatal or by transient
    errors, ends with one of the two failure notices and with nothing to
    show: the reply and the action image of the command before were
    cleared when it was accepted and stay cleared.  The picture and its
    description are kept, and the time of the submission stays recorded. *)
Theorem failed_command_leaves_no_result :
  forall view cmd img outcomes w,
    nonEmpty (trim cmd) = true ->
    toyImagePart view = Some img ->
    DEBOUNCE_MS <= clock w - lastSendAt view ->
    allRejected outcomes = true ->
    (3 <= length outcomes)%nat ->
    let r := sendCommand view (Some cmd) outcomes w in
    snd r = SDone
    /\ toyReply (st (fst r)) = ""
    /\ actionImage (st (fst r)) = None
    /\ (error (st (fst r)) = MSG_DAILY_LIMIT \/ error (st (fst r)) = MSG_SEND_FAILED)
    /\ isLoadingResponse (st (fst r)) = false
    /\ toyImage (st (fst r)) = toyImage (st w)
    /\ toyDescription (st (fst r)) = toyDescription (st w)
    /\ lastSendAt (st (fst r)) = clock w.
Proof.
  intros view cmd img outcomes w N I D R L.
  unfold sendCommand. rewrite (sendCommand_begin_accepted _ _ _ _ N I D).
  match goal with
  | |- context [runSend outcomes (SAwaitCall img ?p 0) ?w0] =>
      destruct (runSend_bounded 2 0 outcomes img p w0 eq_refl L) as (Dn & _ & F & _);
      destruct (runSend_rejected_reply outcomes (SAwaitCall img p 0) w0 R) as [Tr Ai];
      pose proof (runSend_rejected_notice 2 0 outcomes img p w0 eq_refl R L) as E;
      pose proof (besideCommand_runSend outcomes (SAwaitCall img p 0) w0) as B
  end.
  cbv zeta in *. unfold besideCommand in B.
  injection B as B1 _ _ B4 _ _ _ B8 _ _ _.
  split; [exact Dn|]. split; [rewrite Tr; autorewrite with world; reflexivity|].
  split; [rewrite Ai; autorewrite with world; reflexivity|].
  split; [exact E|]. split; [exact F|].
  split; [rewrite B1; autorewrite with world; reflexivity|].
  split; [rewrite B4; autorewrite with world; reflexivity|].
  rewrite B8; autorewrite with world; reflexivity.
Qed.

(** "Whee!" is on display; the next command meets a quota error. *)
Lemma failed_command_leaves_no_result_witness :
  let w := withState (setToyReply "Whee!") (readyWorld 1000000) in
  let outcomes := [(100, Rejected (mkError "Failed to fetch"));
                   (100, Rejected (mkError "Quota exceeded"));
                   (100, Rejected (mkError "Failed to fetch"))] in
  nonEmpty (trim "jump") = true
  /\ toyImagePart (st w) = Some samplePart
  /\ DEBOUNCE_MS <= clock w - lastSendAt (st w)
  /\ allRejected outcomes = true
  /\ (3 <= length outcomes)%nat
  /\ toyReply (st (fst (sendCommand (st w) (Some "jump") outcomes w))) = "".
Proof.
  split; [vm_compute; reflexivity|]. split; [vm_compute; reflexivity|].
  split; [vm_compute; discriminate|]. split; [vm_compute; reflexivity|].
  split; [vm_compute; lia|].
  refine (proj1 (proj2 (failed_command_leaves_no_result
                          (st (withState (setToyReply "Whee!") (readyWorld 1000000)))
                          "jump" samplePart _ 
                          (withState (setToyReply "Whee!") (readyWorld 1000000))
                          _ _ _ _ _)));
    vm_compute; (reflexivity || discriminate || lia).
Defined.

(** ** The debounce window *)

(** For the handlers of the current render the window is sharp: after an
    accepted submission, a second one is refused, without any trace, up to
    599 ms later and accepted from 600 ms on; a refused submission does not
    move the window. *)
Theorem debounce_window_is_sharp :
  forall (w : World) (cmd1 cmd2 : string) (img : ImagePart) (dt : Z),
    nonEmpty (trim cmd1) = true ->
    nonEmpty (trim cmd2) = true ->
    toyImagePart (st w) = Some img ->
    DEBOUNCE_MS <= clock w - lastSendAt (st w) ->
    let first := sendCommand_begin (st w) (Some cmd1) w in
    let w2 := advance dt (fst first) in
    let second := sendCommand_begin (st w2) (Some cmd2) w2 in
    snd first = SAwaitCall img (combinedPrompt (trim cmd1)) 0
    /\ lastSendAt (st w2) = clock w
    /\ (dt < DEBOUNCE_MS -> second = (w2, SDone))
    /\ (DEBOUNCE_MS <= dt ->
        snd second = SAwaitCall img (combinedPrompt (trim cmd2)) 0
        /\ lastSendAt (st (fst second)) = clock w + dt
        /\ attempts (fst second) = (attempts w ++ [EvCall; EvCall])%list).
Proof.
  intros w cmd1 cmd2 img dt N1 N2 I D first w2 second. subst second w2 first.
  rewrite (sendCommand_begin_accepted _ _ _ _ N1 I D). cbn [fst snd].
  match goal with
  | |- context [advance dt ?x] => set (w1 := x)
  end.
  assert (L : lastSendAt (st (advance dt w1)) = clock w)
    by (subst w1; autorewrite with world; reflexivity).
  assert (C : clock (advance dt w1) = clock w + dt)
    by (subst w1; autorewrite with world; reflexivity).
  assert (P : toyImagePart (st (advance dt w1)) = Some img)
    by (subst w1; autorewrite with world; exact I).
  split; [reflexivity|]. split; [exact L|]. split.
  - intros H. apply sendCommand_begin_inside_window. rewrite L, C. lia.
  - intros H.
    rewrite (sendCommand_begin_accepted (st (advance dt w1)) cmd2 img (advance dt w1) N2 P)
      by (rewrite L, C; lia).
    cbn [fst snd]. split; [reflexivity|]. split.
    + subst w1. autorewrite with world. reflexivity.
    + subst w1. observe. now rewrite <- app_assoc.
Qed.

(** Two clicks on preset buttons, 599 ms and 600 ms apart. *)
Lemma debounce_window_is_sharp_witness :
  let w := readyWorld 1000000 in
  nonEmpty (trim "dance") = true
  /\ nonEmpty (trim "jump") = true
  /\ toyImagePart (st w) = Some samplePart
  /\ DEBOUNCE_MS <= clock w - lastSendAt (st w)
  /\ (let w2 := advance 599 (fst (sendCommand_begin (st w) (Some "dance") w)) in
      sendCommand_begin (st w2) (Some "jump") w2 = (w2, SDone))
  /\ (let w2 := advance 600 (fst (sendCommand_begin (st w) (Some "dance") w)) in
      snd (sendCommand_begin (st w2) (Some "jump") w2)
      = SAwaitCall samplePart (combinedPrompt "jump") 0).
Proof.
  split; [vm_compute; reflexivity|]. split; [vm_compute; reflexivity|].
  split; [vm_compute; reflexivity|]. split; [vm_compute; discriminate|].
  split.
  - refine (proj1 (proj2 (proj2 (debounce_window_is_sharp (readyWorld 1000000)
                                   "dance" "jump" samplePart 599 _ _ _ _))) _);
      vm_compute; (reflexivity || discriminate).
  - refine (proj1 (proj2 (proj2 (proj2 (debounce_window_is_sharp (readyWorld 1000000)
                                          "dance" "jump" samplePart 600 _ _ _ _))) _));
      vm_compute; (reflexivity || discriminate).
Defined.

(** ** The page *)

Lemma In_when x cond y : In x (when cond y) <-> cond = true /\ x = y.
Proof.
  unfold when. destruct cond; cbn [In]; split.
  - intros [<- | []]. auto.
  - intros [_ ->]. now left.
  - intros [].
  - intros [H _]. discriminate.
Qed.

Ltac render_in s :=
  unfold render, present, chosen;
  destruct (toyImage s) as [?|];
  [destruct (actionImage s) as [src|];
   [destruct (nonEmpty src) eqn:?|];
   destruct (toyModel s) as [?|]|];
  cbn [orb];
  repeat (first [rewrite in_app_iff | rewrite In_when | progress cbn [In]]);
  rewrite ?andb_true_iff, ?negb_true_iff;
  intuition (try (discriminate || congruence)).

Lemma render_DrawingSpinner s :
  In DrawingSpinner (render s)
  <-> toyImage s <> None /\ isLoadingResponse s = true /\ nonEmpty (toyReply s) = true.
Proof. render_in s. Qed.



Lemma render_ThreeDViewer s m :
  In (ThreeDViewer m) (render s) <-> toyImage s <> None /\ toyModel s = Some m.
Proof. render_in s. Qed.

Lemma render_ModelInput s : In ModelInput (render s) <-> toyImage s = None.
Proof. render_in s. Qed.


Lemma render_PictureInput s : In PictureInput (render s) <-> toyImage s = None.
Proof. render_in s. Qed.




(** ** Histories of the page *)

Lemma log_startOver_exact w :
  log (startOver w)
  = (log w ++ [InitializeAudio; PlaySound click; SpeechCancel]
     ++ map RevokeObjectURL (held w)
     ++ match abortControllerRef w with Some c => [Abort c] | None => [] end)%list.
Proof.
  destruct w as [s [u|] [a|] c ts fr lg];
    cbv beta iota zeta delta [startOver emit withState setUrlRef setAbortRef log
                                toyImageObjectUrlRef abortControllerRef held map];
    rewrite <- ?app_assoc; reflexivity.
Qed.

Lemma created_startOver w : created (startOver w) = created w.
Proof.
  unfold created. rewrite log_startOver_exact, !flat_map_app.
  unfold held. destruct (toyImageObjectUrlRef w), (abortControllerRef w);
    cbn; now rewrite app_nil_r.
Qed.

Lemma revoked_startOver w : revoked (startOver w) = (revoked w ++ held w)%list.
Proof.
  unfold revoked. rewrite log_startOver_exact, !flat_map_app.
  unfold held. destruct (toyImageObjectUrlRef w), (abortControllerRef w);
    cbn; now rewrite ?app_nil_r.
Qed.

Lemma created_showPicture f w : created (showPicture f w) = (created w ++ [fresh w])%list.
Proof.
  unfold created. rewrite log_showPicture, flat_map_app.
  fold (created (startOver w)). rewrite created_startOver. reflexivity.
Qed.

Lemma revoked_showPicture f w : revoked (showPicture f w) = (revoked w ++ held w)%list.
Proof.
  unfold revoked. rewrite log_showPicture, flat_map_app.
  fold (revoked (startOver w)). rewrite revoked_startOver. cbn. apply app_nil_r.
Qed.

Ltac urls := frame.

Lemma sendCommand_begin_cases view commandText w :
  sendCommand_begin view commandText w = (w, SDone)
  \/ exists img cmd,
      sendCommand_begin view commandText w
      = (issueCall "gemini-2.5-flash-image-preview" img (combinedPrompt cmd)
           (w |> withState (setLastSendAt (clock w))
              |> emit InitializeAudio |> emit (PlaySound click)
              |> withState (setIsLoadingResponse true)
              |> withState (setToyReply "")
              |> withState (setActionImage None)
              |> withState (setError "")),
         SAwaitCall img (combinedPrompt cmd) 0).
Proof.
  unfold sendCommand_begin, canSendNow.
  destruct (negb _); [now left|].
  destruct (toyImagePart view) as [img|]; [|now left].
  destruct (clock w - lastSendAt view <? DEBOUNCE_MS); [now left|].
  right. unfold sendLoop. change (0 <=? SAFE_RETRY_COUNT) with true.
  cbv iota. now eexists _, _.
Qed.

Lemma urlView_sendCommand_begin view commandText w :
  urlView (fst (sendCommand_begin view commandText w)) = urlView w.
Proof.
  destruct (sendCommand_begin_cases view commandText w) as [-> | (img & cmd & ->)];
    [reflexivity|]. cbn [fst]. urls.
Qed.

Lemma urlView_sendStep o t w : urlView (fst (sendStep o t w)) = urlView w.
Proof.
  pose proof (besideCommand_sendStep o t w) as H. unfold besideCommand in H.
  unfold urlView. congruence.
Qed.

Lemma urlView_describeStep o t w : urlView (fst (describeStep o t w)) = urlView w.
Proof.
  pose proof (besideDescription_describeStep o t w) as H.
  unfold besideDescription in H. unfold urlView. congruence.
Qed.

Lemma urlView_encoded_read f b64 w :
  base64Encode f = inl b64 ->
  urlView (fst (handleFileChange_encoded f w)) = urlView w
  /\ toyModel (st (fst (handleFileChange_encoded f w))) = toyModel (st w)
  /\ toyReply (st (fst (handleFileChange_encoded f w))) = toyReply (st w)
  /\ isLoadingResponse (st (fst (handleFileChange_encoded f w)))
     = isLoadingResponse (st w).
Proof.
  intros E. unfold handleFileChange_encoded. rewrite E.
  unfold describeLoop. change (0 <=? SAFE_RETRY_COUNT) with true. cbv iota.
  cbn [fst]. split; [frame|]. repeat split; autorewrite with world; reflexivity.
Qed.

Lemma encoded_unreadable f e w :
  base64Encode f = inr e ->
  let w' := fst (handleFileChange_encoded f w) in
  toyImage (st w') = None
  /\ toyImageObjectUrlRef w' = None
  /\ created w' = created w
  /\ revoked w' = (revoked w ++ held w)%list
  /\ toyModel (st w') = toyModel (st w)
  /\ toyReply (st w') = toyReply (st w)
  /\ isLoadingResponse (st w') = isLoadingResponse (st w).
Proof.
  intros E. unfold handleFileChange_encoded. rewrite E.
  rewrite urlRef_handleError, urlRef_emit. unfold describeFinish, held.
  destruct (toyImageObjectUrlRef w) as [u|] eqn:U; cbn [fst];
    unfold created, revoked;
    repeat split; autorewrite with world; try reflexivity; try exact U;
    rewrite ?flat_map_app; cbn [flat_map createdOf revokedOf app];
    now rewrite ?app_nil_r.
Qed.

Lemma Steady_neutral w w' :
  urlView w' = urlView w ->
  toyModel (st w') = toyModel (st w) ->
  (isLoadingResponse (st w') = true -> toyReply (st w') = ""
   \/ (isLoadingResponse (st w) = true /\ toyReply (st w') = toyReply (st w))) ->
  Steady w -> Steady w'.
Proof.
  unfold urlView, Steady, held. intros V M R (A & B & C & D).
  injection V as V1 V2 V3 V4. rewrite V1, V2, V3, V4, M.
  repeat split; try assumption.
  intros L. destruct (R L) as [E | [L' E]]; [exact E|]. rewrite E. auto.
Qed.

Lemma Steady_initial now : Steady (initialWorld now).
Proof. repeat split; (now left) || reflexivity || discriminate. Qed.

Lemma Steady_startOver w : Steady w -> Steady (startOver w).
Proof.
  intros (A & B & C & D). unfold Steady, held.
  rewrite created_startOver, revoked_startOver, urlRef_startOver.
  split; [right; autorewrite with world; reflexivity|].
  split; [intros _; autorewrite with world; reflexivity|].
  split; [autorewrite with world; reflexivity|].
  now rewrite app_nil_r.
Qed.

Lemma Steady_showPicture f w : Steady w -> Steady (showPicture f w).
Proof.
  intros (A & B & C & D). unfold Steady, held.
  rewrite created_showPicture, revoked_showPicture, urlRef_showPicture.
  split; [right; autorewrite with world; reflexivity|].
  split; [intros _; autorewrite with world; reflexivity|].
  split; [autorewrite with world; reflexivity|].
  now rewrite D.
Qed.

Lemma Steady_same w w' :
  urlView w' = urlView w ->
  toyModel (st w') = toyModel (st w) ->
  toyReply (st w') = toyReply (st w) ->
  isLoadingResponse (st w') = isLoadingResponse (st w) ->
  Steady w -> Steady w'.
Proof.
  intros V M R L. apply Steady_neutral; try assumption.
  intros H. right. now rewrite <- L.
Qed.

Ltac same w :=
  apply (Steady_same w);
  [ frame
  | autorewrite with world; reflexivity
  | autorewrite with world; reflexivity
  | autorewrite with world; reflexivity
  | ].

Lemma Steady_sendCommand_begin view commandText w :
  Steady w -> Steady (fst (sendCommand_begin view commandText w)).
Proof.
  destruct (sendCommand_begin_cases view commandText w) as [-> | (img & cmd & ->)];
    [auto|].
  cbn [fst]. apply Steady_neutral; [frame | autorewrite with world; reflexivity|].
  intros _. left. autorewrite with world. reflexivity.
Qed.

Lemma sendStep_loading o t w :
  isLoadingResponse (st (fst (sendStep o t w))) = true ->
  isLoadingResponse (st w) = true
  /\ toyReply (st (fst (sendStep o t w))) = toyReply (st w).
Proof.
  destruct t as [img p a|img p a ms|]; [|now split|now split].
  cbn [sendStep]. destruct o as [response|e].
  - rewrite sendCommand_settle_resolved. unfold sendFinish. cbn [fst].
    autorewrite with world. discriminate.
  - cbn [sendCommand_settle]. unfold sendCatch, sendFinish.
    destruct (isQuotaError e); [cbn [fst]; autorewrite with world; discriminate|].
    destruct (a + 1 >? SAFE_RETRY_COUNT);
      [cbn [fst]; autorewrite with world; discriminate|].
    unfold sendCommand_wake, sendLoop, sendFinish.
    destruct (a + 1 <=? SAFE_RETRY_COUNT); cbn [fst]; autorewrite with world;
      [now split | discriminate].
Qed.

(** Every event keeps the page steady. *)
Lemma Steady_dispatch e w : Steady w -> Steady (dispatch e w).
Proof.
  intros S. destruct e; unfold dispatch.
  - same w. exact S.
  - destruct (toyImage (st w)); [now apply Steady_startOver | exact S].
  - destruct (toyImage (st w)); [exact S|].
    unfold handleFileChange_begin. destruct file as [f|]; [|exact S].
    destruct (negb _); cbn [fst]; [same w; exact S | now apply Steady_showPicture].
  - destruct (toyImage (st w)) eqn:T; [exact S|].
    unfold handleModelChange. destruct file as [f|]; [|exact S].
    destruct (negb _); [same w; exact S|].
    destruct S as (A & B & C & D). unfold Steady, held, created, revoked in *.
    autorewrite with world. repeat split; auto.
  - destruct (toyImage (st w)); [same w; exact S | exact S].
  - destruct (toyImage (st w)); [|exact S].
    destruct (existsb _ _); [|exact S].
    unfold presetClick. apply Steady_sendCommand_begin. same w. exact S.
  - destruct (toyImage (st w)); [|exact S].
    unfold formSubmit. apply Steady_sendCommand_begin. same w. exact S.
  - destruct (toyImage (st w)); [|exact S].
    unfold handleMicClick. destruct (isListening (st w)); cbn [fst]; same w; exact S.
  - destruct (base64Encode f) as [b64|err] eqn:E.
    + destruct (urlView_encoded_read f b64 w E) as (V & M & R & L).
      now apply (Steady_same w).
    + destruct (encoded_unreadable f err w E) as (I & U & Cr & Rv & M & R & L).
      destruct S as (A & B & C & D). unfold Steady, held.
      rewrite I, U, Cr, Rv, R, L, app_nil_r. repeat split; auto.
  - pose proof (besideDescription_describeStep o t w) as H.
    unfold besideDescription in H. injection H as H1 _ H3 _ H5 _ H7 _ _ H10 H11 H12.
    apply (Steady_same w); try assumption. unfold urlView. congruence.
  - unfold onresult. apply Steady_sendCommand_begin. same w. exact S.
  - pose proof (besideCommand_sendStep o t w) as H.
    unfold besideCommand in H. injection H as H1 _ H3 _ _ _ _ _ H9 H10 H11.
    apply (Steady_neutral w); try assumption; [unfold urlView; congruence|].
    intros L. right. now apply sendStep_loading.
Qed.

Lemma Steady_run events : forall w, Steady w -> Steady (run events w).
Proof.
  induction events as [|e rest IH]; intros w S; [exact S|].
  cbn [run fold_left]. apply IH. now apply Steady_dispatch.
Qed.

(** Two parts of the page are never seen, whatever the user does and
    whatever the service answers, in whatever order: the 3D viewer, which
    needs a model and a picture at once, while a model can only be chosen
    on the upload screen and choosing a picture there resets the session,
    model included; and the spinner "Drawing a picture...", which needs a
    reply on display during loading, while every command clears the reply
    as it starts and stores the new one as it stops loading. *)
Theorem viewer_and_drawing_spinner_never_shown :
  forall (events : list Event) (now : Z),
    let w := run events (initialWorld now) in
    (forall m, ~ In (ThreeDViewer m) (render (st w)))
    /\ ~ In DrawingSpinner (render (st w))
    /\ (toyModel (st w) <> None -> In ModelInput (render (st w))).
Proof.
  intros events now w.
  destruct (Steady_run events _ (Steady_initial now)) as (A & B & _). fold w in A, B.
  split; [|split].
  - intros m H. apply render_ThreeDViewer in H as [T M].
    destruct A as [A|A]; congruence.
  - intros H. apply render_DrawingSpinner in H as (_ & L & R).
    rewrite (B L) in R. discriminate.
  - intros M. apply render_ModelInput. destruct A as [A|A]; [exact A | contradiction].
Qed.

(** A model is chosen and stored; the picture chosen next discards it. *)
Example model_lost_on_picture_upload :
  let glb := {| fileName := "bear.glb"; fileType := "model/gltf-binary";
                fileDataURL := None |} in
  toyModel (st (run [ChooseModel (Some glb)] (initialWorld 0))) = Some glb
  /\ toyModel (st (run [ChooseModel (Some glb); ChoosePicture (Some pngFile)]
                     (initialWorld 0))) = None.
Proof. vm_compute. split; reflexivity. Qed.

(** At every moment the picture on display is the object URL that the
    component holds, and every object URL made so far has been given back,
    in the order of making, except the one held: nothing leaks, and on the
    upload screen nothing is held. *)
Theorem object_urls_are_given_back :
  forall (events : list Event) (now : Z),
    let w := run events (initialWorld now) in
    toyImage (st w) = toyImageObjectUrlRef w
    /\ created w = (revoked w ++ held w)%list
    /\ (In PictureInput (render (st w)) -> created w = revoked w).
Proof.
  intros events now w.
  destruct (Steady_run events _ (Steady_initial now)) as (_ & _ & C & D).
  fold w in C, D. split; [exact C|]. split; [exact D|].
  intros H. rewrite D. unfold held. rewrite <- C.
  apply render_PictureInput in H as T.
  rewrite T. apply app_nil_r.
Qed.

(** Two pictures in a row, the second of which cannot be read. *)
Example object_urls_example :
  let bad := {| fileName := "x.png"; fileType := "image/png"; fileDataURL := None |} in
  let w := run [ChoosePicture (Some pngFile); PictureRead pngFile; ClickStartOver;
                ChoosePicture (Some bad); PictureRead bad] (initialWorld 0) in
  created w = [0%nat; 2%nat] /\ revoked w = [0%nat; 2%nat] /\ held w = [].
Proof. vm_compute. repeat split. Qed.

(** ** The voice of the toy *)



(** A French voice by the preferred name wins over the English ones. *)
Example preferred_voice_example :
  preferredVoice [ {| voiceName := "Alice"; voiceLang := "en-GB" |};
                   {| voiceName := "Samantha (Female)"; voiceLang := "en-US" |};
                   {| voiceName := "GOOGLE US ENGLISH"; voiceLang := "fr-FR" |} ]
  = Some {| voiceName := "GOOGLE US ENGLISH"; voiceLang := "fr-FR" |}
  /\ preferredVoice [ {| voiceName := "Alice"; voiceLang := "en-GB" |};
                      {| voiceName := "Samantha (Female)"; voiceLang := "en-US" |} ]
     = Some {| voiceName := "Samantha (Female)"; voiceLang := "en-US" |}
  /\ preferredVoice [ {| voiceName := "Amelie"; voiceLang := "fr-FR" |} ] = None.
Proof. vm_compute. repeat split. Qed.

(** ** The two parsers *)

(** The loop of the earlier file, read from the end of the list. *)
Lemma Legacy_scanParts_snoc ps :
  forall part t i,
    Legacy.scanParts (ps ++ [part]) t i
    = let (t', i') := Legacy.scanParts ps t i in
      if nonEmpty (match partText part with Some x => x | None => "" end)
      then (match partText part with Some x => x | None => "" end, i')
      else match inlineData part with
           | Some blob =>
               (t', "data:image/png;base64,"
                    ++ match data blob with Some d => d | None => "undefined" end)
           | None => (t', i')
           end.
Proof.
  induction ps as [|q ps IH]; intros part t i; cbn [app Legacy.scanParts].
  - destruct (nonEmpty _); [reflexivity|]. now destruct (inlineData part).
  - destruct (nonEmpty (match partText q with Some x => x | None => "" end));
      [apply IH|]. destruct (inlineData q); apply IH.
Qed.

(** When a response carries several images, the application shows the
    first one and the earlier file showed the last one; the earlier file
    took the reply from the last part with text, and showed an image
    without data as the payload "undefined". *)
Theorem parsers_first_versus_last :
  forall (d1 d2 : string) (mid : list Part),
    nonEmpty d1 = true ->
    nonEmpty d2 = true ->
    let ps := (imagePartOf d1 :: mid ++ [imagePartOf d2])%list in
    findImageData ps = d1
    /\ snd (Legacy.scanParts ps "" "") = "data:image/png;base64," ++ d2
    /\ (forall t, nonEmpty t = true ->
                  fst (Legacy.scanParts (ps ++ [textPart t]) "" "") = t)
    /\ snd (Legacy.scanParts
              (ps ++ [ {| partText := None;
                          inlineData := Some {| data := None; mimeType := None |} |} ])
              "" "")
       = "data:image/png;base64,undefined"
    /\ findImageData
         (ps ++ [ {| partText := None;
                     inlineData := Some {| data := None; mimeType := None |} |} ])
       = d1.
Proof.
  intros d1 d2 mid N1 N2 ps. subst ps.
  assert (F : forall rest, findImageData (imagePartOf d1 :: rest) = d1)
    by (intros rest; cbn [findImageData imagePartOf inlineData data]; now rewrite N1).
  split; [apply F|]. split; [|split; [|split]].
  - rewrite app_comm_cons, Legacy_scanParts_snoc.
    destruct (Legacy.scanParts _ _ _). reflexivity.
  - intros t Nt. rewrite Legacy_scanParts_snoc.
    destruct (Legacy.scanParts _ _ _). cbn [textPart partText]. now rewrite Nt.
  - rewrite Legacy_scanParts_snoc. destruct (Legacy.scanParts _ _ _). reflexivity.
  - rewrite <- app_comm_cons. apply F.
Qed.

Lemma parsers_first_versus_last_witness :
  nonEmpty "QUJD" = true /\ nonEmpty "REVG" = true
  /\ findImageData [imagePartOf "QUJD"; textPart "one"; imagePartOf "REVG"] = "QUJD"
  /\ snd (Legacy.scanParts [imagePartOf "QUJD"; textPart "one"; imagePartOf "REVG"] "" "")
     = "data:image/png;base64,REVG".
Proof.
  split; [reflexivity|]. split; [reflexivity|].
  destruct (parsers_first_versus_last "QUJD" "REVG" [textPart "one"]
              ltac:(reflexivity) ltac:(reflexivity)) as (A & B & _).
  split; [exact A | exact B].
Defined.

(** ** The earlier file: one call, and the end *)

(** In the earlier file a call that has settled, however, is the end of
    the handler: no further call, no sleep, the loading flag cleared.  An
    error other than [null] and [undefined] shows a notice, and in the
    description handler it also takes the picture away, which brings the
    upload screen back; a rejection with [null] or [undefined] shows
    nothing at all. *)
Theorem Legacy_single_attempt :
  forall (o : Outcome) (w : World),
    (let w' := Legacy.sendCommand_settle o w in
     attempts w' = attempts w
     /\ isLoadingResponse (st w') = false
     /\ toyImage (st w') = toyImage (st w))
    /\ (let r := Legacy.handleFileChange_settle o w in
        snd r = Legacy.DDone
        /\ attempts (fst r) = attempts w
        /\ isLoadingDescription (st (fst r)) = false)
    /\ (forall e, o = Rejected e -> e <> JNull -> e <> JUndefined ->
                  error (st (Legacy.sendCommand_settle o w)) <> ""
                  /\ error (st (fst (Legacy.handleFileChange_settle o w))) <> ""
                  /\ toyImage (st (fst (Legacy.handleFileChange_settle o w))) = None)
    /\ (o = Rejected JNull \/ o = Rejected JUndefined ->
        error (st (Legacy.sendCommand_settle o w)) = error (st w)
        /\ error (st (fst (Legacy.handleFileChange_settle o w))) = error (st w)
        /\ toyImage (st (fst (Legacy.handleFileChange_settle o w))) = toyImage (st w)).
Proof.
  intros o w.
  assert (SC : forall e,
             attempts (Legacy.sendCatch e w) = attempts w
             /\ isLoadingResponse (st (Legacy.sendCatch e w)) = false
             /\ toyImage (st (Legacy.sendCatch e w)) = toyImage (st w)).
  { intros e. unfold Legacy.sendCatch, Legacy.handleError.
    destruct (Legacy.mentionsQuota e) as [[|]|]; repeat split; observe; reflexivity. }
  assert (DC : forall e,
             snd (Legacy.describeCatch e w) = Legacy.DDone
             /\ attempts (fst (Legacy.describeCatch e w)) = attempts w
             /\ isLoadingDescription (st (fst (Legacy.describeCatch e w))) = false).
  { intros e. unfold Legacy.describeCatch, Legacy.handleError.
    destruct (Legacy.mentionsQuota e) as [[|]|]; cbn [fst snd]; repeat split;
      observe; reflexivity. }
  split; [|split; [|split]].
  - destruct o as [[r|]|e]; cbn [Legacy.sendCommand_settle]; try apply SC.
    destruct (Legacy.partsOf r) as [ps|]; [|apply SC].
    destruct (Legacy.scanParts ps "" "") as [t i]. unfold Legacy.handleError.
    destruct (nonEmpty t), (nonEmpty i); cbn [negb andb]; repeat split; observe;
      reflexivity.
  - destruct o as [[r|]|e]; cbn [Legacy.handleFileChange_settle]; try apply DC.
    cbn [fst snd]. repeat split; observe; reflexivity.
  - intros e -> N U. cbn [Legacy.sendCommand_settle Legacy.handleFileChange_settle].
    unfold Legacy.sendCatch, Legacy.describeCatch, Legacy.mentionsQuota.
    destruct e; try congruence;
      match goal with
      | |- context [includes ?a ?b] => destruct (includes a b)
      end; cbn [fst snd]; unfold Legacy.handleError;
      repeat split; observe; discriminate || reflexivity.
  - intros [-> | ->]; cbn [Legacy.sendCommand_settle Legacy.handleFileChange_settle];
      unfold Legacy.sendCatch, Legacy.describeCatch, Legacy.mentionsQuota;
      cbn [fst]; repeat split; observe; reflexivity.
Qed.
